(** * BitVision: quantization-aware Vision Transformer

    A shallow embedding of the numeric core of the repository
    ([Bit/bitLinear.py], [Bit/embeddings.py], [Bit/encoder.py],
    [Bit/visionTransformer.py]), of the model construction in
    [train.py] and of the subset sampling of [Bit/dataset.py], together
    with the properties of the specification that concern them.

    Tensors hold IEEE-754 binary32 values ([torch.float32], the default
    dtype, which every tensor of the repository has).  They are modelled
    with the parameterised floating-point specification of the standard
    library ([SpecFloat]) at precision 24 and maximal exponent 128.

    Elementwise operations are the correctly rounded operations of
    IEEE-754.  The library does not fix the order of the additions
    inside its reductions (sums, means, inner products): the
    definitions reduce in index order, and a property of a value that
    depends on that order is stated for every order ([sums_to],
    [accumulates]). *)

From Stdlib Require Import ZArith List Bool Lia Arith PeanoNat.
From Stdlib Require Import SpecFloat.
From Stdlib Require Import Permutation Sorted.
Import ListNotations.

(* ================================================================== *)
(** * Binary32 arithmetic *)
(* ================================================================== *)

Module F32.

Definition prec : Z := 24.
Definition emax : Z := 128.

Definition float32 : Type := spec_float.

Definition add : float32 -> float32 -> float32 := SFadd prec emax.
Definition sub : float32 -> float32 -> float32 := SFsub prec emax.
Definition mul : float32 -> float32 -> float32 := SFmul prec emax.
Definition div : float32 -> float32 -> float32 := SFdiv prec emax.
Definition sqrt : float32 -> float32 := SFsqrt prec emax.
Definition abs : float32 -> float32 := SFabs.
Definition ltb : float32 -> float32 -> bool := SFltb.
Definition eqb : float32 -> float32 -> bool := SFeqb.

Definition is_nan (x : float32) : bool :=
  match x with S754_nan => true | _ => false end.

Definition is_zero (x : float32) : bool :=
  match x with S754_zero _ => true | _ => false end.

Definition pzero : float32 := S754_zero false.

(** The float of an integer of magnitude below [2^24]: such integers
    are exactly representable, with mantissa [p * 2^(24 - d)] and
    exponent [d - 24] for a [d]-bit magnitude [p]. *)
Definition of_pos (s : bool) (p : positive) : float32 :=
  let d := Zpos (digits2_pos p) in
  S754_finite s (Pos.shiftl p (Z.to_N (prec - d))) (d - prec).

Definition of_int (s : bool) (n : Z) : float32 :=
  match n with
  | Zpos p => of_pos s p
  | _ => S754_zero s
  end.

(** A Python [int] or exactly representable [float] literal used as a
    scalar operand. *)
Definition of_Z (n : Z) : float32 :=
  match n with
  | Z0 => pzero
  | Zpos p => of_pos false p
  | Zneg p => of_pos true p
  end.

(** [float(n)] for a count [n] of any size (rounded to nearest). *)
Definition of_nat (n : nat) : float32 :=
  binary_normalize prec emax (Z.of_nat n) 0 false.

(** Nearest integer of [m / 2^k], ties to even. *)
Definition round_half_even (m : Z) (k : Z) : Z :=
  let q := Z.shiftr m k in
  let r := Z.land m (Z.ones k) in
  let half := Z.shiftl 1 (k - 1) in
  match Z.compare r half with
  | Lt => q
  | Gt => q + 1
  | Eq => if Z.even q then q else q + 1
  end.

(** [torch.round]: round to the nearest integer, halves to even; the
    sign of a zero result is the sign of the argument. *)
Definition round (x : float32) : float32 :=
  match x with
  | S754_finite s m e =>
      if (0 <=? e)%Z then x
      else of_int s (round_half_even (Zpos m) (- e))
  | _ => x
  end.

(** [torch.sign]: [(0 < a) - (a < 0)]. *)
Definition b2f (b : bool) : float32 := if b then of_Z 1 else pzero.

Definition sign (x : float32) : float32 :=
  sub (b2f (ltb pzero x)) (b2f (ltb x pzero)).

(** [clamp(min=lo)]: NaN is propagated. *)
Definition clamp_min (x lo : float32) : float32 :=
  if is_nan x then x else if ltb x lo then lo else x.

(** [clamp(lo, hi)] is [min(max(x, lo), hi)], NaN propagated. *)
Definition clamp (x lo hi : float32) : float32 :=
  if is_nan x then x
  else let v := if ltb x lo then lo else x in
       if ltb hi v then hi else v.

(** Maximum that propagates NaN, as the [max] reduction does. *)
Definition fmax (a b : float32) : float32 :=
  if is_nan a then a
  else if is_nan b then b
  else if ltb a b then b else a.

(** [c / v] for a Python scalar [c] and an element [v] of a tensor:
    the reciprocal of [v], then the product with [c], each rounded. *)
Definition rdiv (c v : float32) : float32 := mul (div (of_Z 1) v) c.

(** [torch.finfo(torch.float32).eps]: the gap between 1.0 and the
    next float, [2^-23]. *)
Definition eps : float32 := S754_finite false 8388608 (-46).

(** [torch.finfo(torch.float32).tiny], the smallest positive normal
    float [2^-126], and the smallest positive subnormal [2^-149]. *)
Definition tiny : float32 := S754_finite false 8388608 (-149).
Definition smallest_subnormal : float32 := S754_finite false 1 (-149).

(** The value [0.5]. *)
Definition half : float32 := S754_finite false 8388608 (-24).

(** The literal [1e-5] as a binary32 value. *)
Definition lit_1e_5 : float32 := S754_finite false 10995116 (-40).

End F32.

Import F32.

(* ================================================================== *)
(** * Tensors *)
(* ================================================================== *)

(** A tensor is a shape and its elements in row-major order, as a
    contiguous [torch.Tensor] stores them. *)
Record Tensor : Type := mkTensor { shape : list nat; data : list float32 }.

Definition numel (sh : list nat) : nat := fold_right Nat.mul 1 sh.

(** [data] holds exactly the elements the shape announces. *)
Definition wf (t : Tensor) : Prop := length (data t) = numel (shape t).

(** Size of the last dimension ([dim=-1]); a 0-dim tensor is one row of
    one element. *)
Definition last_dim (sh : list nat) : nat := last sh 1.

(** The leading dimensions, and the number of last-dimension slices. *)
Definition lead (sh : list nat) : list nat := removelast sh.
Definition nrows (sh : list nat) : nat := numel (lead sh).

Fixpoint chunks (n cnt : nat) (d : list float32) : list (list float32) :=
  match cnt with
  | O => []
  | S c => firstn n d :: chunks n c (skipn n d)
  end.

(** The last-dimension slices of a tensor. *)
Definition rows (t : Tensor) : list (list float32) :=
  chunks (last_dim (shape t)) (nrows (shape t)) (data t).

(** Operations that raise (a shape error) return [None]. *)
Notation "x <- c1 ;; c2" :=
  (match c1 with Some x => c2 | None => None end)
    (at level 61, c1 at next level, right associativity).

(** Elementwise operations. *)
Definition tmap (f : float32 -> float32) (t : Tensor) : Tensor :=
  mkTensor (shape t) (map f (data t)).

Definition zip_with (f : float32 -> float32 -> float32)
  (u v : list float32) : list float32 :=
  map (fun p => f (fst p) (snd p)) (combine u v).

(** Binary elementwise operation on two tensors of the same shape (the
    only case the code needs; no broadcasting between them). *)
Definition tzip (f : float32 -> float32 -> float32)
  (a b : Tensor) : option Tensor :=
  if list_eq_dec Nat.eq_dec (shape a) (shape b)
  then Some (mkTensor (shape a) (zip_with f (data a) (data b)))
  else None.

Definition tadd : Tensor -> Tensor -> option Tensor := tzip add.
Definition tsub : Tensor -> Tensor -> option Tensor := tzip sub.

(** [x.abs()], [x.clamp(min=lo)], [x.clamp(lo, hi)]. *)
Definition tabs : Tensor -> Tensor := tmap abs.
Definition tclamp_min (t : Tensor) (lo : float32) : Tensor :=
  tmap (fun v => clamp_min v lo) t.
Definition tclamp (t : Tensor) (lo hi : float32) : Tensor :=
  tmap (fun v => clamp v lo hi) t.

(** [c / t] for a Python scalar [c]: [Tensor.__rtruediv__] evaluates it
    as [t.reciprocal() * c]. *)
Definition scalar_div (c : float32) (t : Tensor) : Tensor :=
  tmap (rdiv c) t.

(** Shape after a reduction of the last dimension with [keepdim=True]. *)
Definition keepdim_shape (sh : list nat) : list nat :=
  match sh with
  | [] => []
  | _ => lead sh ++ [1]
  end.

(** Maximum of a non-empty slice. *)
Definition max_list (r : list float32) : float32 :=
  match r with
  | [] => S754_infinity true
  | v :: r' => fold_left fmax r' v
  end.

(** [x.max(dim=-1, keepdim=True).values]: raises on an empty last
    dimension. *)
Definition max_lastdim (t : Tensor) : option Tensor :=
  if last_dim (shape t) =? 0 then None
  else Some (mkTensor (keepdim_shape (shape t)) (map max_list (rows t))).

(** [x op s] where [s] holds one value per last-dimension slice of [x]
    (shape [lead ++ [1]]): the value is broadcast along the slice. *)
Definition bcast_rows (f : float32 -> float32 -> float32)
  (x s : Tensor) : Tensor :=
  mkTensor (shape x)
    (concat (map (fun p => map (fun v => f v (snd p)) (fst p))
                 (combine (rows x) (data s)))).

(** [x op c] for a 0-dim tensor or scalar [c]. *)
Definition tscalar (f : float32 -> float32 -> float32)
  (x : Tensor) (c : float32) : Tensor :=
  tmap (fun v => f v c) x.

(** [x.sum()] and [x.mean()] over all elements.  The library fixes
    neither the order nor the grouping of the additions of a reduction
    (a vectorized kernel keeps several accumulators); [sum] is the
    reduction in index order from a zero accumulator, the mean is the
    sum divided by the number of elements. *)
Definition sum (l : list float32) : float32 := fold_left add l pzero.
Definition tmean (t : Tensor) : float32 :=
  div (sum (data t)) (of_nat (numel (shape t))).

(** [s] is a floating-point sum of the elements of [l]: the rounded
    additions are done in some order and grouping, from accumulators
    that begin at zero or at an element.  Every reduction order of the
    library yields such a sum. *)
Inductive sums_to : list float32 -> float32 -> Prop :=
| sums_nil : sums_to [] pzero
| sums_one (v : float32) : sums_to [v] v
| sums_app (l1 l2 : list float32) (a b : float32) :
    sums_to l1 a -> sums_to l2 b -> sums_to (l1 ++ l2) (add a b)
| sums_perm (l l' : list float32) (a : float32) :
    Permutation l l' -> sums_to l a -> sums_to l' a.

(** Slice [r] of a tensor along its last dimension. *)
Definition row (t : Tensor) (r : nat) : list float32 := nth r (rows t) [].

(** Two tensors of one shape that hold the same values in the slices
    selected by [I]. *)
Definition agree_on (I : nat -> Prop) (x x' : Tensor) : Prop :=
  shape x = shape x' /\ wf x /\ wf x' /\
  forall r, I r -> r < nrows (shape x) -> row x r = row x' r.

(** The slices of a [[B; T; E]] tensor at sequence position [t]: slice
    [b * T + t] for every [b]. *)
Definition column (T t : nat) (r : nat) : Prop := r mod T = t.

(* ================================================================== *)
(** * bitLinear.py: straight-through estimators *)
(* ================================================================== *)

(** The autograd context passed to [forward] and [backward]; neither
    primitive saves anything in it. *)
Record Ctx : Type := mkCtx { saved_tensors : list Tensor }.

Module RoundSTE.
Definition forward (ctx : Ctx) (x : Tensor) : Tensor := tmap round x.
Definition backward (ctx : Ctx) (grad_output : Tensor) : Tensor :=
  grad_output.
Definition apply (x : Tensor) : Tensor := forward (mkCtx []) x.
End RoundSTE.

Module SignSTE.
Definition forward (ctx : Ctx) (x : Tensor) : Tensor := tmap sign x.
Definition backward (ctx : Ctx) (grad_output : Tensor) : Tensor :=
  grad_output.
Definition apply (x : Tensor) : Tensor := forward (mkCtx []) x.
End SignSTE.

(** [r] is the integer nearest to the float [x] (infinities and NaN
    are kept): for [x = m * 2^e] with fractional bits, [r] is the float
    of an integer [n] at distance at most one half from [x]. *)
Definition nearest_integer (x r : float32) : Prop :=
  match x with
  | S754_finite s m e =>
      ((0 <= e)%Z /\ r = x) \/
      ((e < 0)%Z /\
       exists n : Z, r = of_int s n /\ (0 <= n)%Z /\
         (2 * Z.abs (n * 2 ^ (- e) - Zpos m) <= 2 ^ (- e))%Z)
  | _ => r = x
  end.

(** [r] is the sign of [x]: [+1] above zero, [-1] below, [0] otherwise
    (zeros and NaN). *)
Definition is_sign_of (x r : float32) : Prop :=
  if ltb pzero x then r = of_Z 1
  else if ltb x pzero then r = of_Z (-1)
  else r = pzero.

(* ================================================================== *)
(** * bitLinear.py: quantization functions *)
(* ================================================================== *)

Definition activation_quant (x : Tensor) : option Tensor :=
  m <- max_lastdim (tabs x) ;;
  let scale := scalar_div (of_Z 127) (tclamp_min m eps) in
  let x_scaled := bcast_rows mul x scale in
  let x_quant :=
    bcast_rows div
      (tclamp (RoundSTE.apply x_scaled) (of_Z (-128)) (of_Z 127)) scale in
  Some x_quant.

Definition weight_quant (w : Tensor) : Tensor :=
  let scale := rdiv (of_Z 1) (clamp_min (tmean (tabs w)) lit_1e_5) in
  let w_scaled := tscalar mul w scale in
  let w_quant :=
    tscalar div (tclamp (RoundSTE.apply w_scaled) (of_Z (-1)) (of_Z 1)) scale in
  w_quant.

(** ** The same quantizers, one row at a time, as the specification
    words them *)

(** [scale = 127 / max(|row|, e)] for a guard value [e], the quotient
    evaluated as the code does: the reciprocal times [127]. *)
Definition row_scale (e : float32) (row : list float32) : float32 :=
  rdiv (of_Z 127) (clamp_min (max_list (map abs row)) e).

(** [round(v * scale)] clamped to [[lo, hi]], divided by [scale]. *)
Definition quant_value (lo hi : Z) (scale v : float32) : float32 :=
  div (clamp (round (mul v scale)) (of_Z lo) (of_Z hi)) scale.

(** The quantized row; an empty row has no maximum. *)
Definition spec_activation_quant_row (e : float32) (row : list float32)
  : option (list float32) :=
  match row with
  | [] => None
  | _ => Some (map (quant_value (-128) 127 (row_scale e row)) row)
  end.

(** [scale = 1 / max(mean(|w|), 1e-5)] over the whole tensor. *)
Definition weight_scale (w : Tensor) : float32 :=
  rdiv (of_Z 1) (clamp_min (tmean (tabs w)) lit_1e_5).

(** The levels [k / scale] for the integers [lo <= k <= hi]. *)
Definition levels (lo hi : Z) (scale : float32) : list float32 :=
  map (fun k => div (of_Z k) scale)
      (map (fun i => (lo + Z.of_nat i)%Z) (seq 0 (Z.to_nat (hi - lo + 1)))).

(** A value lies on a grid when it compares equal to one of its
    levels. *)
Definition on_grid (g : list float32) (v : float32) : Prop :=
  Exists (fun l => eqb v l = true) g.

(** Two floats are the same value when they compare equal (the two
    zeros do) or are both NaN. *)
Definition same_value (v l : float32) : Prop :=
  eqb v l = true \/ (v = S754_nan /\ l = S754_nan).

(** The elements of [d] take at most [n] distinct values. *)
Definition at_most_values (n : nat) (d : list float32) : Prop :=
  exists g : list float32,
    length g <= n /\ Forall (fun v => Exists (same_value v) g) d.

(** The values a rounded and clamped float can take: an integer
    between the bounds, a negative zero, or NaN. *)
Definition is_code (a b : Z) (c : float32) : Prop :=
  c = S754_nan \/ c = S754_zero true \/
  exists k : Z, (a <= k <= b)%Z /\ c = of_Z k.

(** The sign bit of a float ([torch.signbit]); NaN carries none here. *)
Definition signbit (x : float32) : bool :=
  match x with
  | S754_zero s => s
  | S754_infinity s => s
  | S754_finite s _ _ => s
  | S754_nan => false
  end.

(** [torch.isfinite]: neither NaN nor an infinity. *)
Definition is_finite (x : float32) : bool :=
  match x with
  | S754_zero _ => true
  | S754_finite _ _ _ => true
  | _ => false
  end.

(** A quantized value keeps the sign of the value it comes from. *)
Definition keeps_sign (v q : float32) : Prop :=
  q = S754_nan \/ signbit q = signbit v.

(* ================================================================== *)
(** * torch.nn.LayerNorm and torch.nn.functional.linear *)
(* ================================================================== *)

Definition ones (sh : list nat) : Tensor :=
  mkTensor sh (repeat (of_Z 1) (numel sh)).
Definition zeros (sh : list nat) : Tensor :=
  mkTensor sh (repeat pzero (numel sh)).

(** [nn.LayerNorm] over the last dimension.  The affine weight and bias
    are parameters of the module exactly when [elementwise_affine]
    holds, which is the default of the constructor. *)
Record LayerNorm : Type := mkLayerNorm {
  normalized_shape : nat;
  ln_eps : float32;
  elementwise_affine : bool;
  ln_weight : option Tensor;
  ln_bias : option Tensor
}.

Definition LayerNorm_init (n : nat) (affine : bool) : LayerNorm :=
  {| normalized_shape := n;
     ln_eps := lit_1e_5;
     elementwise_affine := affine;
     ln_weight := if affine then Some (ones [n]) else None;
     ln_bias := if affine then Some (zeros [n]) else None |}.

(** The learnable parameters of the module ([module.parameters()]). *)
Definition option_list (o : option Tensor) : list Tensor :=
  match o with Some t => [t] | None => [] end.

Definition LayerNorm_parameters (self : LayerNorm) : list Tensor :=
  option_list (ln_weight self) ++ option_list (ln_bias self).

(** [(x - E[x]) / sqrt(Var[x] + eps)] on one slice, with the biased
    variance; the kernel multiplies by the reciprocal
    [rstd = 1 / sqrt(Var[x] + eps)] of the standard deviation. *)
Definition layer_norm_row (e : float32) (r : list float32) : list float32 :=
  let n := of_nat (length r) in
  let mu := div (sum r) n in
  let var := div (sum (map (fun v => mul (sub v mu) (sub v mu)) r)) n in
  let rstd := div (of_Z 1) (sqrt (add var e)) in
  map (fun v => mul (sub v mu) rstd) r.

Definition affine_row (w b : option Tensor) (r : list float32)
  : list float32 :=
  let r1 := match w with
            | Some wt => zip_with mul r (data wt)
            | None => r
            end in
  match b with
  | Some bt => zip_with add r1 (data bt)
  | None => r1
  end.

(** Raises unless the last dimension is [normalized_shape]. *)
Definition LayerNorm_forward (self : LayerNorm) (x : Tensor)
  : option Tensor :=
  match shape x with
  | [] => None
  | _ =>
      if last_dim (shape x) =? normalized_shape self
      then Some (mkTensor (shape x)
                   (concat
                      (map (fun r => affine_row (ln_weight self) (ln_bias self)
                                       (layer_norm_row (ln_eps self) r))
                           (rows x))))
      else None
  end.

(** The affine parameters of a normalization hold one value per
    normalized element. *)
Definition LayerNorm_ok (ln : LayerNorm) : Prop :=
  (forall w, ln_weight ln = Some w -> length (data w) = normalized_shape ln) /\
  (forall b, ln_bias ln = Some b -> length (data b) = normalized_shape ln).

(** Inner product, accumulated in index order from a zero
    accumulator, every product rounded. *)
Definition dot (u v : list float32) : float32 := sum (zip_with mul u v).

(** The product of two finite floats before rounding, as a fused
    multiply-add keeps it. *)
Definition exact_mul (u v : float32) : float32 :=
  match u, v with
  | S754_finite su mu eu, S754_finite sv mv ev =>
      S754_finite (xorb su sv) (mu * mv) (eu + ev)
  | _, _ => mul u v
  end.

(** [fma(u, v, a)]: [u * v + a] with one rounding. *)
Definition fma (u v a : float32) : float32 := add (exact_mul u v) a.

(** [r] is a floating-point evaluation of [c + sum of u * v] over the
    pairs [(u, v)] of [l]: every product is rounded and added to an
    accumulator or fused into it, the accumulators begin at [c], at
    zero or at a product, and they are added in some order.  The
    inner-product kernels of the library differ in the order of the
    additions and in their use of the fused multiply-add; each of them
    yields such a value. *)
Inductive accumulates : float32 -> list (float32 * float32) -> float32
                        -> Prop :=
| acc_start (c : float32) : accumulates c [] c
| acc_product (u v : float32) : accumulates pzero [(u, v)] (mul u v)
| acc_mul_add (c : float32) (l : list (float32 * float32))
    (a u v : float32) :
    accumulates c l a -> accumulates c ((u, v) :: l) (add a (mul u v))
| acc_fused (c : float32) (l : list (float32 * float32)) (a u v : float32) :
    accumulates c l a -> accumulates c ((u, v) :: l) (fma u v a)
| acc_join (c : float32) (l1 l2 : list (float32 * float32))
    (a b : float32) :
    accumulates c l1 a -> accumulates pzero l2 b ->
    accumulates c (l1 ++ l2) (add a b)
| acc_join_init (c : float32) (l1 l2 : list (float32 * float32))
    (a b : float32) :
    accumulates pzero l1 a -> accumulates c l2 b ->
    accumulates c (l1 ++ l2) (add a b)
| acc_perm (c : float32) (l l' : list (float32 * float32)) (a : float32) :
    Permutation l l' -> accumulates c l a -> accumulates c l' a.

(** One output slice of [x @ W^T + b]: the inner product with every
    row of [W], plus the bias. *)
Definition linear_row (W : list (list float32)) (b : option Tensor)
  (r : list float32) : list float32 :=
  match b with
  | None => map (dot r) W
  | Some bt => zip_with add (map (dot r) W) (data bt)
  end.

Definition bias_fits (b : option Tensor) (out : nat) : bool :=
  match b with
  | None => true
  | Some bt => if list_eq_dec Nat.eq_dec (shape bt) [out] then true else false
  end.

(** [F.linear(x, W, b)] for a 2-dimensional weight [[out; inn]]
    (every weight here is): raises unless the last dimension of [x] is
    [inn]; keeps the leading dimensions of [x]. *)
Definition F_linear (x W : Tensor) (b : option Tensor) : option Tensor :=
  match shape W, shape x with
  | [out; inn], _ :: _ =>
      if (last_dim (shape x) =? inn) && bias_fits b out
      then Some (mkTensor (lead (shape x) ++ [out])
                   (concat (map (linear_row (rows W) b) (rows x))))
      else None
  | _, _ => None
  end.

(* ================================================================== *)
(** * bitLinear.py: BitLinear *)
(* ================================================================== *)

(** [BitLinear(nn.Linear)]: the fields of [nn.Linear] and the
    normalization the constructor adds. *)
Record BitLinear : Type := mkBitLinear {
  in_features : nat;
  out_features : nat;
  weight : Tensor;
  bias : option Tensor;
  rms_norm : LayerNorm
}.

(** [t.detach()]: the same values, cut from the gradient graph. *)
Definition detach (t : Tensor) : Tensor := t.

Definition BitLinear_forward (self : BitLinear) (x : Tensor)
  : option Tensor :=
  x_norm <- LayerNorm_forward (rms_norm self) x ;;
  aq <- activation_quant x_norm ;;
  dx <- tsub aq x_norm ;;
  x_quant <- tadd x_norm (detach dx) ;;
  dw <- tsub (weight_quant (weight self)) (weight self) ;;
  w_quant <- tadd (weight self) (detach dw) ;;
  F_linear x_quant w_quant (bias self).

(** What the constructor establishes: [nn.Linear.__init__] allocates
    the weight as [[out_features; in_features]] and the bias as
    [[out_features]]; [rms_norm] is a [LayerNorm(in_features)] without
    affine parameters. *)
Record BitLinear_ok (self : BitLinear) : Prop := mkBitLinear_ok {
  ok_weight_shape : shape (weight self) = [out_features self; in_features self];
  ok_weight_wf : wf (weight self);
  ok_bias : forall b, bias self = Some b ->
            shape b = [out_features self] /\ wf b;
  ok_norm : rms_norm self = LayerNorm_init (in_features self) false
}.

(** ** The forward pass as the specification words it *)

(** [a + stopgrad(q - a)], elementwise. *)
Definition ste_delta (a q : list float32) : list float32 :=
  zip_with add a (zip_with sub q a).

(** [x_q]: the rows of the normalized input, each replaced by
    [x_norm + stopgrad(activation_quant(x_norm) - x_norm)]. *)
Definition spec_x_q (x_norm : list (list float32)) : list (list float32) :=
  map (fun r => ste_delta r (map (quant_value (-128) 127 (row_scale eps r)) r))
      x_norm.

(** [w_q = w + stopgrad(weight_quant(w) - w)], row by row. *)
Definition spec_w_q (w : Tensor) : list (list float32) :=
  map (fun r => ste_delta r (map (quant_value (-1) 1 (weight_scale w)) r))
      (rows w).

(** [w_q] for a given scale of the weight quantization. *)
Definition spec_w_q_at (scale : float32) (w : Tensor)
  : list (list float32) :=
  map (fun r => ste_delta r (map (quant_value (-1) 1 scale) r)) (rows w).

(** Entry [j] of the bias, the initial value of output column [j];
    zero for a layer without bias. *)
Definition bias_entry (b : option Tensor) (j : nat) : float32 :=
  match b with
  | Some bt => nth j (data bt) pzero
  | None => pzero
  end.

(** [x_q @ w_q^T + bias]: entry [j] of an output row is the inner
    product of the input row with row [j] of [w_q], plus [bias[j]]. *)
Definition spec_linear_row (wq : list (list float32)) (b : option Tensor)
  (r : list float32) : list float32 :=
  map (fun j => let d := dot r (nth j wq []) in
                match b with
                | None => d
                | Some bt => add d (nth j (data bt) pzero)
                end)
      (seq 0 (length wq)).

Definition spec_BitLinear_rows (self : BitLinear) (x : Tensor)
  : list (list float32) :=
  let x_norm := map (layer_norm_row lit_1e_5) (rows x) in
  map (spec_linear_row (spec_w_q (weight self)) (bias self))
      (spec_x_q x_norm).

(* ================================================================== *)
(** * The numeric backend: random generator and transcendental kernels *)
(* ================================================================== *)

(** What the library supplies and the repository only calls: the
    state of the random generator with its uniform and normal draws,
    and the kernels of GELU and of the exponential. *)
Class Backend : Type := mkBackend {
  rng : Type;
  next_uniform : rng -> float32 * rng;
  next_normal : rng -> float32 * rng;
  gelu : float32 -> float32;
  fexp : float32 -> float32
}.

Section Model.

Context {B : Backend}.

(** Computations that read and advance the generator and may raise. *)
Definition M (A : Type) : Type := rng -> option (A * rng).

Definition ret {A : Type} (a : A) : M A := fun s => Some (a, s).

Definition bind {A C : Type} (m : M A) (k : A -> M C) : M C :=
  fun s => match m s with
           | Some (a, s') => k a s'
           | None => None
           end.

Definition fail {A : Type} : M A := fun _ => None.

(** A computation that raises or returns without touching the
    generator. *)
Definition lift {A : Type} (o : option A) : M A :=
  fun s => match o with Some a => Some (a, s) | None => None end.

Notation "'do' x <~ c1 ; c2" := (bind c1 (fun x => c2))
  (at level 62, x name, c1 at next level, right associativity).

(** [n] successive draws. *)
Fixpoint draws (f : rng -> float32 * rng) (n : nat) (s : rng)
  : list float32 * rng :=
  match n with
  | O => ([], s)
  | S n' =>
      let (v, s1) := f s in
      let (vs, s2) := draws f n' s1 in
      (v :: vs, s2)
  end.

(** [torch.randn(sh)]. *)
Definition randn (sh : list nat) : M Tensor :=
  fun s => let (d, s') := draws next_normal (numel sh) s in
           Some (mkTensor sh d, s').

(** [torch.empty(sh).uniform_(-bound, bound)]. *)
Definition uniform_sym (sh : list nat) (bound : float32) : M Tensor :=
  fun s =>
    let (d, s') := draws next_uniform (numel sh) s in
    Some (mkTensor sh
            (map (fun u => sub (mul (mul (of_Z 2) bound) u) bound) d), s').

(** [BitLinear(in_features, out_features, bias)]: the initialization of
    [nn.Linear] (uniform within [1 / sqrt(in_features)], within [0]
    for a layer without inputs), then the normalization without affine
    parameters. *)
Definition BitLinear_init (in_f out_f : nat) (with_bias : bool)
  : M BitLinear :=
  let bound := if in_f =? 0 then pzero
               else div (of_Z 1) (sqrt (of_nat in_f)) in
  do w <~ uniform_sym [out_f; in_f] bound ;
  do b <~ (if with_bias
           then do t <~ uniform_sym [out_f] bound ; ret (Some t)
           else ret None) ;
  ret {| in_features := in_f;
         out_features := out_f;
         weight := w;
         bias := b;
         rms_norm := LayerNorm_init in_f false |}.

(* ================================================================== *)
(** * embeddings.py: InputEmbedding *)
(* ================================================================== *)

Definition tab (n : nat) (f : nat -> float32) : list float32 :=
  map f (seq 0 n).

(** Element at a flat (row-major) offset. *)
Definition get (t : Tensor) (i : nat) : float32 := nth i (data t) pzero.

Definition get3 (t : Tensor) (b i k : nat) : float32 :=
  match shape t with
  | [_; T; L] => get t ((b * T + i) * L + k)
  | _ => pzero
  end.

Definition get4 (t : Tensor) (b c i j : nat) : float32 :=
  match shape t with
  | [_; C; H; W] => get t (((b * C + c) * H + i) * W + j)
  | _ => pzero
  end.

(** [einops.rearrange(x, 'b c (h h1) (w w1) -> b (h w) (h1 w1 c)',
    h1=p, w1=p)]: raises unless [x] has four dimensions of which the
    last two are multiples of a non-zero [p]. *)
Definition rearrange_patches (x : Tensor) (p : nat) : option Tensor :=
  match shape x with
  | [b; c; H; W] =>
      if p =? 0 then None
      else if (H mod p =? 0) && (W mod p =? 0) then
        let h := H / p in
        let w := W / p in
        let K := p * p * c in
        Some (mkTensor [b; h * w; K]
                (tab (b * (h * w) * K)
                   (fun i =>
                      let k := i mod K in
                      let n := (i / K) mod (h * w) in
                      let bi := i / (K * (h * w)) in
                      let ci := k mod c in
                      let w1 := (k / c) mod p in
                      let h1 := k / (c * p) in
                      get4 x bi ci (n / w * p + h1) (n mod w * p + w1))))
      else None
  | _ => None
  end.

(** [t.expand(b, m, -1)] for a parameter [t] of shape [[1; 1; l]]. *)
Definition expand3 (t : Tensor) (b m : nat) : option Tensor :=
  match shape t with
  | [1; 1; l] =>
      Some (mkTensor [b; m; l] (tab (b * m * l) (fun i => get t (i mod l))))
  | _ => None
  end.

(** [torch.cat([u, v], dim=1)] of two 3-dimensional tensors. *)
Definition cat_dim1 (u v : Tensor) : option Tensor :=
  match shape u, shape v with
  | [b; m1; l], [b'; m2; l'] =>
      if (b =? b') && (l =? l') then
        Some (mkTensor [b; m1 + m2; l]
                (tab (b * (m1 + m2) * l)
                   (fun i =>
                      let k := i mod l in
                      let j := (i / l) mod (m1 + m2) in
                      let bi := i / (l * (m1 + m2)) in
                      if j <? m1 then get3 u bi j k
                      else get3 v bi (j - m1) k)))
      else None
  | _, _ => None
  end.

(** The module; [device] only places the tensors and is left out. *)
Record InputEmbedding : Type := mkInputEmbedding {
  patch_size : nat;
  n_channels : nat;
  emb_latent_size : nat;
  input_size : nat;
  bitlinearProjection : BitLinear;
  class_token : Tensor;
  pos_embedding : Tensor
}.

Definition InputEmbedding_init (patch_size n_channels latent_size : nat)
  : M InputEmbedding :=
  let input_size := patch_size * patch_size * n_channels in
  do proj <~ BitLinear_init input_size latent_size true ;
  do ct <~ randn [1; 1; latent_size] ;
  do pe <~ randn [1; 1; latent_size] ;
  ret {| patch_size := patch_size;
         n_channels := n_channels;
         emb_latent_size := latent_size;
         input_size := input_size;
         bitlinearProjection := proj;
         class_token := ct;
         pos_embedding := pe |}.

(** The positional term added by [forward] for a batch of [b] images
    of [n] patches: [self.pos_embedding.expand(b, n + 1, -1)]. *)
Definition pos_embed (self : InputEmbedding) (b n : nat) : option Tensor :=
  expand3 (pos_embedding self) b (n + 1).

Definition InputEmbedding_forward (self : InputEmbedding) (x : Tensor)
  : option Tensor :=
  patches <- rearrange_patches x (patch_size self) ;;
  proj <- BitLinear_forward (bitlinearProjection self) patches ;;
  match shape proj with
  | [b; n; _] =>
      ct <- expand3 (class_token self) b 1 ;;
      cat <- cat_dim1 ct proj ;;
      pe <- pos_embed self b n ;;
      tadd cat pe
  | _ => None
  end.

(** What the constructor establishes. *)
Record InputEmbedding_ok (self : InputEmbedding) : Prop :=
  mkInputEmbedding_ok {
  ok_proj : BitLinear_ok (bitlinearProjection self);
  ok_proj_in : in_features (bitlinearProjection self)
               = patch_size self * patch_size self * n_channels self;
  ok_proj_out : out_features (bitlinearProjection self)
                = emb_latent_size self;
  ok_class_token : shape (class_token self) = [1; 1; emb_latent_size self];
  ok_pos_embedding : shape (pos_embedding self) = [1; 1; emb_latent_size self]
}.

(* ================================================================== *)
(** * torch.nn: Dropout, Sequential, MultiheadAttention *)
(* ================================================================== *)

(** The noise of [F.dropout(x, p, training=True)]: a Bernoulli draw of
    probability [1 - p] for every element, divided by [1 - p]. *)
Fixpoint dropout_noise (p : float32) (n : nat) (s : rng)
  : list float32 * rng :=
  match n with
  | O => ([], s)
  | S n' =>
      let (u, s1) := next_uniform s in
      let keep := if ltb u (sub (of_Z 1) p) then of_Z 1 else pzero in
      let (r, s2) := dropout_noise p n' s1 in
      (div keep (sub (of_Z 1) p) :: r, s2)
  end.

(** [nn.Dropout(p)]: the identity in evaluation mode, for [p = 0] and
    on an empty tensor, without a draw; the input times zero for
    [p = 1]; the input times the noise otherwise. *)
Definition Dropout_forward (p : float32) (training : bool) (x : Tensor)
  : M Tensor :=
  if training
  then if eqb p pzero || (numel (shape x) =? 0) then ret x
       else if eqb p (of_Z 1) then ret (tmap (fun v => mul v pzero) x)
       else fun s =>
         let (noise, s') := dropout_noise p (numel (shape x)) s in
         Some (mkTensor (shape x) (zip_with mul (data x) noise), s')
  else ret x.

(** A dropout rate that [nn.Dropout] accepts: the constructor raises
    when [p < 0 or p > 1]. *)
Definition rate_ok (p : float32) : bool :=
  negb (ltb p pzero || ltb (of_Z 1) p).

(** [nn.Dropout(p)] keeps the rate. *)
Definition Dropout_init (p : float32) : M float32 :=
  if rate_ok p then ret p else fail.

(** The layers an [nn.Sequential] of the repository holds. *)
Inductive Layer : Type :=
| L_LayerNorm (ln : LayerNorm)
| L_BitLinear (l : BitLinear)
| L_GELU
| L_Dropout (p : float32).

Definition Layer_forward (training : bool) (l : Layer) (x : Tensor)
  : M Tensor :=
  match l with
  | L_LayerNorm ln => lift (LayerNorm_forward ln x)
  | L_BitLinear bl => lift (BitLinear_forward bl x)
  | L_GELU => ret (tmap gelu x)
  | L_Dropout p => Dropout_forward p training x
  end.

Fixpoint Sequential_forward (training : bool) (ls : list Layer) (x : Tensor)
  : M Tensor :=
  match ls with
  | [] => ret x
  | l :: ls' =>
      do y <~ Layer_forward training l x ;
      Sequential_forward training ls' y
  end.

(** The normalizations of a chain hold well-formed parameters. *)
Definition Layer_ok (l : Layer) : Prop :=
  match l with
  | L_LayerNorm ln => LayerNorm_ok ln
  | _ => True
  end.

(** [nn.MultiheadAttention(embed_dim, num_heads, dropout)], with
    [batch_first=False]: its input is read as
    [[sequence; batch; embed_dim]]. *)
Record MultiheadAttention : Type := mkMultiheadAttention {
  embed_dim : nat;
  mha_num_heads : nat;
  mha_dropout : float32;
  in_proj_weight : Tensor;
  in_proj_bias : Tensor;
  out_proj_weight : Tensor;
  out_proj_bias : Tensor
}.

(** The constructor raises unless [embed_dim] and [num_heads] are
    positive, and asserts that the heads divide the embedding. *)
Definition MultiheadAttention_init (embed_dim num_heads : nat)
  (dropout : float32) : M MultiheadAttention :=
  if (embed_dim =? 0) || (num_heads =? 0)
     || negb (embed_dim mod num_heads =? 0) then fail
  else
    let xavier := sqrt (div (of_Z 6) (of_nat (embed_dim + 3 * embed_dim))) in
    do ipw <~ uniform_sym [3 * embed_dim; embed_dim] xavier ;
    do opw <~ uniform_sym [embed_dim; embed_dim]
                (div (of_Z 1) (sqrt (of_nat embed_dim))) ;
    ret {| embed_dim := embed_dim;
           mha_num_heads := num_heads;
           mha_dropout := dropout;
           in_proj_weight := ipw;
           in_proj_bias := zeros [3 * embed_dim];
           out_proj_weight := opw;
           out_proj_bias := zeros [embed_dim] |}.

(** [softmax] of one slice. *)
Definition softmax_row (r : list float32) : list float32 :=
  let m := max_list r in
  let es := map (fun v => fexp (sub v m)) r in
  let z := sum es in
  map (fun e => div e z) es.

(** Self-attention [self(x, x, x)[0]] on a batched input
    [[L; N; E]]: the input projection to queries, keys and values, per
    batch entry and head the softmax of the scaled inner products (with
    dropout when training), the weighted sum of the values, and the
    output projection. *)
Definition attention_batched (self : MultiheadAttention)
  (training : bool) (x : Tensor) (L N E : nat) : M Tensor :=
  if E =? embed_dim self then
    do qkv <~ lift (F_linear x (in_proj_weight self)
                      (Some (in_proj_bias self))) ;
    let h := mha_num_heads self in
    let hd := E / h in
    let scaling := sqrt (div (of_Z 1) (of_nat hd)) in
    let q l n j := get qkv ((l * N + n) * (3 * E) + j) in
    let k l n j := get qkv ((l * N + n) * (3 * E) + E + j) in
    let v l n j := get qkv ((l * N + n) * (3 * E) + 2 * E + j) in
    let scores :=
      mkTensor [N * h; L; L]
        (tab (N * h * L * L)
           (fun i =>
              let bh := i / (L * L) in
              let l := (i / L) mod L in
              let l2 := i mod L in
              let n := bh / h in
              let hh := bh mod h in
              sum (map (fun c => mul (mul (q l n (hh * hd + c)) scaling)
                                     (k l2 n (hh * hd + c)))
                       (seq 0 hd)))) in
    let weights :=
      mkTensor [N * h; L; L] (concat (map softmax_row (rows scores))) in
    do weights' <~ Dropout_forward (mha_dropout self) training weights ;
    let context :=
      mkTensor [L; N; E]
        (tab (L * N * E)
           (fun i =>
              let l := i / (N * E) in
              let n := (i / E) mod N in
              let j := i mod E in
              let hh := j / hd in
              sum (map (fun l2 => mul (get3 weights' (n * h + hh) l l2)
                                      (v l2 n j))
                       (seq 0 L)))) in
    lift (F_linear context (out_proj_weight self)
            (Some (out_proj_bias self)))
  else fail.

(** The module reads a 3-dimensional input as
    [[sequence; batch; embed_dim]]; a 2-dimensional input is one
    unbatched sequence, handled as a batch of one ([unsqueeze(1)], then
    [squeeze(1)] on the result); any other input raises. *)
Definition MultiheadAttention_forward (self : MultiheadAttention)
  (training : bool) (x : Tensor) : M Tensor :=
  match shape x with
  | [L; N; E] => attention_batched self training x L N E
  | [L; E] =>
      do y <~ attention_batched self training
                (mkTensor [L; 1; E] (data x)) L 1 E ;
      ret (mkTensor [L; E] (data y))
  | _ => fail
  end.

Record MultiheadAttention_ok (self : MultiheadAttention) : Prop :=
  mkMultiheadAttention_ok {
  ok_in_proj_weight :
    shape (in_proj_weight self) = [3 * embed_dim self; embed_dim self];
  ok_in_proj_bias : shape (in_proj_bias self) = [3 * embed_dim self];
  ok_out_proj_weight :
    shape (out_proj_weight self) = [embed_dim self; embed_dim self];
  ok_out_proj_bias : shape (out_proj_bias self) = [embed_dim self]
}.

(** The intermediate tensors of [MultiheadAttention_forward], by name:
    the scaled inner products of queries and keys, their softmax, and
    the weighted sums of the values. *)
Definition attention_scores (qkv : Tensor) (L N E h : nat) : Tensor :=
  let hd := E / h in
  let scaling := sqrt (div (of_Z 1) (of_nat hd)) in
  let q l n j := get qkv ((l * N + n) * (3 * E) + j) in
  let k l n j := get qkv ((l * N + n) * (3 * E) + E + j) in
  mkTensor [N * h; L; L]
    (tab (N * h * L * L)
       (fun i =>
          let bh := i / (L * L) in
          let l := (i / L) mod L in
          let l2 := i mod L in
          let n := bh / h in
          let hh := bh mod h in
          sum (map (fun c => mul (mul (q l n (hh * hd + c)) scaling)
                                 (k l2 n (hh * hd + c)))
                   (seq 0 hd)))).

Definition attention_weights (scores : Tensor) : Tensor :=
  mkTensor (shape scores) (concat (map softmax_row (rows scores))).

Definition attention_context (weights' qkv : Tensor) (L N E h : nat)
  : Tensor :=
  let hd := E / h in
  let v l n j := get qkv ((l * N + n) * (3 * E) + 2 * E + j) in
  mkTensor [L; N; E]
    (tab (L * N * E)
       (fun i =>
          let l := i / (N * E) in
          let n := (i / E) mod N in
          let j := i mod E in
          let hh := j / hd in
          sum (map (fun l2 => mul (get3 weights' (n * h + hh) l l2)
                                  (v l2 n j))
                   (seq 0 L)))).

(* ================================================================== *)
(** * encoder.py: EncoderBlock *)
(* ================================================================== *)

Record EncoderBlock : Type := mkEncoderBlock {
  enc_latent_size : nat;
  enc_num_heads : nat;
  enc_dropout : float32;
  norm : LayerNorm;
  multihead : MultiheadAttention;
  enc_MLP : list Layer
}.

(** [nn.LayerNorm(latent_size)] is built with the default
    [elementwise_affine=True]; the attention module and the two
    [nn.Dropout] layers check their arguments. *)
Definition EncoderBlock_init (latent_size num_heads : nat)
  (dropout : float32) : M EncoderBlock :=
  do mha <~ MultiheadAttention_init latent_size num_heads dropout ;
  do fc1 <~ BitLinear_init latent_size (latent_size * 4) true ;
  do p1 <~ Dropout_init dropout ;
  do fc2 <~ BitLinear_init (latent_size * 4) latent_size true ;
  do p2 <~ Dropout_init dropout ;
  ret {| enc_latent_size := latent_size;
         enc_num_heads := num_heads;
         enc_dropout := dropout;
         norm := LayerNorm_init latent_size true;
         multihead := mha;
         enc_MLP := [L_BitLinear fc1; L_GELU; L_Dropout p1;
                     L_BitLinear fc2; L_Dropout p2] |}.

Definition EncoderBlock_forward (training : bool) (self : EncoderBlock)
  (input_tensor : Tensor) : M Tensor :=
  do normalized_input <~ lift (LayerNorm_forward (norm self) input_tensor) ;
  do attention_output <~
     MultiheadAttention_forward (multihead self) training normalized_input ;
  do residual_attention <~ lift (tadd input_tensor attention_output) ;
  do normalized_residual <~
     lift (LayerNorm_forward (norm self) residual_attention) ;
  do mlp_output <~
     Sequential_forward training (enc_MLP self) normalized_residual ;
  lift (tadd residual_attention mlp_output).


(* ================================================================== *)
(** * visionTransformer.py and train.py: VisionTransformer *)
(* ================================================================== *)

Record VisionTransformer : Type := mkVisionTransformer {
  vit_num_encoders : nat;
  vit_latent_size : nat;
  vit_num_classes : nat;
  vit_dropout : float32;
  input_embedding : InputEmbedding;
  encoder_stack : list EncoderBlock;
  mlp_head : list Layer
}.

Fixpoint replicateM {A : Type} (n : nat) (m : M A) : M (list A) :=
  match n with
  | O => ret []
  | S n' => do a <~ m ; do l <~ replicateM n' m ; ret (a :: l)
  end.

(** [InputEmbedding] and [EncoderBlock] are built from [latent_size]
    alone: their other arguments keep their defaults, a patch size of
    16 on 3 channels, 8 heads and a dropout rate of 0.5. *)
Definition VisionTransformer_init (num_encoders latent_size num_classes : nat)
  (dropout : float32) : M VisionTransformer :=
  do emb <~ InputEmbedding_init 16 3 latent_size ;
  do stack <~ replicateM num_encoders (EncoderBlock_init latent_size 8 half) ;
  do fc1 <~ BitLinear_init latent_size latent_size true ;
  do fc2 <~ BitLinear_init latent_size num_classes true ;
  ret {| vit_num_encoders := num_encoders;
         vit_latent_size := latent_size;
         vit_num_classes := num_classes;
         vit_dropout := dropout;
         input_embedding := emb;
         encoder_stack := stack;
         mlp_head := [L_LayerNorm (LayerNorm_init latent_size true);
                      L_BitLinear fc1; L_GELU; L_BitLinear fc2] |}.

(** [encoder_output[:, 0]]. *)
Definition select_first (t : Tensor) : option Tensor :=
  match shape t with
  | [b; T; l] =>
      if T =? 0 then None
      else Some (mkTensor [b; l]
                   (tab (b * l) (fun i => get3 t (i / l) 0 (i mod l))))
  | _ => None
  end.

Fixpoint encoder_loop (training : bool) (stack : list EncoderBlock)
  (encoder_output : Tensor) : M Tensor :=
  match stack with
  | [] => ret encoder_output
  | encoder_layer :: rest =>
      do out <~ EncoderBlock_forward training encoder_layer encoder_output ;
      encoder_loop training rest out
  end.

Definition VisionTransformer_forward (training : bool)
  (self : VisionTransformer) (input_tensor : Tensor) : M Tensor :=
  do encoder_output <~
     lift (InputEmbedding_forward (input_embedding self) input_tensor) ;
  do encoder_output <~
     encoder_loop training (encoder_stack self) encoder_output ;
  do cls_token_embedding <~ lift (select_first encoder_output) ;
  Sequential_forward training (mlp_head self) cls_token_embedding.

(** The recognized keys of the configuration; [None] is an absent
    key. *)
Record Config : Type := mkConfig {
  cfg_patch_size : option nat;
  cfg_latent_size : option nat;
  cfg_num_encoders : option nat;
  cfg_num_heads : option nat;
  cfg_num_classes : option nat;
  cfg_dropout : option float32
}.

(** [config.get(key, default)]. *)
Definition config_get {A : Type} (v : option A) (default : A) : A :=
  match v with Some a => a | None => default end.

(** The model construction of [train.py]. *)
Definition train_model (config : Config) : M VisionTransformer :=
  VisionTransformer_init
    (config_get (cfg_num_encoders config) 12)
    (config_get (cfg_latent_size config) 768)
    (config_get (cfg_num_classes config) 10)
    half.

(** ** What the constructors establish *)

(** A chain of layers that takes slices of [din] elements to slices of
    [dout] elements. *)
Fixpoint Sequential_ok (ls : list Layer) (din dout : nat) : Prop :=
  match ls with
  | [] => din = dout
  | L_LayerNorm ln :: r =>
      normalized_shape ln = din /\ Sequential_ok r din dout
  | L_BitLinear bl :: r =>
      BitLinear_ok bl /\ in_features bl = din /\ 0 < din /\
      Sequential_ok r (out_features bl) dout
  | L_GELU :: r => Sequential_ok r din dout
  | L_Dropout _ :: r => Sequential_ok r din dout
  end.

Record EncoderBlock_ok (self : EncoderBlock) : Prop := mkEncoderBlock_ok {
  ok_norm_dim : normalized_shape (norm self) = enc_latent_size self;
  ok_multihead : MultiheadAttention_ok (multihead self);
  ok_embed_dim : embed_dim (multihead self) = enc_latent_size self;
  ok_enc_MLP :
    Sequential_ok (enc_MLP self) (enc_latent_size self) (enc_latent_size self)
}.

Record VisionTransformer_ok (self : VisionTransformer) : Prop :=
  mkVisionTransformer_ok {
  ok_embedding : InputEmbedding_ok (input_embedding self);
  ok_patch_size : patch_size (input_embedding self) = 16;
  ok_n_channels : n_channels (input_embedding self) = 3;
  ok_emb_latent : emb_latent_size (input_embedding self) = vit_latent_size self;
  ok_stack :
    Forall (fun b => EncoderBlock_ok b /\
                     enc_latent_size b = vit_latent_size self)
           (encoder_stack self);
  ok_stack_length : length (encoder_stack self) = vit_num_encoders self;
  ok_head :
    Sequential_ok (mlp_head self) (vit_latent_size self) (vit_num_classes self)
}.

(** The parameters of a block hold as many values as their shapes
    announce, and the heads divide the embedding: what the constructor
    establishes and an update of the values keeps. *)
Record EncoderBlock_wf (self : EncoderBlock) : Prop := mkEncoderBlock_wf {
  wf_block : EncoderBlock_ok self;
  wf_norm : LayerNorm_ok (norm self);
  wf_heads : mha_num_heads (multihead self) <> 0;
  wf_head_dim :
    embed_dim (multihead self) mod mha_num_heads (multihead self) = 0;
  wf_in_proj_bias : wf (in_proj_bias (multihead self));
  wf_out_proj_bias : wf (out_proj_bias (multihead self));
  wf_enc_MLP : Forall Layer_ok (enc_MLP self)
}.

Record VisionTransformer_wf (self : VisionTransformer) : Prop :=
  mkVisionTransformer_wf {
  wf_model : VisionTransformer_ok self;
  wf_stack : Forall EncoderBlock_wf (encoder_stack self)
}.

(** A computation that neither reads nor advances the generator. *)
Definition pure_M {A : Type} (m : M A) : Prop :=
  exists o : option A, forall s, m s = lift o s.

End Model.

Notation "'do' x <~ c1 ; c2" := (bind c1 (fun x => c2))
  (at level 62, x name, c1 at next level, right associativity).

(* ================================================================== *)
(** * dataset.py: DatasetLoader *)
(* ================================================================== *)

(** Python [float] arithmetic: IEEE-754 binary64. *)
Module F64.

Definition prec : Z := 53.
Definition emax : Z := 1024.

Definition float64 : Type := spec_float.

Definition mul : float64 -> float64 -> float64 := SFmul prec emax.
Definition div : float64 -> float64 -> float64 := SFdiv prec emax.
Definition ltb : float64 -> float64 -> bool := SFltb.

Definition is_zero (x : float64) : bool :=
  match x with S754_zero _ => true | _ => false end.

(** The conversion of an [int] operand of a float operation: rounded to
    nearest, [OverflowError] when out of range. *)
Definition of_int (n : Z) : option float64 :=
  match binary_normalize prec emax n 0 false with
  | S754_infinity _ => None
  | f => Some f
  end.

(** [int(x)]: truncation toward zero; raises on NaN and on the
    infinities. *)
Definition to_int (x : float64) : option Z :=
  match x with
  | S754_zero _ => Some 0%Z
  | S754_finite s m e =>
      let a := if (0 <=? e)%Z then (Zpos m * 2 ^ e)%Z
               else (Zpos m / 2 ^ (- e))%Z in
      Some (if s then (- a)%Z else a)
  | _ => None
  end.

(** [bool(x)]: every float but the zeros is true. *)
Definition truthy (x : float64) : bool := negb (is_zero x).

(** The literals [1.0] and [0.1]. *)
Definition one : float64 := S754_finite false 4503599627370496 (-52).
Definition lit_0_1 : float64 := S754_finite false 7205759403792794 (-56).

End F64.

(** The global generator of [numpy.random]: its state, and
    [permutation(n)], which returns the numbers below [n] in some
    order. *)
Class Sampler : Type := mkSampler {
  np_state : Type;
  permutation : nat -> np_state -> list nat * np_state;
  permutation_ok :
    forall n s, Permutation (fst (permutation n s)) (seq 0 n)
}.

Section Dataset.

Context {NP : Sampler}.

(** [np.unique]: the distinct values in ascending order. *)
Fixpoint insert_unique (c : nat) (l : list nat) : list nat :=
  match l with
  | [] => [c]
  | d :: r =>
      if c <? d then c :: l
      else if c =? d then l
      else d :: insert_unique c r
  end.

Definition np_unique (labels : list nat) : list nat :=
  fold_right insert_unique [] labels.

(** [np.where(labels == cls)[0]]: the positions of [cls], ascending. *)
Definition np_where_eq (labels : list nat) (cls : nat) : list nat :=
  filter (fun i => nth i labels 0 =? cls) (seq 0 (length labels)).

(** [np.random.choice(a, size, replace=False)]: raises on a negative
    size and on a size above the population; otherwise the elements of
    [a] at the first [size] positions of a permutation. *)
Definition choice (a : list nat) (size : Z) (s : np_state)
  : option (list nat * np_state) :=
  if (size <? 0)%Z then None
  else if (Z.of_nat (length a) <? size)%Z then None
  else let (perm, s') := permutation (length a) s in
       Some (map (fun i => nth i a 0) (firstn (Z.to_nat size) perm), s').

(** [int(len(dataset) * subset_ratio / len(classes))]: raises
    [ZeroDivisionError] without classes. *)
Definition samples_per_class (len : nat) (subset_ratio : F64.float64)
  (classes : nat) : option Z :=
  fl <- F64.of_int (Z.of_nat len) ;;
  fc <- F64.of_int (Z.of_nat classes) ;;
  if F64.is_zero fc then None
  else F64.to_int (F64.div (F64.mul fl subset_ratio) fc).

(** The loop over the classes: the selections are appended in the
    order of the classes. *)
Fixpoint choose_classes (labels : list nat) (spc : Z) (classes : list nat)
  (s : np_state) : option (list nat * np_state) :=
  match classes with
  | [] => Some ([], s)
  | cls :: rest =>
      match choice (np_where_eq labels cls) spc s with
      | None => None
      | Some (selected, s1) =>
          match choose_classes labels spc rest s1 with
          | None => None
          | Some (more, s2) => Some (selected ++ more, s2)
          end
      end
  end.

(** [DatasetLoader._create_subset_indices(dataset, subset_ratio)] for a
    dataset with the labels [targets], one per sample. *)
Definition create_subset_indices (targets : list nat)
  (subset_ratio : F64.float64) (s : np_state)
  : option (list nat * np_state) :=
  let classes := np_unique targets in
  match samples_per_class (length targets) subset_ratio (length classes) with
  | None => None
  | Some spc => choose_classes targets spc classes s
  end.

(** The samples [load_cifar10] hands to the two loaders, as indices
    into the training and the test set: subsets when [dataset_size] is
    true and below [1.0], the complete sets otherwise. *)
Definition load_cifar10_indices (dataset_size : option F64.float64)
  (train_targets test_targets : list nat) (s : np_state)
  : option ((list nat * list nat) * np_state) :=
  let subset :=
    match dataset_size with
    | Some r => F64.truthy r && F64.ltb r F64.one
    | None => false
    end in
  if subset then
    match dataset_size with
    | Some r =>
        match create_subset_indices train_targets r s with
        | None => None
        | Some (train_indices, s1) =>
            match create_subset_indices test_targets r s1 with
            | None => None
            | Some (test_indices, s2) =>
                Some ((train_indices, test_indices), s2)
            end
        end
    | None => None
    end
  else Some ((seq 0 (length train_targets), seq 0 (length test_targets)), s).

(** How many of the indices [idx] carry the label [c]. *)
Definition count_label (targets : list nat) (c : nat) (idx : list nat) : nat :=
  length (filter (fun i => nth i targets 0 =? c) idx).

End Dataset.

(** A sampler that always returns the identity permutation. *)
Definition identity_sampler : Sampler :=
  {| np_state := unit;
     permutation := fun n s => (seq 0 n, s);
     permutation_ok := fun n s => Permutation_refl (seq 0 n) |}.

(** Ten samples of two classes, and six of which only one is of the
    second class. *)
Definition balanced_targets : list nat := [0; 1; 0; 1; 0; 1; 0; 1; 0; 1].
Definition skewed_targets : list nat := [0; 0; 0; 0; 0; 1].

(** The literals [0.5] and [0.9]. *)
Definition lit_0_5 : F64.float64 := S754_finite false 4503599627370496 (-53).
Definition lit_0_9 : F64.float64 := S754_finite false 8106479329266893 (-53).

(* ================================================================== *)
(** * A backend to run the model on *)
(* ================================================================== *)

(** A counter stands for the generator state; the draws alternate
    between a few values, the GELU kernel is replaced by a ramp and the
    exponential by a positive rational function. *)
Definition counter_backend : Backend :=
  {| rng := nat;
     next_uniform := fun s =>
       (if Nat.even s then S754_finite false 8388608 (-25)
        else S754_finite false 12582912 (-24), S s);
     next_normal := fun s =>
       (of_Z (Z.of_nat (s mod 3) - 1), S s);
     gelu := fun x => if ltb x pzero then pzero else x;
     fexp := fun x => add (of_Z 1) (mul x x) |}.

(* ================================================================== *)
(** * Example inputs *)
(* ================================================================== *)

(** One row [[1; -0.5; 0.25]]. *)
Definition grid_example : Tensor :=
  mkTensor [1; 3]
    [of_Z 1; S754_finite true 8388608 (-24); S754_finite false 8388608 (-25)].

(** The scale of an all-zero row: [(1 / eps) * 127 = 127 * 2^23],
    finite. *)
Definition zero_row_scale : float32 := S754_finite false 16646144 6.

(** A zero row (of both signs) above a non-zero row. *)
Definition zero_row_example : Tensor :=
  mkTensor [2; 2] [pzero; S754_zero true; of_Z 3; of_Z (-7)].

(** A layer without inputs, and a batch of two empty rows. *)
Definition zero_width_layer : BitLinear :=
  {| in_features := 0;
     out_features := 1;
     weight := mkTensor [1; 0] [];
     bias := Some (mkTensor [1] [half]);
     rms_norm := LayerNorm_init 0 false |}.

Definition zero_width_input : Tensor := mkTensor [2; 0] [].

(** A layer of two inputs and one output, and a batch of two rows. *)
Definition linear_example : BitLinear :=
  {| in_features := 2;
     out_features := 1;
     weight := mkTensor [1; 2] [of_Z 1; of_Z (-3)];
     bias := Some (mkTensor [1] [half]);
     rms_norm := LayerNorm_init 2 false |}.

Definition linear_input : Tensor :=
  mkTensor [2; 2] [of_Z 1; of_Z 2; of_Z (-4); of_Z 5].

(** An embedding of 3-channel images in patches of side 16, with a
    latent dimension of 1. *)
Definition embedding_example : InputEmbedding :=
  {| patch_size := 16;
     n_channels := 3;
     emb_latent_size := 1;
     input_size := 768;
     bitlinearProjection :=
       {| in_features := 768;
          out_features := 1;
          weight := ones [1; 768];
          bias := Some (zeros [1]);
          rms_norm := LayerNorm_init 768 false |};
     class_token := ones [1; 1; 1];
     pos_embedding := zeros [1; 1; 1] |}.

(** The configuration of the end-to-end property. *)
Definition config_example : Config :=
  {| cfg_patch_size := Some 16;
     cfg_latent_size := Some 64;
     cfg_num_encoders := Some 2;
     cfg_num_heads := Some 4;
     cfg_num_classes := Some 10;
     cfg_dropout := None |}.

(** The same with a patch size of 8. *)
Definition config_patch8 : Config :=
  {| cfg_patch_size := Some 8;
     cfg_latent_size := Some 64;
     cfg_num_encoders := Some 2;
     cfg_num_heads := Some 4;
     cfg_num_classes := Some 10;
     cfg_dropout := None |}.

(** A batch of two sequences of two tokens of width 8 that is zero
    except for the second token of each sequence. *)
Definition tokens_example : Tensor :=
  mkTensor [2; 2; 8]
    (repeat pzero 8 ++ repeat (of_Z 1) 8 ++
     repeat pzero 8 ++ repeat (of_Z 2) 8).

(** The scale of an all-zero weight tensor: [1 / 1e-5] in binary32. *)
Definition zero_weight_scale : float32 :=
  Eval vm_compute in rdiv (of_Z 1) lit_1e_5.

(* ================================================================== *)
(** * Facts about binary32 arithmetic *)
(* ================================================================== *)

Section Float32Facts.

Lemma digits2_pos_size (p : positive) : digits2_pos p = Pos.size p.
Proof. induction p; simpl; congruence. Qed.

Lemma digits_lt_lt (p q : positive) :
  (Zpos (digits2_pos p) < Zpos (digits2_pos q))%Z -> (p < q)%positive.
Proof.
  rewrite (digits2_pos_size p), (digits2_pos_size q). intros H.
  pose proof (Pos.size_gt p) as Hp. pose proof (Pos.size_le q) as Hq.
  apply Pos2Z.pos_lt_pos in Hp. apply Pos2Z.pos_le_pos in Hq.
  rewrite Pos2Z.inj_pow in Hp, Hq.
  assert (Hle : (2 ^ (Zpos (Pos.size p) + 1) <= 2 ^ Zpos (Pos.size q))%Z)
    by (apply Z.pow_le_mono_r; lia).
  rewrite Z.pow_add_r in Hle by lia.
  change (2 ^ 1)%Z with 2%Z in Hle. lia.
Qed.

Lemma shiftl_compare (p q : positive) (n : N) :
  Pos.compare (Pos.shiftl p n) (Pos.shiftl q n) = Pos.compare p q.
Proof.
  destruct n as [|k]; simpl; [reflexivity|].
  induction k using Pos.peano_ind.
  - reflexivity.
  - rewrite !Pos.iter_succ. simpl. exact IHk.
Qed.

(** Order of the floats of two positive integers, the second below
    [2^24]. *)
Lemma compare_of_pos (p q : positive) :
  SFcompare (of_pos false p) (of_pos false q) = Some (Pos.compare p q).
Proof.
  unfold of_pos. cbn [SFcompare].
  destruct (Z.compare_spec (Zpos (digits2_pos p) - prec)
                           (Zpos (digits2_pos q) - prec)) as [He|He|He].
  - assert (Hd : digits2_pos p = digits2_pos q) by lia.
    rewrite Hd. change (Pos.compare_cont Eq) with Pos.compare.
    now rewrite shiftl_compare.
  - assert (Hlt : (p < q)%positive) by (apply digits_lt_lt; lia).
    now rewrite (proj2 (Pos.compare_lt_iff p q) Hlt).
  - assert (Hlt : (q < p)%positive) by (apply digits_lt_lt; lia).
    now rewrite (proj2 (Pos.compare_gt_iff p q) Hlt).
Qed.

Lemma compare_of_neg (p q : positive) :
  SFcompare (of_pos true p) (of_pos true q) = Some (Pos.compare q p).
Proof.
  unfold of_pos. cbn [SFcompare].
  destruct (Z.compare_spec (Zpos (digits2_pos p) - prec)
                           (Zpos (digits2_pos q) - prec)) as [He|He|He].
  - assert (Hd : digits2_pos p = digits2_pos q) by lia.
    rewrite Hd. change (Pos.compare_cont Eq) with Pos.compare.
    rewrite shiftl_compare. now rewrite (Pos.compare_antisym p q).
  - assert (Hlt : (p < q)%positive) by (apply digits_lt_lt; lia).
    now rewrite (proj2 (Pos.compare_gt_iff q p) Hlt).
  - assert (Hlt : (q < p)%positive) by (apply digits_lt_lt; lia).
    now rewrite (proj2 (Pos.compare_lt_iff q p) Hlt).
Qed.

Lemma clamp_round_code (pa pb : positive) (y : float32) :
  (Zpos (digits2_pos pa) < prec)%Z ->
  (Zpos (digits2_pos pb) < prec)%Z ->
  is_code (Zneg pa) (Zpos pb)
          (clamp (round y) (of_Z (Zneg pa)) (of_Z (Zpos pb))).
Proof.
  intros Ha Hb.
  assert (Hlo : is_code (Zneg pa) (Zpos pb) (of_Z (Zneg pa)))
    by (right; right; exists (Zneg pa); split; [lia | reflexivity]).
  assert (Hhi : is_code (Zneg pa) (Zpos pb) (of_Z (Zpos pb)))
    by (right; right; exists (Zpos pb); split; [lia | reflexivity]).
  assert (Hz : forall s, is_code (Zneg pa) (Zpos pb) (S754_zero s)).
  { intros [|]; [right; left; reflexivity|].
    right; right; exists 0%Z; split; [lia | reflexivity]. }
  destruct y as [s|s| |s m e]; cbn [round].
  - (* zero *) cbn. apply Hz.
  - (* infinity *) destruct s; cbn; assumption.
  - (* NaN *) left; reflexivity.
  - destruct (Z.leb_spec 0 e) as [He|He].
    + (* already an integer, beyond both bounds *)
      unfold clamp, ltb, SFltb. cbn [is_nan of_Z of_pos SFcompare].
      destruct s.
      * replace (e ?= Zpos (digits2_pos pa) - prec)%Z with Gt
          by (symmetry; apply Z.compare_gt_iff; lia).
        cbn. exact Hlo.
      * replace (Zpos (digits2_pos pb) - prec ?= e)%Z with Lt
          by (symmetry; apply Z.compare_lt_iff; lia).
        exact Hhi.
    + destruct (round_half_even (Zpos m) (- e)) as [|p|p];
        cbn [of_int]; try (cbn; apply Hz).
      unfold clamp, ltb, SFltb. cbn [of_Z].
      destruct s.
      * rewrite compare_of_neg.
        replace (is_nan (of_pos true p)) with false by reflexivity.
        destruct (Pos.compare_spec pa p) as [Heq|Hlt|Hgt].
        -- subst p. cbn. exact Hlo.
        -- cbn. exact Hlo.
        -- cbn. right; right. exists (Zneg p). split; [lia | reflexivity].
      * replace (is_nan (of_pos false p)) with false by reflexivity.
        replace (SFcompare (of_pos false p) (of_pos true pa)) with (Some Gt)
          by reflexivity.
        rewrite compare_of_pos.
        destruct (Pos.compare_spec pb p) as [Heq|Hlt|Hgt].
        -- subst p. exact Hhi.
        -- exact Hhi.
        -- right; right. exists (Zpos p). split; [lia | reflexivity].
Qed.

Lemma eqb_refl_or_nan (x : float32) : x = S754_nan \/ eqb x x = true.
Proof.
  destruct x as [s|s| |s m e]; [right|right|left|right]; try reflexivity.
  - destruct s; reflexivity.
  - unfold eqb, SFeqb. cbn [SFcompare].
    rewrite Z.compare_refl, Pcompare_refl. destruct s; reflexivity.
Qed.

(** Dividing a zero of either sign gives equal results. *)
Lemma div_zero_sign (s : bool) (d : float32) :
  div (S754_zero s) d = S754_nan \/
  eqb (div (S754_zero s) d) (div pzero d) = true.
Proof.
  destruct d as [sd|sd| |sd md ed]; cbn; auto;
    destruct s, sd; cbn; auto.
Qed.

(** A quantized value [c / scale], for a code [c], is NaN or equal to
    one of the levels [k / scale]. *)
Lemma code_level (a b : Z) (c scale : float32) :
  (a <= 0 <= b)%Z ->
  is_code a b c ->
  div c scale = S754_nan \/
  exists k : Z, (a <= k <= b)%Z /\
                eqb (div c scale) (div (of_Z k) scale) = true.
Proof.
  intros Hab [Hc | [Hc | (k & Hk & Hc)]]; subst c.
  - left. reflexivity.
  - destruct (div_zero_sign true scale) as [H|H]; [left; exact H|].
    right. exists 0%Z. split; [lia | exact H].
  - destruct (eqb_refl_or_nan (div (of_Z k) scale)) as [H|H];
      [left; exact H|].
    right. exists k. split; [exact Hk | exact H].
Qed.

Lemma shr_1_nonneg (mrs : shr_record) :
  (0 <= shr_m mrs)%Z -> (0 <= shr_m (shr_1 mrs))%Z.
Proof.
  destruct mrs as [m r s]. simpl. intros Hm.
  destruct m as [|p|p]; [simpl; lia| |lia].
  destruct p; simpl; lia.
Qed.

Lemma iter_pos_inv {A : Type} (f : A -> A) (P : A -> Prop) :
  (forall x, P x -> P (f x)) ->
  forall n x, P x -> P (iter_pos f n x).
Proof.
  intros Hf. induction n as [n IH|n IH|]; intros x Hx; simpl; auto.
Qed.

Lemma shr_nonneg (mrs : shr_record) (e n : Z) :
  (0 <= shr_m mrs)%Z -> (0 <= shr_m (fst (shr mrs e n)))%Z.
Proof.
  intros Hm. unfold shr. destruct n as [|p|p]; simpl; try exact Hm.
  apply (iter_pos_inv shr_1 (fun r => (0 <= shr_m r)%Z)); [apply shr_1_nonneg | exact Hm].
Qed.

Lemma shr_fexp_nonneg (m e : Z) (l : location) :
  (0 <= m)%Z -> (0 <= shr_m (fst (shr_fexp prec emax m e l)))%Z.
Proof.
  intros Hm. unfold shr_fexp. apply shr_nonneg.
  destruct l as [|[| |]]; exact Hm.
Qed.

Lemma round_nearest_even_nonneg (m : Z) (l : location) :
  (0 <= m)%Z -> (0 <= round_nearest_even m l)%Z.
Proof.
  intros Hm. destruct l as [|[| |]]; simpl; try lia.
  destruct (Z.even m); lia.
Qed.

Lemma binary_round_aux_not_nan (sx : bool) (mx ex : Z) (lx : location) :
  (0 <= mx)%Z -> binary_round_aux prec emax sx mx ex lx <> S754_nan.
Proof.
  intros Hm. unfold binary_round_aux.
  pose proof (shr_fexp_nonneg mx ex lx Hm) as H1.
  destruct (shr_fexp prec emax mx ex lx) as [mrs' e']. simpl in H1.
  pose proof (shr_fexp_nonneg _ e' loc_Exact
                (round_nearest_even_nonneg (shr_m mrs') (loc_of_shr_record mrs') H1)) as H2.
  destruct (shr_fexp prec emax _ e' loc_Exact) as [mrs'' e'']. simpl in H2.
  destruct (shr_m mrs'') as [|p|p]; [discriminate| |lia].
  destruct (Z.leb e'' (emax - prec)); discriminate.
Qed.

Lemma mul_finite_not_nan s1 m1 e1 s2 m2 e2 :
  mul (S754_finite s1 m1 e1) (S754_finite s2 m2 e2) <> S754_nan.
Proof. unfold mul. simpl. apply binary_round_aux_not_nan. lia. Qed.

Lemma div_finite_not_nan s1 m1 e1 s2 m2 e2 :
  div (S754_finite s1 m1 e1) (S754_finite s2 m2 e2) <> S754_nan.
Proof.
  unfold div, SFdiv.
  destruct (SFdiv_core_binary prec emax (Zpos m1) e1 (Zpos m2) e2) as [[mz ez] lz] eqn:Hc.
  apply binary_round_aux_not_nan.
  unfold SFdiv_core_binary in Hc.
  match type of Hc with
  | (let '(q, r) := Z.div_eucl ?a ?b in _) = _ =>
      pose proof (Z_div_mod a b ltac:(lia)) as Hdm;
      assert (Ha : (0 <= a)%Z);
      [|destruct (Z.div_eucl a b) as [q r]; injection Hc as <- _ _; nia]
  end.
  match goal with
  | |- (0 <= match ?s with _ => _ end)%Z => destruct s; try lia
  end.
  apply Z.shiftl_nonneg. lia.
Qed.

Lemma round_not_nan (x : float32) : x <> S754_nan -> round x <> S754_nan.
Proof.
  destruct x as [s|s| |s m e]; simpl; try congruence. intros _.
  destruct (0 <=? e)%Z; [discriminate|].
  destruct (round_half_even (Zpos m) (- e)); discriminate.
Qed.

Lemma clamp_not_nan (x lo hi : float32) :
  x <> S754_nan -> lo <> S754_nan -> hi <> S754_nan ->
  clamp x lo hi <> S754_nan.
Proof.
  intros Hx Hlo Hhi. unfold clamp.
  destruct x; try congruence; simpl;
    repeat match goal with |- context [if ?b then _ else _] => destruct b end;
    assumption.
Qed.

Lemma mul_not_nan (v : float32) (s : bool) (m : positive) (e : Z) :
  v <> S754_nan -> mul v (S754_finite s m e) <> S754_nan.
Proof.
  destruct v as [sv|sv| |sv mv ev]; intros Hv; try congruence;
    try discriminate.
  apply mul_finite_not_nan.
Qed.

Lemma sum_nan_acc (l : list float32) : fold_left add l S754_nan = S754_nan.
Proof. induction l as [|a l IH]; simpl; [reflexivity | exact IH]. Qed.

Lemma sum_nan (l : list float32) (acc : float32) :
  In S754_nan l -> fold_left add l acc = S754_nan.
Proof.
  revert acc. induction l as [|a l IH]; intros acc Hin;
    [destruct Hin | destruct Hin as [Ha|Hin]]; simpl.
  - subst a. replace (add acc S754_nan) with S754_nan
      by (destruct acc; reflexivity).
    apply sum_nan_acc.
  - now apply IH.
Qed.

Lemma fmax_nan_acc (l : list float32) : fold_left fmax l S754_nan = S754_nan.
Proof. induction l as [|a l IH]; simpl; [reflexivity | exact IH]. Qed.

Lemma fmax_nan (l : list float32) (acc : float32) :
  In S754_nan l -> fold_left fmax l acc = S754_nan.
Proof.
  revert acc. induction l as [|a l IH]; intros acc Hin;
    [destruct Hin | destruct Hin as [Ha|Hin]]; simpl.
  - subst a. replace (fmax acc S754_nan) with S754_nan
      by (destruct acc; reflexivity).
    apply fmax_nan_acc.
  - now apply IH.
Qed.

End Float32Facts.

(* ================================================================== *)
(** * Facts about tensors and their rows *)
(* ================================================================== *)

Lemma chunks_length (n cnt : nat) (d : list float32) :
  length (chunks n cnt d) = cnt.
Proof. revert d; induction cnt; intros d; simpl; [reflexivity | now rewrite IHcnt]. Qed.

Lemma chunks_map (f : float32 -> float32) (n cnt : nat) (d : list float32) :
  chunks n cnt (map f d) = map (map f) (chunks n cnt d).
Proof.
  revert d; induction cnt as [|c IH]; intros d; simpl; [reflexivity|].
  now rewrite firstn_map, skipn_map, IH.
Qed.

Lemma firstn_skipn_app (n : nat) (r L : list float32) :
  length r = n -> firstn n (r ++ L) = r /\ skipn n (r ++ L) = L.
Proof.
  intros <-. split.
  - rewrite firstn_app, Nat.sub_diag, firstn_all. simpl. apply app_nil_r.
  - rewrite skipn_app, Nat.sub_diag, skipn_all. reflexivity.
Qed.

Lemma chunks_concat (n : nat) (L : list (list float32)) :
  Forall (fun r => length r = n) L ->
  chunks n (length L) (concat L) = L.
Proof.
  induction 1 as [|r L Hr HL IH]; simpl; [reflexivity|].
  destruct (firstn_skipn_app n r (concat L) Hr) as [-> ->].
  now rewrite IH.
Qed.

Lemma chunks_uniform (n cnt : nat) (d : list float32) :
  length d = cnt * n ->
  Forall (fun r => length r = n) (chunks n cnt d).
Proof.
  revert d; induction cnt as [|c IH]; intros d Hd; simpl; constructor.
  - rewrite length_firstn. simpl in Hd. lia.
  - apply IH. rewrite length_skipn. simpl in Hd. lia.
Qed.

Lemma concat_chunks (n cnt : nat) (d : list float32) :
  length d = cnt * n -> concat (chunks n cnt d) = d.
Proof.
  revert d; induction cnt as [|c IH]; intros d Hd; simpl.
  - destruct d; [reflexivity | discriminate].
  - rewrite IH by (rewrite length_skipn; simpl in Hd; lia).
    apply firstn_skipn.
Qed.

Lemma concat_length_uniform (n : nat) (L : list (list float32)) :
  Forall (fun r => length r = n) L -> length (concat L) = length L * n.
Proof.
  induction 1 as [|r L Hr HL IH]; simpl; [reflexivity|].
  rewrite length_app, IH, Hr. reflexivity.
Qed.

Lemma numel_app (a b : list nat) : numel (a ++ b) = numel a * numel b.
Proof.
  induction a as [|x a IH]; simpl; [lia|]. rewrite IH. lia.
Qed.

(** A tensor has [nrows] slices of [last_dim] elements each. *)
Lemma numel_rows (sh : list nat) : numel sh = nrows sh * last_dim sh.
Proof.
  unfold nrows, lead, last_dim.
  destruct sh as [|x sh]; [reflexivity|].
  rewrite (app_removelast_last 1 (l := x :: sh)) at 1 by discriminate.
  rewrite numel_app. simpl. lia.
Qed.

Lemma rows_length (t : Tensor) : length (rows t) = nrows (shape t).
Proof. apply chunks_length. Qed.

Lemma rows_uniform (t : Tensor) :
  wf t -> Forall (fun r => length r = last_dim (shape t)) (rows t).
Proof.
  intros H. apply chunks_uniform. rewrite H. apply numel_rows.
Qed.

Lemma concat_rows (t : Tensor) : wf t -> concat (rows t) = data t.
Proof.
  intros H. apply concat_chunks. rewrite H. apply numel_rows.
Qed.

Lemma rows_tmap (f : float32 -> float32) (t : Tensor) :
  rows (tmap f t) = map (map f) (rows t).
Proof. apply chunks_map. Qed.

(** A tensor built from uniform rows has exactly these rows. *)
Lemma rows_of_concat (sh : list nat) (L : list (list float32)) :
  length L = nrows sh ->
  Forall (fun r => length r = last_dim sh) L ->
  rows (mkTensor sh (concat L)) = L /\ wf (mkTensor sh (concat L)).
Proof.
  intros HL HU. unfold rows, wf. simpl. split.
  - rewrite <- HL. now apply chunks_concat.
  - rewrite (concat_length_uniform _ _ HU), HL. symmetry. apply numel_rows.
Qed.

Lemma rows_bcast (f : float32 -> float32 -> float32) (x s : Tensor) :
  wf x -> length (data s) = nrows (shape x) ->
  rows (bcast_rows f x s)
  = map (fun p => map (fun v => f v (snd p)) (fst p))
        (combine (rows x) (data s))
  /\ wf (bcast_rows f x s).
Proof.
  intros Hx Hs. unfold bcast_rows. apply rows_of_concat.
  - rewrite length_map, length_combine, rows_length, Hs. apply Nat.min_id.
  - apply Forall_forall. intros r Hr.
    apply in_map_iff in Hr. destruct Hr as ([r0 s0] & <- & Hin).
    simpl. rewrite length_map.
    apply in_combine_l in Hin.
    pose proof (rows_uniform _ Hx) as HU.
    rewrite Forall_forall in HU. now apply HU.
Qed.

Lemma wf_tmap (f : float32 -> float32) (t : Tensor) : wf t -> wf (tmap f t).
Proof. unfold wf, tmap. simpl. now rewrite length_map. Qed.

Lemma Forall2_map_left {A B C : Type} (g : A -> B) (P : B -> C -> Prop)
  (l : list A) (l' : list C) :
  Forall2 P (map g l) l' -> Forall2 (fun a c => P (g a) c) l l'.
Proof.
  revert l'. induction l as [|a l IH]; intros l' H; inversion H; subst;
    constructor; auto.
Qed.

(** Row by row, the broadcast tensor program is the per-row formula. *)
Lemma quant_rows_list (e : float32) (R : list (list float32)) :
  Forall (fun r => r <> []) R ->
  let S := map (row_scale e) R in
  Forall2 (fun r r' => spec_activation_quant_row e r = Some r') R
    (map (fun p => map (fun v => div v (snd p)) (fst p))
       (combine
          (map (map (fun v => clamp v (of_Z (-128)) (of_Z 127)))
             (map (map round)
                (map (fun p => map (fun v => mul v (snd p)) (fst p))
                   (combine R S))))
          S)).
Proof.
  induction 1 as [|r R Hr HR IH]; simpl; constructor.
  - destruct r as [|v r]; [congruence|].
    unfold spec_activation_quant_row. rewrite !map_map. reflexivity.
  - exact IH.
Qed.

Lemma rows_nonempty (x : Tensor) :
  wf x -> last_dim (shape x) <> 0 -> Forall (fun r => r <> []) (rows x).
Proof.
  intros Hx Hn. eapply Forall_impl; [|exact (rows_uniform x Hx)].
  intros r Hr ->. simpl in Hr. congruence.
Qed.

Lemma activation_quant_rows (x : Tensor) :
  wf x -> last_dim (shape x) <> 0 ->
  exists y, activation_quant x = Some y /\ shape y = shape x /\ wf y /\
    Forall2 (fun r r' => spec_activation_quant_row eps r = Some r')
            (rows x) (rows y).
Proof.
  intros Hx Hn. unfold activation_quant, max_lastdim.
  change (shape (tabs x)) with (shape x).
  destruct (Nat.eqb_spec (last_dim (shape x)) 0) as [H0|_]; [contradiction|].
  unfold tabs. rewrite rows_tmap.
  set (scale := scalar_div (of_Z 127)
                  (tclamp_min (mkTensor (keepdim_shape (shape x))
                                 (map max_list (map (map abs) (rows x)))) eps)).
  assert (Hd : data scale = map (row_scale eps) (rows x))
    by (unfold scale; simpl; rewrite !map_map; reflexivity).
  assert (Hs : length (data scale) = nrows (shape x))
    by (rewrite Hd, length_map; apply rows_length).
  destruct (rows_bcast mul x scale Hx Hs) as [Hr1 Hw1].
  set (x_scaled := bcast_rows mul x scale) in *.
  set (x_int := tclamp (RoundSTE.apply x_scaled) (of_Z (-128)) (of_Z 127)).
  assert (Hw2 : wf x_int) by (apply wf_tmap, wf_tmap, Hw1).
  destruct (rows_bcast div x_int scale Hw2 Hs) as [Hr2 Hw3].
  eexists. split; [reflexivity|]. split; [reflexivity|]. split; [exact Hw3|].
  rewrite Hr2. unfold x_int, tclamp, RoundSTE.apply, RoundSTE.forward.
  rewrite !rows_tmap, Hr1, Hd.
  exact (quant_rows_list eps (rows x) (rows_nonempty x Hx Hn)).
Qed.

Lemma level_in (lo hi k : Z) (scale : float32) :
  (lo <= k <= hi)%Z -> In (div (of_Z k) scale) (levels lo hi scale).
Proof.
  intros Hk. unfold levels.
  apply (in_map (fun k => div (of_Z k) scale)). apply in_map_iff.
  exists (Z.to_nat (k - lo)). split; [lia|]. apply in_seq. lia.
Qed.

Lemma levels_length (lo hi : Z) (scale : float32) :
  length (levels lo hi scale) = Z.to_nat (hi - lo + 1).
Proof. unfold levels. now rewrite !length_map, length_seq. Qed.

(** A quantized value is NaN or lies on the grid of its scale. *)
Lemma quant_value_on_grid (pa pb : positive) (scale v : float32) :
  (Zpos (digits2_pos pa) < prec)%Z ->
  (Zpos (digits2_pos pb) < prec)%Z ->
  let q := quant_value (Zneg pa) (Zpos pb) scale v in
  q = S754_nan \/ on_grid (levels (Zneg pa) (Zpos pb) scale) q.
Proof.
  intros Ha Hb q. unfold q, quant_value.
  destruct (code_level (Zneg pa) (Zpos pb)
              (clamp (round (mul v scale)) (of_Z (Zneg pa)) (of_Z (Zpos pb)))
              scale) as [H | (k & Hk & H)].
  - lia.
  - now apply clamp_round_code.
  - left. exact H.
  - right. apply Exists_exists. eexists. split; [apply (level_in _ _ k); exact Hk|].
    exact H.
Qed.

Lemma same_value_level (lo hi k : Z) (scale v : float32) :
  (lo <= k <= hi)%Z ->
  same_value v (div (of_Z k) scale) ->
  Exists (same_value v) (levels lo hi scale).
Proof.
  intros Hk Hv. apply Exists_exists. eexists.
  split; [apply (level_in lo hi k); exact Hk | exact Hv].
Qed.

(** The values of a quantized slice, NaN included, are at most as many
    as the integers between the bounds, provided the slice holds no NaN
    when the scale is finite (a NaN in the slice makes the scales of
    both quantizers NaN). *)
Lemma quant_values_few (pa pb : positive) (scale : float32)
  (row : list float32) :
  (Zpos (digits2_pos pa) < prec)%Z ->
  (Zpos (digits2_pos pb) < prec)%Z ->
  (forall s m e, scale = S754_finite s m e ->
                 Forall (fun v => v <> S754_nan) row) ->
  at_most_values (Z.to_nat (Zpos pb - Zneg pa + 1))
                 (map (quant_value (Zneg pa) (Zpos pb) scale) row).
Proof.
  intros Ha Hb Hfin.
  assert (Hcode : forall v,
             is_code (Zneg pa) (Zpos pb)
               (clamp (round (mul v scale)) (of_Z (Zneg pa)) (of_Z (Zpos pb))))
    by (intros v; now apply clamp_round_code).
  destruct scale as [sz|si| |ss ms es].
  - (* scale zero: every value is NaN *)
    exists [S754_nan]. split; [simpl; lia|].
    apply Forall_forall. intros q Hq. apply in_map_iff in Hq.
    destruct Hq as (v & <- & _). constructor. right. split; [|reflexivity].
    unfold quant_value. destruct v as [sv|sv| |sv mv ev]; reflexivity.
  - (* scale infinite: zeros and NaN *)
    exists [S754_nan; pzero]. split; [simpl; lia|].
    apply Forall_forall. intros q Hq. apply in_map_iff in Hq.
    destruct Hq as (v & <- & _). unfold quant_value.
    destruct (Hcode v) as [-> | [-> | (k & _ & ->)]].
    + constructor. right. split; reflexivity.
    + apply Exists_cons_tl. constructor. left. destruct si; reflexivity.
    + apply Exists_cons_tl. constructor. left.
      destruct k, si; reflexivity.
  - (* scale NaN: every value is NaN *)
    exists [S754_nan]. split; [simpl; lia|].
    apply Forall_forall. intros q Hq. apply in_map_iff in Hq.
    destruct Hq as (v & <- & _). constructor. right. split; [|reflexivity].
    unfold quant_value.
    destruct (clamp (round (mul v S754_nan)) (of_Z (Zneg pa)) (of_Z (Zpos pb)));
      reflexivity.
  - (* scale finite: the levels themselves *)
    exists (levels (Zneg pa) (Zpos pb) (S754_finite ss ms es)).
    split; [rewrite levels_length; lia|].
    specialize (Hfin ss ms es eq_refl). rewrite Forall_forall in Hfin.
    apply Forall_forall. intros q Hq. apply in_map_iff in Hq.
    destruct Hq as (v & <- & Hv). unfold quant_value.
    assert (Hc : clamp (round (mul v (S754_finite ss ms es)))
                   (of_Z (Zneg pa)) (of_Z (Zpos pb)) <> S754_nan).
    { apply clamp_not_nan; [|discriminate|discriminate].
      apply round_not_nan, mul_not_nan, Hfin, Hv. }
    destruct (Hcode v) as [Hn | [-> | (k & Hk & ->)]]; [contradiction| |].
    + apply (same_value_level _ _ 0); [lia|]. left. destruct ss; reflexivity.
    + apply (same_value_level _ _ k); [exact Hk|]. left.
      destruct (eqb_refl_or_nan (div (of_Z k) (S754_finite ss ms es)))
        as [Hnan|Heq]; [|exact Heq].
      exfalso. destruct k as [|p|p]; try discriminate Hnan;
        exact (div_finite_not_nan _ _ _ _ _ _ Hnan).
Qed.

Lemma row_scale_nan (e : float32) (row : list float32) :
  In S754_nan row -> row_scale e row = S754_nan.
Proof.
  intros Hin. unfold row_scale.
  assert (Hm : max_list (map abs row) = S754_nan).
  { destruct row as [|v row]; [destruct Hin|]. simpl.
    destruct Hin as [->|Hin]; [apply fmax_nan_acc|].
    apply fmax_nan. change S754_nan with (abs S754_nan). now apply in_map. }
  rewrite Hm. reflexivity.
Qed.

Lemma weight_scale_nan (w : Tensor) :
  In S754_nan (data w) -> weight_scale w = S754_nan.
Proof.
  intros Hin. unfold weight_scale, tmean, sum, tabs, tmap. cbn [data shape].
  rewrite sum_nan; [reflexivity|].
  change S754_nan with (abs S754_nan). now apply in_map.
Qed.

Lemma finite_scale_no_nan (scale : float32) (row : list float32) :
  (In S754_nan row -> scale = S754_nan) ->
  forall s m e, scale = S754_finite s m e ->
                Forall (fun v => v <> S754_nan) row.
Proof.
  intros Hnan s m e Hs. apply Forall_forall. intros v Hv ->.
  rewrite (Hnan Hv) in Hs. discriminate.
Qed.

(* ================================================================== *)
(** * Straight-through estimators *)
(* ================================================================== *)

Lemma round_half_even_nearest (m k : Z) :
  (0 < k)%Z -> (0 <= m)%Z ->
  (0 <= round_half_even m k)%Z /\
  (2 * Z.abs (round_half_even m k * 2 ^ k - m) <= 2 ^ k)%Z.
Proof.
  intros Hk Hm. unfold round_half_even.
  rewrite Z.shiftr_div_pow2, Z.land_ones, Z.shiftl_1_l by lia.
  assert (Hp : (2 ^ k = 2 * 2 ^ (k - 1))%Z).
  { rewrite <- Z.pow_succ_r by lia. f_equal. lia. }
  assert (Hh : (0 < 2 ^ (k - 1))%Z) by (apply Z.pow_pos_nonneg; lia).
  pose proof (Z.div_mod m (2 ^ k) ltac:(lia)) as Hdm.
  pose proof (Z.mod_pos_bound m (2 ^ k) ltac:(lia)) as Hb.
  assert (Hq : (0 <= m / 2 ^ k)%Z) by (apply Z.div_pos; lia).
  set (q := (m / 2 ^ k)%Z) in *. set (r := (m mod 2 ^ k)%Z) in *.
  set (h := (2 ^ (k - 1))%Z) in *.
  destruct (Z.compare_spec r h) as [He|Hl|Hg];
    [destruct (Z.even q)| |]; split; nia.
Qed.

Lemma round_nearest (x : float32) : nearest_integer x (round x).
Proof.
  destruct x as [s|s| |s m e]; simpl; try reflexivity.
  destruct (Z.leb_spec 0 e) as [He|He]; [left; split; [lia | reflexivity]|].
  right. split; [exact He|].
  exists (round_half_even (Zpos m) (- e)). split; [reflexivity|].
  apply round_half_even_nearest; lia.
Qed.

Lemma sign_is_sign (x : float32) : is_sign_of x (sign x).
Proof.
  destruct x as [s|s| |s m e]; try destruct s; reflexivity.
Qed.

Lemma sign_values (x : float32) :
  sign x = of_Z (-1) \/ sign x = pzero \/ sign x = of_Z 1.
Proof.
  destruct x as [s|s| |s m e]; try destruct s; cbn; auto.
Qed.

Lemma Forall2_map_self {A B : Type} (f : A -> B) (P : A -> B -> Prop)
  (l : list A) :
  (forall a, P a (f a)) -> Forall2 P l (map f l).
Proof. intros H. induction l; simpl; constructor; auto. Qed.

(** C2.  The round and sign primitives keep the shape of their argument
    (every tensor holds binary32 values, so the dtype as well); forward
    yields elementwise the nearest integer, respectively the sign, one
    of -1, 0 and +1; backward returns the incoming gradient itself,
    whatever it is. *)
Theorem ste_forward_backward (ctx : Ctx) (x g : Tensor) :
  (shape (RoundSTE.forward ctx x) = shape x /\
   length (data (RoundSTE.forward ctx x)) = length (data x) /\
   Forall2 nearest_integer (data x) (data (RoundSTE.forward ctx x))) /\
  (shape (SignSTE.forward ctx x) = shape x /\
   length (data (SignSTE.forward ctx x)) = length (data x) /\
   Forall2 (fun v r => is_sign_of v r /\
                       (r = of_Z (-1) \/ r = pzero \/ r = of_Z 1))
           (data x) (data (SignSTE.forward ctx x))) /\
  RoundSTE.backward ctx g = g /\
  SignSTE.backward ctx g = g.
Proof.
  repeat split; simpl; try apply length_map.
  - apply Forall2_map_self. exact round_nearest.
  - apply Forall2_map_self. intros v. split.
    + apply sign_is_sign.
    + apply sign_values.
Qed.

(* ================================================================== *)
(** * Activation quantization *)
(* ================================================================== *)

Lemma spec_row_eq (e : float32) (r r' : list float32) :
  spec_activation_quant_row e r = Some r' ->
  r' = map (quant_value (-128) 127 (row_scale e r)) r.
Proof.
  unfold spec_activation_quant_row. destruct r; [discriminate|].
  now intros [= <-].
Qed.

Lemma quant_row_grid (scale : float32) (r : list float32) :
  Forall (fun v => v = S754_nan \/ on_grid (levels (-128) 127 scale) v)
         (map (quant_value (-128) 127 scale) r).
Proof.
  apply Forall_forall. intros v Hv.
  apply in_map_iff in Hv. destruct Hv as (v0 & <- & _).
  apply (quant_value_on_grid 128 127); reflexivity.
Qed.

(** C3 (as amended).  On a tensor with a non-empty last dimension,
    [activation_quant] returns a tensor of the same shape; each of its
    rows is [round(row * scale)] clamped to [-128, 127] and divided by
    [scale], with [scale = 127 / max(|row|, eps)] where [eps] is the
    machine epsilon [2^-23] of binary32, the quotient being evaluated
    as the reciprocal of the guarded maximum times [127]; every value
    of the row is NaN or compares equal to one of the 256 levels
    [k / scale], [-128 <= k <= 127]; and the row takes at most 256
    distinct values, NaN counted. *)
Theorem activation_quant_grid (x : Tensor) :
  wf x -> last_dim (shape x) <> 0 ->
  exists y, activation_quant x = Some y /\ shape y = shape x /\ wf y /\
    Forall2
      (fun r r' =>
         let scale := row_scale eps r in
         scale = mul (div (of_Z 1) (clamp_min (max_list (map abs r)) eps))
                     (of_Z 127) /\
         r' = map (quant_value (-128) 127 scale) r /\
         length (levels (-128) 127 scale) = 256 /\
         Forall (fun v => v = S754_nan \/
                          on_grid (levels (-128) 127 scale) v) r' /\
         at_most_values 256 r')
      (rows x) (rows y).
Proof.
  intros Hx Hn.
  destruct (activation_quant_rows x Hx Hn) as (y & Hy & Hsh & Hwf & HF).
  exists y. repeat (split; [assumption|]).
  eapply Forall2_impl; [|exact HF]. intros r r' Hr. simpl in Hr.
  apply spec_row_eq in Hr. subst r'. cbv zeta.
  split; [reflexivity|]. split; [reflexivity|]. split; [reflexivity|].
  split; [apply quant_row_grid|].
  apply (quant_values_few 128 127); try reflexivity.
  apply finite_scale_no_nan, row_scale_nan.
Qed.

Lemma activation_quant_grid_witness :
  exists y, activation_quant grid_example = Some y /\
    shape y = shape grid_example /\ wf y /\
    Forall2
      (fun r r' =>
         let scale := row_scale eps r in
         scale = mul (div (of_Z 1) (clamp_min (max_list (map abs r)) eps))
                     (of_Z 127) /\
         r' = map (quant_value (-128) 127 scale) r /\
         length (levels (-128) 127 scale) = 256 /\
         Forall (fun v => v = S754_nan \/
                          on_grid (levels (-128) 127 scale) v) r' /\
         at_most_values 256 r')
      (rows grid_example) (rows y).
Proof.
  apply (activation_quant_grid grid_example); [reflexivity | vm_compute; lia].
Defined.

(** C3, as stated, fails: the guard of the divisor is the machine
    epsilon [2^-23], not the smallest positive value of the type.  The
    row [[2^-40]] quantizes to [0], while the formula with the smallest
    positive normal or subnormal value as guard returns [2^-40]; so the
    rows of the result are not those of that formula.  And a tensor
    whose last dimension is empty raises in the [max] reduction. *)
Lemma activation_quant_epsilon_counterexample :
  let x := mkTensor [1] [S754_finite false 8388608 (-63)] in
  activation_quant x = Some (mkTensor [1] [pzero]) /\
  spec_activation_quant_row tiny (data x) = Some (data x) /\
  spec_activation_quant_row smallest_subnormal (data x) = Some (data x) /\
  ~ (forall e, In e [tiny; smallest_subnormal] ->
     forall t y, wf t -> activation_quant t = Some y ->
       Forall2 (fun r r' => spec_activation_quant_row e r = Some r')
               (rows t) (rows y)) /\
  activation_quant (mkTensor [2; 0] []) = None.
Proof.
  intros x. repeat split; try reflexivity.
  intros H.
  specialize (H tiny (or_introl eq_refl) x (mkTensor [1] [pzero])
                eq_refl eq_refl).
  inversion H as [|r r' R R' Hr HR]; subst. discriminate Hr.
Qed.

Lemma Forall2_nth_error {A B : Type} (P : A -> B -> Prop)
  (l : list A) (l' : list B) (i : nat) (a : A) :
  Forall2 P l l' -> nth_error l i = Some a ->
  exists b, nth_error l' i = Some b /\ P a b.
Proof.
  intros H. revert i. induction H as [|x y l l' Hxy H IH]; intros i Hi.
  - destruct i; discriminate.
  - destruct i as [|i]; simpl in *.
    + injection Hi as ->. eauto.
    + eauto.
Qed.

Lemma max_zeros (r : list float32) (v : float32) :
  v = pzero -> Forall (fun u => is_zero u = true) r ->
  fold_left fmax (map abs r) v = pzero.
Proof.
  intros ->. induction 1 as [|u r Hu Hr IH]; simpl; [reflexivity|].
  destruct u; try discriminate. exact IH.
Qed.

Lemma zero_row_quant (row : list float32) :
  row <> [] -> Forall (fun v => is_zero v = true) row ->
  row_scale eps row = zero_row_scale /\
  spec_activation_quant_row eps row = Some row.
Proof.
  intros Hne Hz.
  assert (Hs : row_scale eps row = zero_row_scale).
  { unfold row_scale. destruct row as [|u row]; [congruence|].
    inversion Hz as [|? ? Hu Hr]; subst. simpl.
    rewrite (max_zeros row (abs u)); [reflexivity| |exact Hr].
    destruct u; try discriminate; reflexivity. }
  split; [exact Hs|].
  unfold spec_activation_quant_row. destruct row as [|u0 row0]; [congruence|].
  rewrite Hs. f_equal.
  clear Hs Hne. induction Hz as [|u row Hu Hr IH]; simpl; [reflexivity|].
  rewrite IH. f_equal. destruct u as [s| | |]; try discriminate.
  destruct s; reflexivity.
Qed.

(** C5.  On a tensor with a non-empty last dimension [activation_quant]
    does not raise, and wherever a row of the input is entirely zero the
    scale of that row is the finite [127 / eps] and the row of the
    result is entirely zero, of the same length. *)
Theorem activation_quant_zero_row (x : Tensor) :
  wf x -> last_dim (shape x) <> 0 ->
  exists y, activation_quant x = Some y /\
    forall i row,
      nth_error (rows x) i = Some row ->
      Forall (fun v => is_zero v = true) row ->
      row_scale eps row = zero_row_scale /\
      exists row', nth_error (rows y) i = Some row' /\
                   length row' = length row /\
                   Forall (fun v => is_zero v = true) row'.
Proof.
  intros Hx Hn.
  destruct (activation_quant_rows x Hx Hn) as (y & Hy & Hsh & Hwf & HF).
  exists y. split; [exact Hy|]. intros i row Hi Hz.
  assert (Hne : row <> []).
  { pose proof (rows_uniform x Hx) as HU. rewrite Forall_forall in HU.
    apply nth_error_In in Hi. specialize (HU _ Hi).
    destruct row; [simpl in HU; congruence | discriminate]. }
  destruct (zero_row_quant row Hne Hz) as [Hs Hq].
  split; [exact Hs|].
  destruct (Forall2_nth_error _ _ _ _ _ HF Hi) as (row' & Hi' & Hr).
  simpl in Hr. rewrite Hq in Hr. injection Hr as <-.
  exists row. auto.
Qed.

Lemma activation_quant_zero_row_witness :
  exists y, activation_quant zero_row_example = Some y /\
    forall i row,
      nth_error (rows zero_row_example) i = Some row ->
      Forall (fun v => is_zero v = true) row ->
      row_scale eps row = zero_row_scale /\
      exists row', nth_error (rows y) i = Some row' /\
                   length row' = length row /\
                   Forall (fun v => is_zero v = true) row'.
Proof.
  apply (activation_quant_zero_row zero_row_example);
    [reflexivity | vm_compute; lia].
Defined.

(* ================================================================== *)
(** * Weight quantization *)
(* ================================================================== *)

(** The reduction in index order is one of the floating-point sums. *)
Lemma sum_sums_to (l : list float32) : sums_to l (sum l).
Proof.
  unfold sum. induction l as [|v l IH] using rev_ind; [constructor|].
  rewrite fold_left_app. simpl.
  apply sums_app; [exact IH | constructor].
Qed.

(** Accumulators that each sum one group, added up in turn. *)
Lemma sums_to_groups (gs : list (list float32)) :
  sums_to (concat gs) (sum (map sum gs)).
Proof.
  unfold sum at 1. induction gs as [|g gs IH] using rev_ind; [constructor|].
  rewrite concat_app, map_app, fold_left_app. simpl. rewrite app_nil_r.
  apply sums_app; [exact IH | apply sum_sums_to].
Qed.

(** C4.  [weight_quant] keeps the shape of [w]; each value is
    [round(w * scale)] clamped to [-1, 1] and divided by [scale], with
    the one [scale = 1 / max(mean(|w|), 1e-5)] of the whole tensor:
    the mean is a floating-point sum [S] of the absolute values, in
    the order of the reduction, divided by the number of elements, and
    the quotient [1 / _] is the reciprocal times [1]; every value of
    the result is NaN or compares equal to one of the three levels
    [-1 / scale], [0 / scale], [+1 / scale]; the result takes at most 3
    distinct values, NaN counted. *)
Theorem weight_quant_ternary (w : Tensor) :
  exists S : float32,
    sums_to (map abs (data w)) S /\
    let mean := div S (of_nat (numel (shape w))) in
    let scale := mul (div (of_Z 1) (clamp_min mean lit_1e_5)) (of_Z 1) in
    shape (weight_quant w) = shape w /\
    data (weight_quant w) = map (quant_value (-1) 1 scale) (data w) /\
    levels (-1) 1 scale
    = [div (of_Z (-1)) scale; div pzero scale; div (of_Z 1) scale] /\
    Forall (fun v => v = S754_nan \/ on_grid (levels (-1) 1 scale) v)
           (data (weight_quant w)) /\
    at_most_values 3 (data (weight_quant w)).
Proof.
  exists (sum (map abs (data w))). split; [apply sum_sums_to|].
  intros mean scale.
  assert (Hs : scale = weight_scale w) by reflexivity.
  assert (Hd : data (weight_quant w) = map (quant_value (-1) 1 scale) (data w)).
  { unfold weight_quant, tscalar, tclamp, RoundSTE.apply, RoundSTE.forward,
      tmap. simpl. rewrite !map_map. reflexivity. }
  split; [reflexivity|]. split; [exact Hd|]. split; [reflexivity|].
  rewrite Hd. split.
  - apply Forall_forall. intros v Hv.
    apply in_map_iff in Hv. destruct Hv as (v0 & <- & _).
    apply (quant_value_on_grid 1 1); reflexivity.
  - apply (quant_values_few 1 1); try reflexivity.
    rewrite Hs. apply finite_scale_no_nan, weight_scale_nan.
Qed.

(* ================================================================== *)
(** * BitLinear *)
(* ================================================================== *)

Lemma zip_with_length (f : float32 -> float32 -> float32)
  (u v : list float32) :
  length (zip_with f u v) = Nat.min (length u) (length v).
Proof. unfold zip_with. now rewrite length_map, length_combine. Qed.

Lemma skipn_combine {A B : Type} (n : nat) (l : list A) (l' : list B) :
  skipn n (combine l l') = combine (skipn n l) (skipn n l').
Proof.
  revert l l'. induction n as [|n IH]; intros l l'; [reflexivity|].
  destruct l as [|a l]; [reflexivity|].
  destruct l' as [|b l']; simpl; [now rewrite combine_nil | apply IH].
Qed.

Lemma chunks_zip_with (f : float32 -> float32 -> float32)
  (n cnt : nat) (d1 d2 : list float32) :
  chunks n cnt (zip_with f d1 d2)
  = map (fun p => zip_with f (fst p) (snd p))
        (combine (chunks n cnt d1) (chunks n cnt d2)).
Proof.
  revert d1 d2. induction cnt as [|c IH]; intros d1 d2; simpl; [reflexivity|].
  f_equal.
  - unfold zip_with. now rewrite firstn_map, combine_firstn.
  - rewrite <- IH. f_equal. unfold zip_with.
    now rewrite skipn_map, skipn_combine.
Qed.

Lemma map_nth_seq {A B : Type} (g : A -> B) (l : list A) (d : A) :
  map g l = map (fun j => g (nth j l d)) (seq 0 (length l)).
Proof.
  induction l as [|a l IH]; simpl; [reflexivity|].
  f_equal. rewrite <- seq_shift, map_map. exact IH.
Qed.

Lemma zip_with_nth_seq (f : float32 -> float32 -> float32)
  (u v : list float32) (du dv : float32) :
  length u = length v ->
  zip_with f u v
  = map (fun j => f (nth j u du) (nth j v dv)) (seq 0 (length u)).
Proof.
  revert v. induction u as [|a u IH]; intros [|b v] H; try discriminate;
    simpl; [reflexivity|].
  unfold zip_with in *. simpl. f_equal.
  rewrite <- seq_shift, map_map. apply IH. simpl in H. lia.
Qed.

Lemma linear_row_spec (W : list (list float32)) (b : option Tensor)
  (r : list float32) :
  (forall bt, b = Some bt -> length (data bt) = length W) ->
  linear_row W b r = spec_linear_row W b r.
Proof.
  intros Hb. unfold linear_row, spec_linear_row. destruct b as [bt|].
  - rewrite (zip_with_nth_seq add _ _ (dot r []) pzero)
      by (rewrite length_map; symmetry; now apply Hb).
    rewrite length_map. apply map_ext. intros j.
    now rewrite (map_nth (dot r)).
  - apply map_nth_seq.
Qed.

Lemma linear_row_length (W : list (list float32)) (b : option Tensor)
  (r : list float32) :
  (forall bt, b = Some bt -> length (data bt) = length W) ->
  length (linear_row W b r) = length W.
Proof.
  intros Hb. unfold linear_row. destruct b as [bt|].
  - rewrite zip_with_length, length_map, (Hb bt eq_refl). apply Nat.min_id.
  - apply length_map.
Qed.

Lemma last_dim_app (ld : list nat) (n : nat) : last_dim (ld ++ [n]) = n.
Proof. apply last_last. Qed.

Lemma lead_app (ld : list nat) (n : nat) : lead (ld ++ [n]) = ld.
Proof. apply removelast_last. Qed.

Lemma nrows_app (ld : list nat) (n : nat) : nrows (ld ++ [n]) = numel ld.
Proof. unfold nrows. now rewrite lead_app. Qed.

Lemma tzip_same (f : float32 -> float32 -> float32) (a b : Tensor) :
  shape a = shape b ->
  tzip f a b = Some (mkTensor (shape a) (zip_with f (data a) (data b))).
Proof.
  intros H. unfold tzip.
  destruct (list_eq_dec Nat.eq_dec (shape a) (shape b)); [reflexivity | contradiction].
Qed.

(** The normalization of a BitLinear has no affine step. *)
Lemma LayerNorm_forward_plain (n : nat) (x : Tensor) (ld : list nat) :
  wf x -> shape x = ld ++ [n] ->
  exists y, LayerNorm_forward (LayerNorm_init n false) x = Some y /\
            shape y = shape x /\ wf y /\
            rows y = map (layer_norm_row lit_1e_5) (rows x).
Proof.
  intros Hx Hs. unfold LayerNorm_forward. simpl.
  assert (Hl : last_dim (shape x) = n) by (rewrite Hs; apply last_dim_app).
  rewrite Hl, Nat.eqb_refl.
  destruct (shape x) as [|d sh] eqn:Hsh;
    [destruct ld; discriminate|]. rewrite <- Hsh in *.
  eexists. split; [reflexivity|]. split; [reflexivity|].
  destruct (rows_of_concat (shape x)
              (map (fun r => affine_row None None (layer_norm_row lit_1e_5 r))
                   (rows x))) as [Hr Hw].
  - rewrite length_map. apply rows_length.
  - apply Forall_forall. intros r Hr. apply in_map_iff in Hr.
    destruct Hr as (r0 & <- & Hin). unfold affine_row, layer_norm_row.
    rewrite length_map.
    pose proof (rows_uniform x Hx) as HU. rewrite Forall_forall in HU.
    now apply HU.
  - split; [exact Hw | exact Hr].
Qed.

Lemma ste_rows (R Q : list (list float32)) :
  Forall2 (fun r r' => spec_activation_quant_row eps r = Some r') R Q ->
  map (fun p => zip_with add (fst p) (snd p))
      (combine R (map (fun p => zip_with sub (fst p) (snd p)) (combine Q R)))
  = spec_x_q R.
Proof.
  induction 1 as [|r q R Q Hr HF IH]; simpl; [reflexivity|].
  apply spec_row_eq in Hr. subst q. unfold spec_x_q in *. simpl.
  now rewrite IH.
Qed.

Lemma weight_ste_rows (w : Tensor) :
  rows (mkTensor (shape w)
          (zip_with add (data w)
             (zip_with sub (data (weight_quant w)) (data w))))
  = spec_w_q w.
Proof.
  assert (Hd : data (weight_quant w)
               = map (quant_value (-1) 1 (weight_scale w)) (data w)).
  { unfold weight_quant, tscalar, tclamp, RoundSTE.apply, RoundSTE.forward,
      tmap. simpl. rewrite !map_map. reflexivity. }
  rewrite Hd. unfold rows, spec_w_q. cbn [shape data].
  rewrite !chunks_zip_with, chunks_map. unfold rows.
  generalize (chunks (last_dim (shape w)) (nrows (shape w)) (data w)).
  intros R. induction R as [|r R IH]; simpl; [reflexivity|].
  now rewrite IH.
Qed.

Lemma F_linear_some (x W : Tensor) (b : option Tensor)
  (ld : list nat) (out inn : nat) :
  shape W = [out; inn] -> shape x = ld ++ [inn] ->
  bias_fits b out = true ->
  F_linear x W b
  = Some (mkTensor (ld ++ [out])
            (concat (map (linear_row (rows W) b) (rows x)))).
Proof.
  intros HW Hx Hb. unfold F_linear. rewrite HW.
  assert (Hl : last_dim (shape x) = inn) by (rewrite Hx; apply last_dim_app).
  assert (Hd : lead (shape x) = ld) by (rewrite Hx; apply lead_app).
  rewrite Hl, Hd, Nat.eqb_refl, Hb.
  destruct (shape x); [destruct ld; discriminate | reflexivity].
Qed.

Lemma bias_fits_ok (self : BitLinear) :
  BitLinear_ok self -> bias_fits (bias self) (out_features self) = true.
Proof.
  intros [_ _ Hb _]. unfold bias_fits.
  destruct (bias self) as [bt|]; [|reflexivity].
  destruct (Hb bt eq_refl) as [Hsb _].
  destruct (list_eq_dec Nat.eq_dec (shape bt) [out_features self]);
    [reflexivity | contradiction].
Qed.

(** The inner product in index order is one of the accumulations. *)
Lemma dot_accumulates (u v : list float32) :
  accumulates pzero (combine u v) (dot u v).
Proof.
  unfold dot, sum, zip_with. generalize (combine u v). intros l.
  induction l as [|p l IH] using rev_ind; [constructor|].
  rewrite map_app, fold_left_app. simpl. destruct p as [a b]. simpl.
  apply (acc_perm pzero ((a, b) :: l)); [apply Permutation_cons_append|].
  apply acc_mul_add. exact IH.
Qed.

Lemma nth_map_seq {A : Type} (f : nat -> A) (n j : nat) (d : A) :
  j < n -> nth j (map f (seq 0 n)) d = f j.
Proof.
  intros Hj. rewrite (nth_indep _ d (f 0)) by (rewrite length_map, length_seq; lia).
  rewrite (map_nth f (seq 0 n) 0 j), seq_nth by lia. reflexivity.
Qed.

(** Every entry of an output slice of [F.linear] accumulates the
    products of the input slice with one row of the weight, from the
    entry of the bias. *)
Lemma linear_row_accumulates (W : list (list float32)) (b : option Tensor)
  (r : list float32) (j : nat) :
  (forall bt, b = Some bt -> length (data bt) = length W) ->
  j < length W ->
  accumulates (bias_entry b j) (combine r (nth j W []))
    (nth j (linear_row W b r) pzero).
Proof.
  intros Hb Hj. rewrite (linear_row_spec W b r Hb). unfold spec_linear_row.
  rewrite nth_map_seq by exact Hj. cbv zeta.
  destruct b as [bt|]; simpl.
  - rewrite <- (app_nil_r (combine r (nth j W []))).
    apply acc_join_init; [apply dot_accumulates | constructor].
  - apply dot_accumulates.
Qed.

Lemma spec_w_q_at_scale (w : Tensor) :
  spec_w_q w = spec_w_q_at (weight_scale w) w.
Proof. reflexivity. Qed.

(** C1 (as amended).  For a layer with at least one input, on an input
    whose last dimension is [in_features], the forward pass of a
    BitLinear returns a tensor with the same leading dimensions and
    last dimension [out_features].  Its value is the linear transform
    [F.linear(x_q, w_q, bias)], where [x_norm] is the normalization of
    the input by a LayerNorm without parameters, the rows of [x_q] are
    [x_norm + (activation_quant(x_norm) - x_norm)] with the 8-bit
    quantization of each row written out, the rows of [w_q] are
    [w + (weight_quant(w) - w)] with the ternary quantization written
    out for the scale of the whole weight (the mean being a
    floating-point sum [S] of the absolute values divided by their
    number), and the bias is passed as it is: entry [j] of an output row
    accumulates the products of the row of [x_q] with row [j] of [w_q],
    from [bias[j]]. *)
Theorem BitLinear_forward_spec (self : BitLinear) (x : Tensor)
  (ld : list nat) :
  BitLinear_ok self -> 0 < in_features self ->
  wf x -> shape x = ld ++ [in_features self] ->
  exists (x_norm y : Tensor) (S : float32),
    LayerNorm_forward (rms_norm self) x = Some x_norm /\
    LayerNorm_parameters (rms_norm self) = [] /\
    shape x_norm = shape x /\ wf x_norm /\
    sums_to (map abs (data (weight self))) S /\
    let mean := div S (of_nat (numel (shape (weight self)))) in
    let scale := mul (div (of_Z 1) (clamp_min mean lit_1e_5)) (of_Z 1) in
    let x_q := spec_x_q (rows x_norm) in
    let w_q := spec_w_q_at scale (weight self) in
    BitLinear_forward self x = Some y /\
    shape y = ld ++ [out_features self] /\
    wf y /\
    F_linear (mkTensor (shape x) (concat x_q))
             (mkTensor (shape (weight self)) (concat w_q)) (bias self)
    = Some y /\
    length w_q = out_features self /\
    Forall2
      (fun r_q r_y =>
         length r_q = in_features self /\
         length r_y = out_features self /\
         forall j, j < out_features self ->
           accumulates (bias_entry (bias self) j)
             (combine r_q (nth j w_q [])) (nth j r_y pzero))
      x_q (rows y).
Proof.
  intros [Hws Hww Hb Hn] Hin Hx Hs.
  pose proof (mkBitLinear_ok self Hws Hww Hb Hn) as Hok.
  unfold BitLinear_forward. rewrite Hn.
  destruct (LayerNorm_forward_plain _ x ld Hx Hs)
    as (xn & Hxn & Hsn & Hwn & Hrn).
  exists xn. rewrite Hxn.
  assert (Hl : last_dim (shape xn) <> 0)
    by (rewrite Hsn, Hs, last_dim_app; lia).
  destruct (activation_quant_rows xn Hwn Hl) as (aq & -> & Hsa & Hwa & HF).
  unfold tsub, tadd, detach.
  rewrite (tzip_same sub aq xn Hsa).
  rewrite (tzip_same add xn
             (mkTensor (shape aq) (zip_with sub (data aq) (data xn)))
             (eq_sym Hsa)). cbn [shape data].
  rewrite (tzip_same sub (weight_quant (weight self)) (weight self) eq_refl).
  rewrite (tzip_same add (weight self)
             (mkTensor (shape (weight_quant (weight self)))
                (zip_with sub (data (weight_quant (weight self)))
                   (data (weight self))))
             eq_refl). cbn [shape data].
  set (xq := mkTensor (shape xn)
               (zip_with add (data xn) (zip_with sub (data aq) (data xn)))).
  set (wq := mkTensor (shape (weight self)) _).
  assert (Hwxq : wf xq).
  { unfold wf, xq. cbn [shape data].
    rewrite !zip_with_length, Hwa, Hsa, Hwn. lia. }
  assert (Hwwq : wf wq).
  { unfold wf, wq. cbn [shape data].
    rewrite !zip_with_length.
    change (length (data (weight_quant (weight self))))
      with (length (map (fun v => div v (weight_scale (weight self)))
                      (data (tclamp (RoundSTE.apply
                         (tscalar mul (weight self)
                            (weight_scale (weight self))))
                         (of_Z (-1)) (of_Z 1))))).
    unfold tclamp, RoundSTE.apply, RoundSTE.forward, tscalar, tmap.
    cbn [data shape]. rewrite !length_map, Hww. lia. }
  assert (Hrq : rows xq = spec_x_q (rows xn)).
  { unfold xq, rows. cbn [shape data]. rewrite !chunks_zip_with.
    rewrite <- Hsa at 3 4. apply (ste_rows (rows xn) (rows aq) HF). }
  assert (Hrw : rows wq = spec_w_q (weight self))
    by apply weight_ste_rows.
  assert (Hlw : length (rows wq) = out_features self).
  { rewrite rows_length. unfold wq. cbn [shape]. rewrite Hws.
    unfold nrows. simpl. lia. }
  assert (Hbl : forall bt, bias self = Some bt ->
                           length (data bt) = length (rows wq)).
  { intros bt Hbt. destruct (Hb bt Hbt) as [Hsb Hwb].
    rewrite Hlw, Hwb, Hsb. simpl. lia. }
  assert (Exq : mkTensor (shape x) (concat (spec_x_q (rows xn))) = xq).
  { rewrite <- Hrq, (concat_rows xq Hwxq). unfold xq. cbn [shape data].
    rewrite Hsn. reflexivity. }
  assert (Ewq : mkTensor (shape (weight self))
                  (concat (spec_w_q (weight self))) = wq).
  { rewrite <- Hrw, (concat_rows wq Hwwq). reflexivity. }
  rewrite (F_linear_some xq wq (bias self) ld (out_features self)
             (in_features self) Hws (eq_trans Hsn Hs)
             (bias_fits_ok self Hok)).
  eexists. exists (sum (map abs (data (weight self)))).
  split; [reflexivity|]. split; [reflexivity|].
  split; [exact Hsn|]. split; [exact Hwn|].
  split; [apply sum_sums_to|]. cbv zeta.
  change (mul (div (of_Z 1)
                 (clamp_min
                    (div (sum (map abs (data (weight self))))
                       (of_nat (numel (shape (weight self))))) lit_1e_5))
              (of_Z 1))
    with (weight_scale (weight self)).
  rewrite <- spec_w_q_at_scale, Exq, Ewq.
  split; [reflexivity|]. split; [reflexivity|].
  destruct (rows_of_concat (ld ++ [out_features self])
              (map (linear_row (rows wq) (bias self)) (rows xq)))
    as [Hr Hw].
  { rewrite length_map, rows_length, nrows_app. unfold xq. cbn [shape].
    rewrite Hsn, Hs. apply nrows_app. }
  { apply Forall_forall. intros r Hr. apply in_map_iff in Hr.
    destruct Hr as (r0 & <- & _).
    rewrite last_dim_app, (linear_row_length _ _ _ Hbl). exact Hlw. }
  split; [exact Hw|].
  split.
  { rewrite (F_linear_some xq wq (bias self) ld (out_features self)
               (in_features self) Hws (eq_trans Hsn Hs)
               (bias_fits_ok self Hok)). reflexivity. }
  split; [rewrite <- Hrw; exact Hlw|].
  rewrite Hr, <- Hrq, <- Hrw.
  pose proof (rows_uniform xq Hwxq) as HU.
  assert (Hld : last_dim (shape xq) = in_features self).
  { unfold xq. cbn [shape]. rewrite Hsn, Hs. apply last_dim_app. }
  rewrite Hld in HU. clear - HU Hbl Hlw.
  induction (rows xq) as [|r R IH]; simpl; constructor.
  - inversion HU; subst. split; [assumption|].
    split; [rewrite (linear_row_length _ _ _ Hbl); exact Hlw|].
    intros j Hj. apply linear_row_accumulates; [exact Hbl | lia].
  - apply IH. inversion HU; assumption.
Qed.

Lemma BitLinear_forward_spec_witness :
  exists (x_norm y : Tensor) (S : float32),
    LayerNorm_forward (rms_norm linear_example) linear_input = Some x_norm /\
    LayerNorm_parameters (rms_norm linear_example) = [] /\
    shape x_norm = shape linear_input /\ wf x_norm /\
    sums_to (map abs (data (weight linear_example))) S /\
    let mean := div S (of_nat (numel (shape (weight linear_example)))) in
    let scale := mul (div (of_Z 1) (clamp_min mean lit_1e_5)) (of_Z 1) in
    let x_q := spec_x_q (rows x_norm) in
    let w_q := spec_w_q_at scale (weight linear_example) in
    BitLinear_forward linear_example linear_input = Some y /\
    shape y = [2] ++ [out_features linear_example] /\
    wf y /\
    F_linear (mkTensor (shape linear_input) (concat x_q))
             (mkTensor (shape (weight linear_example)) (concat w_q))
             (bias linear_example)
    = Some y /\
    length w_q = out_features linear_example /\
    Forall2
      (fun r_q r_y =>
         length r_q = in_features linear_example /\
         length r_y = out_features linear_example /\
         forall j, j < out_features linear_example ->
           accumulates (bias_entry (bias linear_example) j)
             (combine r_q (nth j w_q [])) (nth j r_y pzero))
      x_q (rows y).
Proof.
  apply (BitLinear_forward_spec linear_example linear_input [2]).
  - constructor; try reflexivity.
    intros b Hb. injection Hb as <-. split; reflexivity.
  - simpl. lia.
  - reflexivity.
  - reflexivity.
Defined.

(** C1, as stated, fails for a layer without inputs, which the
    constructor builds: the last dimension of a batch of empty rows
    equals [in_features = 0], and the forward pass raises, in the [max]
    reduction of [activation_quant] over the empty last dimension. *)
Lemma BitLinear_zero_width_counterexample :
  BitLinear_ok zero_width_layer /\
  wf zero_width_input /\
  last_dim (shape zero_width_input) = in_features zero_width_layer /\
  BitLinear_forward zero_width_layer zero_width_input = None /\
  activation_quant zero_width_input = None /\
  (exists l s', @BitLinear_init counter_backend 0 1 true 0 = Some (l, s') /\
                BitLinear_forward l zero_width_input = None) /\
  ~ (forall (self : BitLinear) (x : Tensor),
       BitLinear_ok self -> wf x ->
       last_dim (shape x) = in_features self -> shape x <> [] ->
       exists y, BitLinear_forward self x = Some y).
Proof.
  assert (Hok : BitLinear_ok zero_width_layer).
  { constructor; try reflexivity.
    intros b Hb. injection Hb as <-. split; reflexivity. }
  split; [exact Hok|]. split; [reflexivity|]. split; [reflexivity|].
  split; [reflexivity|]. split; [reflexivity|].
  split; [eexists; eexists; split; reflexivity|].
  intros H.
  destruct (H zero_width_layer zero_width_input Hok eq_refl eq_refl
              ltac:(discriminate)) as (y & Hy).
  discriminate Hy.
Qed.

(** ** Success and shape of the layers, whatever the data *)

Lemma LayerNorm_forward_shape (ln : LayerNorm) (x : Tensor) (ld : list nat) :
  shape x = ld ++ [normalized_shape ln] ->
  exists y, LayerNorm_forward ln x = Some y /\ shape y = shape x.
Proof.
  intros Hs. unfold LayerNorm_forward.
  assert (Hl : last_dim (shape x) = normalized_shape ln)
    by (rewrite Hs; apply last_dim_app).
  rewrite Hl, Nat.eqb_refl.
  destruct (shape x) eqn:Hsh; [destruct ld; discriminate|].
  eexists. split; [reflexivity | simpl; congruence].
Qed.

Lemma LayerNorm_forward_inv (ln : LayerNorm) (x y : Tensor) :
  LayerNorm_forward ln x = Some y ->
  last_dim (shape x) = normalized_shape ln /\ shape x <> [] /\
  shape y = shape x.
Proof.
  unfold LayerNorm_forward. destruct (shape x) as [|d sh] eqn:Hsh;
    [discriminate|].
  destruct (Nat.eqb_spec (last_dim (d :: sh)) (normalized_shape ln))
    as [He|He]; [|discriminate].
  intros [= <-]. simpl. repeat split; congruence.
Qed.

Lemma activation_quant_shape (x : Tensor) :
  last_dim (shape x) <> 0 ->
  exists y, activation_quant x = Some y /\ shape y = shape x.
Proof.
  intros Hn. unfold activation_quant, max_lastdim.
  change (shape (tabs x)) with (shape x).
  destruct (Nat.eqb_spec (last_dim (shape x)) 0) as [H0|_]; [contradiction|].
  eexists. split; reflexivity.
Qed.

Lemma BitLinear_forward_shape (self : BitLinear) (x : Tensor)
  (ld : list nat) :
  BitLinear_ok self -> 0 < in_features self ->
  shape x = ld ++ [in_features self] ->
  exists y, BitLinear_forward self x = Some y /\
            shape y = ld ++ [out_features self].
Proof.
  intros Hok Hin Hs. pose proof Hok as [Hws Hww Hb Hn].
  unfold BitLinear_forward. rewrite Hn.
  destruct (LayerNorm_forward_shape (LayerNorm_init (in_features self) false)
              x ld Hs) as (xn & -> & Hsn).
  destruct (activation_quant_shape xn) as (aq & -> & Hsa).
  { rewrite Hsn, Hs, last_dim_app. lia. }
  unfold tsub, tadd, detach.
  rewrite (tzip_same sub aq xn Hsa).
  rewrite (tzip_same add xn
             (mkTensor (shape aq) (zip_with sub (data aq) (data xn)))
             (eq_sym Hsa)). cbn [shape data].
  rewrite (tzip_same sub (weight_quant (weight self)) (weight self) eq_refl).
  rewrite (tzip_same add (weight self)
             (mkTensor (shape (weight_quant (weight self)))
                (zip_with sub (data (weight_quant (weight self)))
                   (data (weight self))))
             eq_refl). cbn [shape data].
  match goal with
  | |- context [F_linear ?a ?b _] =>
      rewrite (F_linear_some a b (bias self) ld (out_features self)
                 (in_features self) Hws (eq_trans Hsn Hs)
                 (bias_fits_ok self Hok))
  end.
  eexists. split; reflexivity.
Qed.

Lemma BitLinear_forward_inv (self : BitLinear) (x y : Tensor) :
  BitLinear_ok self ->
  BitLinear_forward self x = Some y ->
  last_dim (shape x) = in_features self /\ shape x <> [].
Proof.
  intros [_ _ _ Hn]. unfold BitLinear_forward. rewrite Hn.
  destruct (LayerNorm_forward _ x) as [xn|] eqn:Hxn; [|discriminate].
  intros _. apply LayerNorm_forward_inv in Hxn. simpl in Hxn. tauto.
Qed.

(* ================================================================== *)
(** * InputEmbedding *)
(* ================================================================== *)

Lemma tab_length (n : nat) (f : nat -> float32) : length (tab n f) = n.
Proof. unfold tab. now rewrite length_map, length_seq. Qed.

Lemma nth_tab (n : nat) (f : nat -> float32) (i : nat) :
  i < n -> nth i (tab n f) pzero = f i.
Proof.
  intros Hi. unfold tab.
  rewrite (nth_indep _ pzero (f 0)) by (rewrite length_map, length_seq; exact Hi).
  rewrite map_nth, seq_nth by exact Hi. reflexivity.
Qed.

Lemma nth_zip_with (f : float32 -> float32 -> float32)
  (u v : list float32) (i : nat) :
  i < length u -> i < length v ->
  nth i (zip_with f u v) pzero = f (nth i u pzero) (nth i v pzero).
Proof.
  revert v i. induction u as [|a u IH]; intros [|b v] [|i] Hu Hv;
    simpl in *; try lia; [reflexivity|].
  apply IH; lia.
Qed.

Lemma flat3_bound (b i k Bn T L : nat) :
  b < Bn -> i < T -> k < L -> (b * T + i) * L + k < Bn * T * L.
Proof.
  intros Hb Hi Hk.
  assert (H1 : b * T + i + 1 <= Bn * T) by nia.
  assert (H2 : (b * T + i + 1) * L <= Bn * T * L)
    by (apply Nat.mul_le_mono_r; exact H1).
  lia.
Qed.

Lemma flat3_decode (b i k T L : nat) :
  i < T -> k < L ->
  ((b * T + i) * L + k) mod L = k /\
  (((b * T + i) * L + k) / L) mod T = i /\
  ((b * T + i) * L + k) / (L * T) = b.
Proof.
  intros Hi Hk.
  assert (Hq : ((b * T + i) * L + k) / L = b * T + i).
  { rewrite Nat.div_add_l by lia. rewrite (Nat.div_small k L) by lia. lia. }
  repeat split.
  - rewrite Nat.add_comm, Nat.Div0.mod_add. now apply Nat.mod_small.
  - rewrite Hq, Nat.add_comm, Nat.Div0.mod_add. now apply Nat.mod_small.
  - rewrite <- Nat.Div0.div_div, Hq.
    rewrite Nat.div_add_l by lia. rewrite (Nat.div_small i T) by lia. lia.
Qed.

Lemma rearrange_patches_some (x : Tensor) (p Bn C H W : nat) :
  0 < p -> shape x = [Bn; C; H; W] ->
  H mod p = 0 -> W mod p = 0 ->
  exists y, rearrange_patches x p = Some y /\
            shape y = [Bn; H / p * (W / p)] ++ [p * p * C].
Proof.
  intros Hp Hs HH HW. unfold rearrange_patches. rewrite Hs.
  destruct (Nat.eqb_spec p 0) as [?|_]; [lia|].
  rewrite HH, HW. simpl. eexists. split; reflexivity.
Qed.

Lemma rearrange_patches_inv (x y : Tensor) (p Bn C H W : nat) :
  shape x = [Bn; C; H; W] ->
  rearrange_patches x p = Some y ->
  H mod p = 0 /\ W mod p = 0 /\ p <> 0.
Proof.
  intros Hs. unfold rearrange_patches. rewrite Hs.
  destruct (Nat.eqb_spec p 0) as [?|Hp]; [discriminate|].
  destruct (Nat.eqb_spec (H mod p) 0) as [HH|?]; [|discriminate].
  destruct (Nat.eqb_spec (W mod p) 0) as [HW|?]; [|discriminate].
  auto.
Qed.

Lemma expand3_some (t : Tensor) (b m l : nat) :
  shape t = [1; 1; l] ->
  expand3 t b m
  = Some (mkTensor [b; m; l] (tab (b * m * l) (fun i => get t (i mod l)))).
Proof. intros H. unfold expand3. now rewrite H. Qed.

Lemma cat_dim1_some (u v : Tensor) (b m1 m2 l : nat) :
  shape u = [b; m1; l] -> shape v = [b; m2; l] ->
  cat_dim1 u v
  = Some (mkTensor [b; m1 + m2; l]
            (tab (b * (m1 + m2) * l)
               (fun i =>
                  let k := i mod l in
                  let j := (i / l) mod (m1 + m2) in
                  let bi := i / (l * (m1 + m2)) in
                  if j <? m1 then get3 u bi j k
                  else get3 v bi (j - m1) k))).
Proof.
  intros Hu Hv. unfold cat_dim1. now rewrite Hu, Hv, !Nat.eqb_refl.
Qed.

(** The forward pass, step by step, on an image whose channels fit
    and whose sides are multiples of the patch size. *)
Lemma InputEmbedding_forward_steps (self : InputEmbedding) (x : Tensor)
  (Bn H W : nat) :
  InputEmbedding_ok self ->
  0 < patch_size self -> 0 < n_channels self ->
  shape x = [Bn; n_channels self; H; W] ->
  H mod patch_size self = 0 -> W mod patch_size self = 0 ->
  let n := H / patch_size self * (W / patch_size self) in
  let L := emb_latent_size self in
  exists patches proj ct cat pe y,
    rearrange_patches x (patch_size self) = Some patches /\
    BitLinear_forward (bitlinearProjection self) patches = Some proj /\
    shape proj = [Bn; n; L] /\
    expand3 (class_token self) Bn 1 = Some ct /\
    cat_dim1 ct proj = Some cat /\
    pos_embed self Bn n = Some pe /\
    tadd cat pe = Some y /\
    InputEmbedding_forward self x = Some y /\
    shape y = [Bn; 1 + n; L] /\
    data y = zip_with add (data cat) (data pe).
Proof.
  intros [Hpr Hpi Hpo Hct Hpe] Hp Hc Hs HH HW n L.
  destruct (rearrange_patches_some x _ _ _ _ _ Hp Hs HH HW)
    as (patches & Hre & Hsp).
  rewrite <- Hpi in Hsp.
  destruct (BitLinear_forward_shape _ patches _ Hpr ltac:(rewrite Hpi; nia) Hsp)
    as (proj & Hproj & Hsproj).
  rewrite Hpo in Hsproj. simpl in Hsproj. fold n L in Hsproj.
  pose proof (expand3_some (class_token self) Bn 1 L Hct) as Hect.
  set (ct := mkTensor [Bn; 1; L] _) in Hect.
  pose proof (cat_dim1_some ct proj Bn 1 n L eq_refl Hsproj) as Hcat.
  set (cat := mkTensor [Bn; 1 + n; L] _) in Hcat.
  pose proof (expand3_some (pos_embedding self) Bn (n + 1) L Hpe) as Hpe'.
  set (pe := mkTensor [Bn; n + 1; L] _) in Hpe'.
  assert (Hab : shape cat = shape pe)
    by (cbn [shape cat pe]; f_equal; f_equal; lia).
  pose proof (tzip_same add cat pe Hab) as Hy.
  exists patches, proj, ct, cat, pe,
    (mkTensor (shape cat) (zip_with add (data cat) (data pe))).
  repeat (split; [assumption|]).
  split; [|split; reflexivity].
  unfold InputEmbedding_forward, pos_embed in *.
  rewrite Hre, Hproj, Hsproj, Hect, Hcat, Hpe'. exact Hy.
Qed.

(** From [Some t = Some x], replace the variable [x] by [t] without
    simplifying [t]. *)
Ltac some_subst H :=
  match type of H with
  | Some ?t = Some ?x =>
      let E := fresh in
      assert (E : x = t) by (symmetry; congruence); clear H; subst x
  end.

Lemma get3_tab (Bn T L : nat) (f : nat -> float32) (b i k : nat) :
  b < Bn -> i < T -> k < L ->
  get3 (mkTensor [Bn; T; L] (tab (Bn * T * L) f)) b i k
  = f ((b * T + i) * L + k).
Proof.
  intros Hb Hi Hk. unfold get3, get. cbn [shape data].
  apply nth_tab. now apply flat3_bound.
Qed.

Lemma expand3_get3 (t : Tensor) (Bn m l b i k : nat) :
  b < Bn -> i < m -> k < l ->
  get3 (mkTensor [Bn; m; l] (tab (Bn * m * l) (fun j => get t (j mod l))))
       b i k
  = get t k.
Proof.
  intros Hb Hi Hk. rewrite get3_tab by assumption.
  now destruct (flat3_decode b i k m l Hi Hk) as (-> & _ & _).
Qed.

(** Entry [(h1, w1, c)] of patch [(hi, wi)] is pixel
    [(hi * p + h1, wi * p + w1)] of channel [c]. *)
Lemma rearrange_patches_get (x y : Tensor) (p Bn C H W : nat)
  (b hi wi h1 w1 c : nat) :
  shape x = [Bn; C; H; W] ->
  rearrange_patches x p = Some y ->
  b < Bn -> hi < H / p -> wi < W / p -> h1 < p -> w1 < p -> c < C ->
  get3 y b (hi * (W / p) + wi) ((h1 * p + w1) * C + c)
  = get4 x b c (hi * p + h1) (wi * p + w1).
Proof.
  intros Hs Hy Hb Hhi Hwi Hh1 Hw1 Hc.
  unfold rearrange_patches in Hy. rewrite Hs in Hy.
  destruct (p =? 0); [discriminate|].
  destruct ((H mod p =? 0) && (W mod p =? 0)); [|discriminate].
  some_subst Hy.
  assert (Hn : hi * (W / p) + wi < H / p * (W / p)) by nia.
  assert (Hk : (h1 * p + w1) * C + c < p * p * C).
  { pose proof (flat3_bound 0 h1 w1 1 p p ltac:(lia) Hh1 Hw1). nia. }
  rewrite get3_tab by assumption. cbv zeta.
  destruct (flat3_decode b (hi * (W / p) + wi) ((h1 * p + w1) * C + c)
              (H / p * (W / p)) (p * p * C) Hn Hk) as (-> & -> & ->).
  assert (Hd1 : ((h1 * p + w1) * C + c) mod C = c)
    by (rewrite Nat.add_comm, Nat.Div0.mod_add; now apply Nat.mod_small).
  assert (Hq : ((h1 * p + w1) * C + c) / C = h1 * p + w1)
    by (rewrite Nat.div_add_l by lia; rewrite (Nat.div_small c C) by lia; lia).
  assert (Hd2 : (((h1 * p + w1) * C + c) / C) mod p = w1)
    by (rewrite Hq, Nat.add_comm, Nat.Div0.mod_add; now apply Nat.mod_small).
  assert (Hd3 : ((h1 * p + w1) * C + c) / (C * p) = h1).
  { rewrite <- Nat.Div0.div_div, Hq.
    rewrite Nat.div_add_l by lia. rewrite (Nat.div_small w1 p) by lia. lia. }
  assert (Hd4 : (hi * (W / p) + wi) / (W / p) = hi).
  { rewrite Nat.div_add_l by lia.
    rewrite (Nat.div_small wi (W / p)) by lia. lia. }
  assert (Hd5 : (hi * (W / p) + wi) mod (W / p) = wi)
    by (rewrite Nat.add_comm, Nat.Div0.mod_add; now apply Nat.mod_small).
  rewrite Hd1, Hd2, Hd3, Hd4, Hd5. reflexivity.
Qed.

(** What a successful forward pass requires of the image. *)
Lemma InputEmbedding_forward_needs (self : InputEmbedding) (x y : Tensor)
  (Bn C H W : nat) :
  InputEmbedding_ok self -> 0 < patch_size self ->
  shape x = [Bn; C; H; W] ->
  InputEmbedding_forward self x = Some y ->
  C = n_channels self /\
  H mod patch_size self = 0 /\ W mod patch_size self = 0.
Proof.
  intros Hok Hp Hs Hy. unfold InputEmbedding_forward in Hy.
  destruct (rearrange_patches x (patch_size self)) as [patches|] eqn:Hre;
    [|discriminate].
  destruct (BitLinear_forward (bitlinearProjection self) patches)
    as [proj|] eqn:Hproj; [|discriminate].
  destruct (rearrange_patches_inv x patches _ _ _ _ _ Hs Hre)
    as (HH & HW & _).
  destruct (rearrange_patches_some x _ _ _ _ _ Hp Hs HH HW)
    as (patches' & Hre' & Hsp).
  rewrite Hre in Hre'. some_subst Hre'.
  destruct (BitLinear_forward_inv _ _ _ (ok_proj _ Hok) Hproj) as [Hl _].
  rewrite Hsp, last_dim_app, (ok_proj_in _ Hok) in Hl.
  split; [|split; assumption].
  assert (Hpp : 0 < patch_size self * patch_size self) by nia.
  nia.
Qed.

(** C6 (as amended).  On a batch of shape [[B; C; H; W]] the forward
    pass of the patch embedding succeeds exactly when [C] is the
    number of channels of the module and the patch size divides both
    [H] and [W]; its result has shape
    [[B; (H / patch_size) * (W / patch_size) + 1; latent]], holds the
    class token (plus the positional term) at sequence index 0 and
    the projected patches (plus the positional term) after it. *)
Theorem InputEmbedding_forward_shape (self : InputEmbedding) (x : Tensor)
  (Bn C H W : nat) :
  InputEmbedding_ok self ->
  0 < patch_size self -> 0 < n_channels self ->
  shape x = [Bn; C; H; W] ->
  let p := patch_size self in
  let n := H / p * (W / p) in
  let L := emb_latent_size self in
  ((exists y, InputEmbedding_forward self x = Some y) <->
   (C = n_channels self /\ Nat.divide p H /\ Nat.divide p W)) /\
  (forall y, InputEmbedding_forward self x = Some y ->
     shape y = [Bn; n + 1; L] /\
     exists patches proj,
       rearrange_patches x p = Some patches /\
       BitLinear_forward (bitlinearProjection self) patches = Some proj /\
       shape proj = [Bn; n; L] /\
       forall b k, b < Bn -> k < L ->
         get3 y b 0 k
         = add (get (class_token self) k) (get (pos_embedding self) k) /\
         forall i, i < n ->
           get3 y b (S i) k
           = add (get3 proj b i k) (get (pos_embedding self) k)).
Proof.
  intros Hok Hp Hc Hs p n L.
  assert (Hnec : forall y, InputEmbedding_forward self x = Some y ->
                 C = n_channels self /\ H mod p = 0 /\ W mod p = 0)
    by (intros y Hy;
        exact (InputEmbedding_forward_needs self x y Bn C H W Hok Hp Hs Hy)).
  split.
  - split.
    + intros (y & Hy). destruct (Hnec y Hy) as (HC & HH & HW).
      split; [exact HC|]. split; apply Nat.Lcm0.mod_divide; assumption.
    + intros (HC & HH & HW). subst C.
      apply Nat.Lcm0.mod_divide in HH, HW.
      destruct (InputEmbedding_forward_steps self x Bn H W Hok Hp Hc Hs HH HW)
        as (patches & proj & ct & cat & pe & y & _ & _ & _ & _ & _ & _ & _
            & Hy & _).
      exists y. exact Hy.
  - intros y Hy. destruct (Hnec y Hy) as (HC & HH & HW). subst C.
    destruct (InputEmbedding_forward_steps self x Bn H W Hok Hp Hc Hs HH HW)
      as (patches & proj & ct & cat & pe & y' & Hre & Hproj & Hsproj & Hect
          & Hcat & Hpe & _ & Hy' & Hsy & Hdy).
    rewrite Hy in Hy'. injection Hy' as <-.
    fold p n L in Hsproj, Hsy, Hect, Hcat, Hpe, Hre.
    split; [rewrite Hsy; f_equal; f_equal; lia|].
    exists patches, proj. repeat (split; [assumption|]).
    unfold pos_embed in Hpe.
    rewrite (expand3_some _ Bn 1 L (ok_class_token _ Hok)) in Hect.
    some_subst Hect.
    match type of Hcat with
    | cat_dim1 ?u _ = _ =>
        rewrite (cat_dim1_some u proj Bn 1 n L eq_refl Hsproj) in Hcat
    end.
    some_subst Hcat.
    rewrite (expand3_some _ Bn (n + 1) L (ok_pos_embedding _ Hok)) in Hpe.
    some_subst Hpe.
    assert (Hget : forall b j k, b < Bn -> j < 1 + n -> k < L ->
              get3 y b j k
              = add (if j <? 1
                     then get (class_token self) k
                     else get3 proj b (j - 1) k)
                    (get (pos_embedding self) k)).
    { intros b j k Hb Hj Hk.
      pose proof (flat3_bound b j k Bn (1 + n) L Hb Hj Hk) as Hidx.
      destruct (flat3_decode b j k (1 + n) L Hj Hk) as (Hd1 & Hd2 & Hd3).
      unfold get3 at 1. rewrite Hsy. unfold get. rewrite Hdy. cbn [data].
      rewrite nth_zip_with
        by (rewrite tab_length;
            first [exact Hidx
                  | replace (n + 1) with (1 + n) by lia; exact Hidx]).
      rewrite !nth_tab
        by (first [exact Hidx
                  | replace (n + 1) with (1 + n) by lia; exact Hidx]).
      cbv zeta. rewrite Hd1, Hd2, Hd3. f_equal.
      destruct (Nat.ltb_spec j 1) as [Hj1|Hj1]; [|reflexivity].
      apply (expand3_get3 (class_token self)); lia. }
    intros b k Hb Hk. split.
    + rewrite (Hget b 0 k) by lia. reflexivity.
    + intros i Hi. rewrite (Hget b (S i) k) by lia. simpl.
      now rewrite Nat.sub_0_r.
Qed.

Lemma embedding_example_ok : InputEmbedding_ok embedding_example.
Proof.
  constructor; try reflexivity.
  constructor; try reflexivity.
  intros b Hb. injection Hb as <-. split; reflexivity.
Qed.

Lemma InputEmbedding_forward_shape_witness :
  let self := embedding_example in
  let x := zeros [2; 3; 32; 16] in
  let p := patch_size self in
  let n := 32 / p * (16 / p) in
  let L := emb_latent_size self in
  ((exists y, InputEmbedding_forward self x = Some y) <->
   (3 = n_channels self /\ Nat.divide p 32 /\ Nat.divide p 16)) /\
  (forall y, InputEmbedding_forward self x = Some y ->
     shape y = [2; n + 1; L] /\
     exists patches proj,
       rearrange_patches x p = Some patches /\
       BitLinear_forward (bitlinearProjection self) patches = Some proj /\
       shape proj = [2; n; L] /\
       forall b k, b < 2 -> k < L ->
         get3 y b 0 k
         = add (get (class_token self) k) (get (pos_embedding self) k) /\
         forall i, i < n ->
           get3 y b (S i) k
           = add (get3 proj b i k) (get (pos_embedding self) k)).
Proof.
  apply (InputEmbedding_forward_shape embedding_example
           (zeros [2; 3; 32; 16]) 2 3 32 16).
  - exact embedding_example_ok.
  - simpl. lia.
  - simpl. lia.
  - reflexivity.
Defined.

(** C6, as stated, fails: a batch whose sides are multiples of the
    patch size is still refused when its channel count is not the one
    the module was built for.  A one-channel [16 x 16] image given to
    the embedding of 3-channel images with patches of side 16 raises
    in the projection, although 16 divides both sides. *)
Lemma InputEmbedding_channels_counterexample :
  ~ (forall (self : InputEmbedding) (x : Tensor) (Bn C H W : nat),
       InputEmbedding_ok self ->
       0 < patch_size self -> 0 < n_channels self ->
       shape x = [Bn; C; H; W] ->
       ((exists y, InputEmbedding_forward self x = Some y) <->
        (Nat.divide (patch_size self) H /\ Nat.divide (patch_size self) W))).
Proof.
  intros Hclaim.
  specialize (Hclaim embedding_example (zeros [1; 1; 16; 16]) 1 1 16 16
                embedding_example_ok).
  destruct Hclaim as [_ Hsucc]; try (simpl; lia); try reflexivity.
  destruct Hsucc as (y & Hy).
  - split; exists 1; reflexivity.
  - assert (Hnone : InputEmbedding_forward embedding_example
                      (zeros [1; 1; 16; 16]) = None) by (vm_compute; reflexivity).
    congruence.
Qed.

(** C7.  The positional term the forward pass adds is the one vector
    [pos_embedding] at every batch entry and every sequence position,
    the class-token position 0 included: for any two positions [i]
    and [j] the added vectors are equal. *)
Theorem pos_embed_broadcast (self : InputEmbedding) (x y : Tensor)
  (Bn C H W : nat) :
  InputEmbedding_ok self ->
  0 < patch_size self -> 0 < n_channels self ->
  shape x = [Bn; C; H; W] ->
  InputEmbedding_forward self x = Some y ->
  let n := H / patch_size self * (W / patch_size self) in
  exists cat pe,
    pos_embed self Bn n = Some pe /\
    tadd cat pe = Some y /\
    shape pe = [Bn; n + 1; emb_latent_size self] /\
    forall b i j k,
      b < Bn -> i < n + 1 -> j < n + 1 -> k < emb_latent_size self ->
      get3 pe b i k = get (pos_embedding self) k /\
      get3 pe b i k = get3 pe b j k.
Proof.
  intros Hok Hp Hc Hs Hy n.
  destruct (InputEmbedding_forward_needs self x y Bn C H W Hok Hp Hs Hy)
    as (-> & HH & HW).
  destruct (InputEmbedding_forward_steps self x Bn H W Hok Hp Hc Hs HH HW)
    as (patches & proj & ct & cat & pe & y' & _ & _ & _ & _ & _ & Hpe & Hadd
        & Hy' & _).
  rewrite Hy in Hy'. some_subst Hy'.
  exists cat, pe. split; [exact Hpe|]. split; [exact Hadd|].
  unfold pos_embed in Hpe.
  rewrite (expand3_some _ Bn _ _ (ok_pos_embedding _ Hok)) in Hpe.
  some_subst Hpe. split; [reflexivity|].
  intros b i j k Hb Hi Hj Hk.
  rewrite !(expand3_get3 (pos_embedding self)) by assumption.
  split; reflexivity.
Qed.

Lemma embedding_example_forward :
  exists y,
    InputEmbedding_forward embedding_example (zeros [2; 3; 32; 16]) = Some y.
Proof.
  destruct (InputEmbedding_forward_steps embedding_example
              (zeros [2; 3; 32; 16]) 2 32 16 embedding_example_ok)
    as (patches & proj & ct & cat & pe & y & _ & _ & _ & _ & _ & _ & _
        & Hy & _); try reflexivity; try (simpl; lia).
  exists y. exact Hy.
Qed.

Lemma pos_embed_broadcast_witness :
  exists y,
    InputEmbedding_forward embedding_example (zeros [2; 3; 32; 16]) = Some y /\
    exists cat pe,
      pos_embed embedding_example 2 2 = Some pe /\
      tadd cat pe = Some y /\
      shape pe = [2; 2 + 1; 1] /\
      forall b i j k,
        b < 2 -> i < 2 + 1 -> j < 2 + 1 -> k < 1 ->
        get3 pe b i k = get (pos_embedding embedding_example) k /\
        get3 pe b i k = get3 pe b j k.
Proof.
  destruct embedding_example_forward as [y Hy]. exists y. split; [exact Hy|].
  apply (pos_embed_broadcast embedding_example (zeros [2; 3; 32; 16]) y
           2 3 32 16 embedding_example_ok);
    [simpl; lia | simpl; lia | reflexivity | exact Hy].
Defined.

(* ================================================================== *)
(** * Constructors *)
(* ================================================================== *)

Section ModelFacts.

Context {B : Backend}.

Lemma draws_length (f : rng -> float32 * rng) (n : nat) (s : rng) :
  length (fst (draws f n s)) = n.
Proof.
  revert s. induction n as [|n IH]; intros s; simpl; [reflexivity|].
  destruct (f s) as [v s1]. specialize (IH s1).
  destruct (draws f n s1) as [vs s2]. simpl in *. now rewrite IH.
Qed.

Lemma uniform_sym_ok (sh : list nat) (bound : float32) (s : rng) :
  exists t s', uniform_sym sh bound s = Some (t, s') /\
               shape t = sh /\ wf t.
Proof.
  unfold uniform_sym. pose proof (draws_length next_uniform (numel sh) s) as Hl.
  destruct (draws next_uniform (numel sh) s) as [d s']. simpl in Hl.
  eexists. eexists. split; [reflexivity|]. split; [reflexivity|].
  unfold wf. simpl. now rewrite length_map.
Qed.

Lemma randn_ok (sh : list nat) (s : rng) :
  exists t s', randn sh s = Some (t, s') /\ shape t = sh /\ wf t.
Proof.
  unfold randn. pose proof (draws_length next_normal (numel sh) s) as Hl.
  destruct (draws next_normal (numel sh) s) as [d s']. simpl in Hl.
  eexists. eexists. split; [reflexivity|]. split; [reflexivity|]. exact Hl.
Qed.

Lemma BitLinear_init_ok (in_f out_f : nat) (with_bias : bool) (s : rng) :
  exists l s', BitLinear_init in_f out_f with_bias s = Some (l, s') /\
               BitLinear_ok l /\
               in_features l = in_f /\ out_features l = out_f.
Proof.
  unfold BitLinear_init, bind.
  set (bound := if in_f =? 0 then pzero
                else div (of_Z 1) (sqrt (of_nat in_f))).
  destruct (uniform_sym_ok [out_f; in_f] bound s)
    as (w & s1 & -> & Hsw & Hww).
  destruct with_bias.
  - destruct (uniform_sym_ok [out_f] bound s1)
      as (b & s2 & -> & Hsb & Hwb).
    eexists. eexists. split; [reflexivity|].
    split; [|split; reflexivity].
    constructor; simpl; try assumption; try reflexivity.
    intros b0 [= <-]. split; assumption.
  - eexists. eexists. split; [reflexivity|].
    split; [|split; reflexivity].
    constructor; simpl; try assumption; try reflexivity.
    intros b0 Hb0. discriminate.
Qed.

Lemma InputEmbedding_init_ok (p c latent : nat) (s : rng) :
  exists e s', InputEmbedding_init p c latent s = Some (e, s') /\
               InputEmbedding_ok e /\
               patch_size e = p /\ n_channels e = c /\
               emb_latent_size e = latent.
Proof.
  unfold InputEmbedding_init, bind.
  destruct (BitLinear_init_ok (p * p * c) latent true s)
    as (l & s1 & -> & Hl & Hi & Ho).
  destruct (randn_ok [1; 1; latent] s1) as (ct & s2 & -> & Hct & _).
  destruct (randn_ok [1; 1; latent] s2) as (pe & s3 & -> & Hpe & _).
  eexists. eexists. split; [reflexivity|].
  split; [|repeat split].
  constructor; simpl; assumption.
Qed.

Lemma MultiheadAttention_init_ok (E h : nat) (p : float32) (s : rng) :
  E <> 0 -> h <> 0 -> E mod h = 0 ->
  exists m s', MultiheadAttention_init E h p s = Some (m, s') /\
               MultiheadAttention_ok m /\ embed_dim m = E.
Proof.
  intros HE0 Hh HE. unfold MultiheadAttention_init, bind.
  destruct (Nat.eqb_spec E 0) as [?|_]; [contradiction|].
  destruct (Nat.eqb_spec h 0) as [?|_]; [contradiction|].
  rewrite HE. simpl.
  match goal with
  | |- context [uniform_sym ?sh ?b s] =>
      destruct (uniform_sym_ok sh b s) as (ipw & s1 & -> & Hipw & _)
  end.
  match goal with
  | |- context [uniform_sym ?sh ?b s1] =>
      destruct (uniform_sym_ok sh b s1) as (opw & s2 & -> & Hopw & _)
  end.
  eexists. eexists. split; [reflexivity|].
  split; [|reflexivity].
  constructor; simpl; try assumption; reflexivity.
Qed.

Lemma MultiheadAttention_init_fails (E h : nat) (p : float32) (s : rng) :
  E = 0 \/ h = 0 \/ E mod h <> 0 -> MultiheadAttention_init E h p s = None.
Proof.
  intros H. unfold MultiheadAttention_init.
  destruct (Nat.eqb_spec E 0) as [?|HE]; [reflexivity|].
  destruct (Nat.eqb_spec h 0) as [?|Hh]; [reflexivity|].
  destruct H as [?|[?|H]]; try contradiction.
  destruct (Nat.eqb_spec (E mod h) 0) as [?|_]; [contradiction | reflexivity].
Qed.

Lemma EncoderBlock_init_ok (latent h : nat) (p : float32) (s : rng) :
  h <> 0 -> latent mod h = 0 -> 0 < latent -> rate_ok p = true ->
  exists b s', EncoderBlock_init latent h p s = Some (b, s') /\
               EncoderBlock_ok b /\ enc_latent_size b = latent /\
               norm b = LayerNorm_init latent true /\
               exists fc1 fc2,
                 enc_MLP b = [L_BitLinear fc1; L_GELU; L_Dropout p;
                              L_BitLinear fc2; L_Dropout p] /\
                 in_features fc1 = latent /\
                 out_features fc1 = latent * 4 /\
                 in_features fc2 = latent * 4 /\
                 out_features fc2 = latent.
Proof.
  intros Hh Hm Hl Hp. unfold EncoderBlock_init, bind, Dropout_init.
  destruct (MultiheadAttention_init_ok latent h p s ltac:(lia) Hh Hm)
    as (m & s1 & -> & Hmok & Hme).
  destruct (BitLinear_init_ok latent (latent * 4) true s1)
    as (fc1 & s2 & -> & Hok1 & Hi1 & Ho1).
  rewrite Hp. unfold ret at 1.
  destruct (BitLinear_init_ok (latent * 4) latent true s2)
    as (fc2 & s3 & -> & Hok2 & Hi2 & Ho2).
  unfold ret at 1.
  eexists. eexists. split; [reflexivity|].
  split; [|split; [reflexivity|split; [reflexivity|]]].
  - constructor; simpl; try assumption; try reflexivity.
    rewrite Ho1, Hi2, Ho2.
    repeat match goal with |- _ /\ _ => split end; first [assumption | lia].
  - exists fc1, fc2. simpl. auto.
Qed.

Lemma replicateM_ok {A : Type} (P : A -> Prop) (m : M A) (n : nat) :
  (forall s, exists a s', m s = Some (a, s') /\ P a) ->
  forall s, exists l s', replicateM n m s = Some (l, s') /\
                         Forall P l /\ length l = n.
Proof.
  intros Hm. induction n as [|n IH]; intros s; simpl.
  - eexists. eexists. split; [reflexivity|]. split; [constructor | reflexivity].
  - unfold bind. destruct (Hm s) as (a & s1 & -> & Ha).
    destruct (IH s1) as (l & s2 & -> & Hl & Hn).
    eexists. eexists. split; [reflexivity|].
    split; [constructor; assumption | simpl; congruence].
Qed.

Lemma VisionTransformer_init_ok (n latent classes : nat) (p : float32)
  (s : rng) :
  latent mod 8 = 0 -> 0 < latent ->
  exists v s', VisionTransformer_init n latent classes p s = Some (v, s') /\
               VisionTransformer_ok v /\
               vit_latent_size v = latent /\ vit_num_classes v = classes /\
               vit_num_encoders v = n.
Proof.
  intros Hm Hl. unfold VisionTransformer_init, bind.
  destruct (InputEmbedding_init_ok 16 3 latent s)
    as (e & s1 & -> & Heok & Hep & Hec & Hel).
  destruct (replicateM_ok
              (fun b => EncoderBlock_ok b /\ enc_latent_size b = latent)
              (EncoderBlock_init latent 8 half) n) with (s := s1)
    as (stack & s2 & -> & Hst & Hlen).
  { intros s0.
    destruct (EncoderBlock_init_ok latent 8 half s0 ltac:(lia) Hm Hl eq_refl)
      as (b & s' & Hb & Hbok & Hbl & _).
    exists b, s'. auto. }
  destruct (BitLinear_init_ok latent latent true s2)
    as (fc1 & s3 & -> & Hok1 & Hi1 & Ho1).
  destruct (BitLinear_init_ok latent classes true s3)
    as (fc2 & s4 & -> & Hok2 & Hi2 & Ho2).
  eexists. eexists. split; [reflexivity|].
  split; [|repeat split].
  constructor; simpl; try assumption; try reflexivity.
  rewrite Ho1, Hi2, Ho2.
  repeat match goal with |- _ /\ _ => split end; first [assumption | lia].
Qed.

(** Whatever the configuration, a constructed model embeds patches of
    side 16 on 3 channels. *)
Lemma VisionTransformer_init_embedding (n latent classes : nat) (p : float32)
  (s s' : rng) (v : VisionTransformer) :
  VisionTransformer_init n latent classes p s = Some (v, s') ->
  InputEmbedding_ok (input_embedding v) /\
  patch_size (input_embedding v) = 16 /\
  n_channels (input_embedding v) = 3.
Proof.
  unfold VisionTransformer_init, bind.
  destruct (InputEmbedding_init_ok 16 3 latent s)
    as (e & s1 & -> & Heok & Hep & Hec & Hel).
  destruct (replicateM n (EncoderBlock_init latent 8 half) s1)
    as [[stack s2]|]; [|discriminate].
  destruct (BitLinear_init latent latent true s2) as [[fc1 s3]|];
    [|discriminate].
  destruct (BitLinear_init latent classes true s3) as [[fc2 s4]|];
    [|discriminate].
  intros [= <- _]. simpl. auto.
Qed.

End ModelFacts.

(* ================================================================== *)
(** * Shapes along the forward pass *)
(* ================================================================== *)

Section ForwardFacts.

Context {B : Backend}.

Lemma bind_some {A C : Type} (m : M A) (k : A -> M C) (s s1 : rng) (a : A) :
  m s = Some (a, s1) -> bind m k s = k a s1.
Proof. intros H. unfold bind. now rewrite H. Qed.

Lemma lift_some {A : Type} (o : option A) (a : A) (s : rng) :
  o = Some a -> lift o s = Some (a, s).
Proof. intros ->. reflexivity. Qed.

Lemma Dropout_forward_shape (p : float32) (training : bool) (x : Tensor)
  (s : rng) :
  exists y s', Dropout_forward p training x s = Some (y, s') /\
               shape y = shape x.
Proof.
  unfold Dropout_forward. destruct training.
  - destruct (eqb p pzero || (numel (shape x) =? 0));
      [eexists; eexists; split; reflexivity|].
    destruct (eqb p (of_Z 1)); [eexists; eexists; split; reflexivity|].
    destruct (dropout_noise p (numel (shape x)) s) as [noise s'].
    eexists. eexists. split; reflexivity.
  - eexists. eexists. split; reflexivity.
Qed.

Lemma Sequential_forward_shape (training : bool) (ls : list Layer)
  (din dout : nat) (ld : list nat) :
  Sequential_ok ls din dout ->
  forall (x : Tensor) (s : rng),
    shape x = ld ++ [din] ->
    exists y s', Sequential_forward training ls x s = Some (y, s') /\
                 shape y = ld ++ [dout].
Proof.
  revert din. induction ls as [|l ls IH]; intros din Hok x s Hs; simpl in *.
  - subst dout. eexists. eexists. split; [reflexivity | exact Hs].
  - destruct l as [ln|bl| |p]; simpl.
    + destruct Hok as [Hn Hok]. rewrite <- Hn in Hs.
      destruct (LayerNorm_forward_shape ln x ld Hs) as (y & Hy & Hsy).
      rewrite (bind_some _ _ s s y (lift_some _ y s Hy)).
      apply (IH din Hok). rewrite Hsy, Hs, Hn. reflexivity.
    + destruct Hok as (Hbl & Hin & Hpos & Hok). rewrite <- Hin in Hs, Hpos.
      destruct (BitLinear_forward_shape bl x ld Hbl Hpos Hs) as (y & Hy & Hsy).
      rewrite (bind_some _ _ s s y (lift_some _ y s Hy)).
      apply (IH _ Hok). exact Hsy.
    + unfold bind, ret. apply (IH din Hok). exact Hs.
    + destruct (Dropout_forward_shape p training x s) as (y & s' & Hy & Hsy).
      rewrite (bind_some _ _ s s' y Hy).
      apply (IH din Hok). congruence.
Qed.

Lemma MultiheadAttention_forward_shape (self : MultiheadAttention)
  (training : bool) (x : Tensor) (L N : nat) (s : rng) :
  MultiheadAttention_ok self ->
  shape x = [L; N; embed_dim self] ->
  exists y s', MultiheadAttention_forward self training x s = Some (y, s') /\
               shape y = [L; N; embed_dim self].
Proof.
  intros [Hipw Hipb Hopw Hopb] Hs. unfold MultiheadAttention_forward, attention_batched.
  rewrite Hs, Nat.eqb_refl.
  assert (Hfit : forall (b : Tensor) (out : nat),
             shape b = [out] -> bias_fits (Some b) out = true).
  { intros b out Hb. unfold bias_fits.
    destruct (list_eq_dec Nat.eq_dec (shape b) [out]);
      [reflexivity | contradiction]. }
  rewrite (bind_some _ _ s s _
             (lift_some _ _ s
                (F_linear_some x (in_proj_weight self)
                   (Some (in_proj_bias self)) [L; N] _ _ Hipw Hs
                   (Hfit _ _ Hipb)))).
  cbv zeta.
  match goal with
  | |- context [bind (Dropout_forward ?p training ?w) _ s] =>
      destruct (Dropout_forward_shape p training w s) as (w' & s' & Hw & _);
      rewrite (bind_some _ _ s s' w' Hw)
  end.
  cbv beta.
  match goal with
  | |- context [F_linear ?c _ _] =>
      rewrite (lift_some _ _ s'
                 (F_linear_some c (out_proj_weight self)
                    (Some (out_proj_bias self)) [L; N] _ _ Hopw eq_refl
                    (Hfit _ _ Hopb)))
  end.
  eexists. eexists. split; reflexivity.
Qed.

Lemma tadd_shape (a b : Tensor) :
  shape a = shape b ->
  exists y, tadd a b = Some y /\ shape y = shape a.
Proof.
  intros H. unfold tadd. rewrite (tzip_same add a b H).
  eexists. split; reflexivity.
Qed.

Lemma EncoderBlock_forward_shape (training : bool) (self : EncoderBlock)
  (x : Tensor) (Bn T : nat) (s : rng) :
  EncoderBlock_ok self ->
  shape x = [Bn; T; enc_latent_size self] ->
  exists y s', EncoderBlock_forward training self x s = Some (y, s') /\
               shape y = [Bn; T; enc_latent_size self].
Proof.
  intros [Hn Hm He Hmlp] Hs. unfold EncoderBlock_forward.
  assert (Hs1 : shape x = [Bn; T] ++ [normalized_shape (norm self)])
    by (rewrite Hn; exact Hs).
  destruct (LayerNorm_forward_shape (norm self) x _ Hs1) as (xn & Hxn & Hsn).
  rewrite (bind_some _ _ s s xn (lift_some _ xn s Hxn)).
  assert (Hs2 : shape xn = [Bn; T; embed_dim (multihead self)])
    by (rewrite Hsn, Hs, He; reflexivity).
  destruct (MultiheadAttention_forward_shape (multihead self) training xn
              Bn T s Hm Hs2) as (att & s1 & Hatt & Hsa).
  rewrite (bind_some _ _ s s1 att Hatt).
  destruct (tadd_shape x att) as (res & Hres & Hsr);
    [rewrite Hs, Hsa, He; reflexivity|].
  rewrite (bind_some _ _ s1 s1 res (lift_some _ res s1 Hres)).
  assert (Hs3 : shape res = [Bn; T] ++ [normalized_shape (norm self)])
    by (rewrite Hsr, Hs1; reflexivity).
  destruct (LayerNorm_forward_shape (norm self) res _ Hs3) as (rn & Hrn & Hsrn).
  rewrite (bind_some _ _ s1 s1 rn (lift_some _ rn s1 Hrn)).
  destruct (Sequential_forward_shape training (enc_MLP self) _ _ [Bn; T] Hmlp
              rn s1) as (mlp & s2 & Hmlp' & Hsm);
    [rewrite Hsrn, Hsr, Hs; reflexivity|].
  rewrite (bind_some _ _ s1 s2 mlp Hmlp').
  destruct (tadd_shape res mlp) as (y & Hy & Hsy);
    [rewrite Hsr, Hs, Hsm; reflexivity|].
  exists y, s2. split; [apply lift_some; exact Hy|].
  rewrite Hsy, Hsr. exact Hs.
Qed.

Lemma encoder_loop_shape (training : bool) (stack : list EncoderBlock)
  (latent Bn T : nat) :
  Forall (fun b => EncoderBlock_ok b /\ enc_latent_size b = latent) stack ->
  forall (x : Tensor) (s : rng),
    shape x = [Bn; T; latent] ->
    exists y s', encoder_loop training stack x s = Some (y, s') /\
                 shape y = [Bn; T; latent].
Proof.
  induction 1 as [|b stack [Hb Hl] _ IH]; intros x s Hs; simpl.
  - eexists. eexists. split; [reflexivity | exact Hs].
  - rewrite <- Hl in Hs.
    destruct (EncoderBlock_forward_shape training b x Bn T s Hb Hs)
      as (y & s1 & Hy & Hsy).
    rewrite (bind_some _ _ s s1 y Hy). apply IH. now rewrite Hsy, Hl.
Qed.

Lemma select_first_shape (t : Tensor) (Bn T L : nat) :
  shape t = [Bn; T; L] -> T <> 0 ->
  exists y, select_first t = Some y /\ shape y = [Bn] ++ [L].
Proof.
  intros Hs HT. unfold select_first. rewrite Hs.
  destruct (Nat.eqb_spec T 0) as [?|_]; [contradiction|].
  eexists. split; reflexivity.
Qed.

(** A well-built model maps a batch of 3-channel images whose sides
    are multiples of 16 to one row of logits per image. *)
Lemma VisionTransformer_forward_logits (training : bool)
  (self : VisionTransformer) (x : Tensor) (Bn H W : nat) (s : rng) :
  VisionTransformer_ok self ->
  shape x = [Bn; 3; H; W] -> H mod 16 = 0 -> W mod 16 = 0 ->
  exists y s', VisionTransformer_forward training self x s = Some (y, s') /\
               shape y = [Bn; vit_num_classes self].
Proof.
  intros [He Hp Hc Hl Hst _ Hh] Hs HH HW. unfold VisionTransformer_forward.
  rewrite <- Hc in Hs. rewrite <- Hp in HH, HW.
  destruct (InputEmbedding_forward_steps (input_embedding self) x Bn H W He
              ltac:(rewrite Hp; lia) ltac:(rewrite Hc; lia) Hs HH HW)
    as (patches & proj & ct & cat & pe & e & _ & _ & _ & _ & _ & _ & _
        & Hy & Hsy & _).
  rewrite (bind_some _ _ s s e (lift_some _ e s Hy)).
  rewrite Hl in Hsy.
  destruct (encoder_loop_shape training (encoder_stack self) _ Bn _ Hst e s Hsy)
    as (o & s1 & Ho & Hso).
  rewrite (bind_some _ _ s s1 o Ho).
  destruct (select_first_shape o _ _ _ Hso ltac:(lia)) as (c & Hc' & Hsc).
  rewrite (bind_some _ _ s1 s1 c (lift_some _ c s1 Hc')).
  apply (Sequential_forward_shape training (mlp_head self) _ _ [Bn] Hh c s1 Hsc).
Qed.

(** ** Evaluation mode leaves the generator alone *)

Lemma pure_lift {A : Type} (o : option A) : pure_M (lift o).
Proof. exists o. reflexivity. Qed.

Lemma pure_ret {A : Type} (a : A) : pure_M (ret a).
Proof. exists (Some a). reflexivity. Qed.

Lemma pure_fail {A : Type} : pure_M (@fail B A).
Proof. exists None. reflexivity. Qed.

Lemma pure_bind {A C : Type} (m : M A) (k : A -> M C) :
  pure_M m -> (forall a, pure_M (k a)) -> pure_M (bind m k).
Proof.
  intros [o Ho] Hk. destruct o as [a|].
  - destruct (Hk a) as [o' Ho']. exists o'. intros s.
    unfold bind. rewrite Ho. simpl. apply Ho'.
  - exists None. intros s. unfold bind. now rewrite Ho.
Qed.

Lemma pure_Sequential (ls : list Layer) (x : Tensor) :
  pure_M (Sequential_forward false ls x).
Proof.
  revert x. induction ls as [|l ls IH]; intros x; simpl.
  - apply pure_ret.
  - apply pure_bind; [|exact IH].
    destruct l; simpl; first [apply pure_lift | apply pure_ret].
Qed.

Lemma pure_attention_batched (self : MultiheadAttention) (x : Tensor)
  (L N E : nat) :
  pure_M (attention_batched self false x L N E).
Proof.
  unfold attention_batched.
  destruct (E =? embed_dim self); [|apply pure_fail].
  apply pure_bind; [apply pure_lift|]. intros qkv. cbv zeta.
  apply pure_bind; [apply pure_ret|]. intros w. apply pure_lift.
Qed.

Lemma pure_MultiheadAttention (self : MultiheadAttention) (x : Tensor) :
  pure_M (MultiheadAttention_forward self false x).
Proof.
  unfold MultiheadAttention_forward.
  destruct (shape x) as [|L [|N [|E [|? ?]]]]; try apply pure_fail.
  - apply pure_bind; [apply pure_attention_batched|]. intros y.
    apply pure_ret.
  - apply pure_attention_batched.
Qed.

Lemma pure_EncoderBlock (self : EncoderBlock) (x : Tensor) :
  pure_M (EncoderBlock_forward false self x).
Proof.
  unfold EncoderBlock_forward.
  repeat (apply pure_bind; [first [apply pure_lift
                                  | apply pure_MultiheadAttention
                                  | apply pure_Sequential]|]; intros ?).
  apply pure_lift.
Qed.

Lemma pure_encoder_loop (stack : list EncoderBlock) (x : Tensor) :
  pure_M (encoder_loop false stack x).
Proof.
  revert x. induction stack as [|b stack IH]; intros x; simpl.
  - apply pure_ret.
  - apply pure_bind; [apply pure_EncoderBlock | exact IH].
Qed.

Lemma pure_VisionTransformer (self : VisionTransformer) (x : Tensor) :
  pure_M (VisionTransformer_forward false self x).
Proof.
  unfold VisionTransformer_forward.
  apply pure_bind; [apply pure_lift|]. intros e.
  apply pure_bind; [apply pure_encoder_loop|]. intros o.
  apply pure_bind; [apply pure_lift|]. intros c.
  apply pure_Sequential.
Qed.

(** Two runs of a pure computation, from any two generator states,
    return the same value and leave their state as it was. *)
Lemma pure_deterministic {A : Type} (m : M A) (s1 s2 s1' s2' : rng)
  (y1 y2 : A) :
  pure_M m ->
  m s1 = Some (y1, s1') -> m s2 = Some (y2, s2') ->
  y1 = y2 /\ s1' = s1 /\ s2' = s2.
Proof.
  intros [o Ho] H1 H2. rewrite Ho in H1, H2. unfold lift in *.
  destruct o as [a|]; [|discriminate].
  injection H1 as <- <-. injection H2 as <- <-. auto.
Qed.

End ForwardFacts.

(* ================================================================== *)
(** * Encoder block *)
(* ================================================================== *)

Lemma EncoderBlock_init_inv {B : Backend} (latent heads : nat) (p : float32)
  (s s' : rng) (self : EncoderBlock) :
  EncoderBlock_init latent heads p s = Some (self, s') ->
  heads <> 0 /\ latent mod heads = 0 /\ latent <> 0 /\ rate_ok p = true.
Proof.
  intros H. unfold EncoderBlock_init, bind in H.
  destruct (MultiheadAttention_init latent heads p s) as [[m s1]|] eqn:Em;
    [|discriminate].
  assert (Hm : heads <> 0 /\ latent mod heads = 0 /\ latent <> 0).
  { destruct (Nat.eq_dec latent 0) as [H0|H0];
      [rewrite MultiheadAttention_init_fails in Em by auto; discriminate|].
    destruct (Nat.eq_dec heads 0) as [H1|H1];
      [rewrite MultiheadAttention_init_fails in Em by auto; discriminate|].
    destruct (Nat.eq_dec (latent mod heads) 0) as [H2|H2];
      [auto|].
    rewrite MultiheadAttention_init_fails in Em by auto. discriminate. }
  destruct (BitLinear_init _ _ _ s1) as [[fc1 s2]|]; [|discriminate].
  unfold Dropout_init in H. destruct (rate_ok p); [tauto | discriminate].
Qed.




(* ================================================================== *)
(** * Vision transformer *)
(* ================================================================== *)

(** C9.  The model built from a configuration with 2 encoders, latent
    size 64, 4 heads, 10 classes and patch size 16 returns, on any
    batch of shape [[4; 3; 32; 32]], logits of shape [[4; 10]], in
    training and in evaluation mode; in evaluation mode two forward
    passes on the same input, from whatever generator states, return
    the same tensor and leave the generator untouched. *)
Theorem VisionTransformer_logits_deterministic {B : Backend}
  (config : Config) (s : rng) :
  cfg_num_encoders config = Some 2 ->
  cfg_latent_size config = Some 64 ->
  cfg_num_heads config = Some 4 ->
  cfg_num_classes config = Some 10 ->
  cfg_patch_size config = Some 16 ->
  exists model s',
    train_model config s = Some (model, s') /\
    forall x, shape x = [4; 3; 32; 32] ->
      (forall training s1, exists y s2,
          VisionTransformer_forward training model x s1 = Some (y, s2) /\
          shape y = [4; 10]) /\
      (forall s1 s2, exists y,
          VisionTransformer_forward false model x s1 = Some (y, s1) /\
          VisionTransformer_forward false model x s2 = Some (y, s2)).
Proof.
  intros Hn Hl _ Hc _. unfold train_model. rewrite Hn, Hl, Hc. simpl.
  destruct (VisionTransformer_init_ok 2 64 10 half s eq_refl ltac:(lia))
    as (model & s' & Hinit & Hok & _ & Hcls & _).
  exists model, s'. split; [exact Hinit|]. intros x Hs.
  assert (Hfw : forall training s1, exists y s2,
             VisionTransformer_forward training model x s1 = Some (y, s2) /\
             shape y = [4; 10]).
  { intros training s1. rewrite <- Hcls.
    apply (VisionTransformer_forward_logits training model x 4 32 32 s1 Hok Hs);
      reflexivity. }
  split; [exact Hfw|]. intros s1 s2.
  destruct (Hfw false s1) as (y1 & s1' & H1 & _).
  destruct (Hfw false s2) as (y2 & s2' & H2 & _).
  destruct (pure_deterministic _ s1 s2 s1' s2' y1 y2
              (pure_VisionTransformer model x) H1 H2) as (<- & -> & ->).
  exists y1. split; assumption.
Qed.

Lemma VisionTransformer_logits_deterministic_witness :
  exists model s',
    @train_model counter_backend config_example 0 = Some (model, s') /\
    forall x, shape x = [4; 3; 32; 32] ->
      (forall training s1, exists y s2,
          @VisionTransformer_forward counter_backend training model x s1
          = Some (y, s2) /\
          shape y = [4; 10]) /\
      (forall s1 s2, exists y,
          @VisionTransformer_forward counter_backend false model x s1
          = Some (y, s1) /\
          @VisionTransformer_forward counter_backend false model x s2
          = Some (y, s2)).
Proof.
  apply (@VisionTransformer_logits_deterministic counter_backend
           config_example 0); reflexivity.
Defined.

Lemma train_model_embedding {B : Backend} (config : Config) (s s' : rng)
  (model : VisionTransformer) :
  train_model config s = Some (model, s') ->
  InputEmbedding_ok (input_embedding model) /\
  patch_size (input_embedding model) = 16 /\
  n_channels (input_embedding model) = 3.
Proof.
  unfold train_model. apply VisionTransformer_init_embedding.
Qed.

(** C10 (as amended).  The model construction does not read
    [patch_size]: whatever the configuration, the embedding of a
    constructed model has patch size 16, so its forward pass accepts
    exactly the 3-channel batches whose sides are multiples of 16, and
    the forward pass of the model raises on every other side
    length. *)
Theorem train_model_patch_size {B : Backend} (config : Config) (s s' : rng)
  (model : VisionTransformer) :
  train_model config s = Some (model, s') ->
  patch_size (input_embedding model) = 16 /\
  forall x Bn C H W, shape x = [Bn; C; H; W] ->
    ((exists y, InputEmbedding_forward (input_embedding model) x = Some y) <->
     (C = 3 /\ Nat.divide 16 H /\ Nat.divide 16 W)) /\
    (forall training s0,
        ~ (Nat.divide 16 H /\ Nat.divide 16 W) ->
        VisionTransformer_forward training model x s0 = None).
Proof.
  intros Hinit.
  destruct (train_model_embedding config s s' model Hinit) as (Hok & Hp & Hc).
  split; [exact Hp|]. intros x Bn C H W Hs.
  assert (Hnec : forall y,
             InputEmbedding_forward (input_embedding model) x = Some y ->
             C = 3 /\ Nat.divide 16 H /\ Nat.divide 16 W).
  { intros y Hy.
    destruct (InputEmbedding_forward_needs _ x y Bn C H W Hok
                ltac:(rewrite Hp; lia) Hs Hy) as (HC & HH & HW).
    rewrite Hp in HH, HW. rewrite Hc in HC.
    split; [exact HC|]. split; apply Nat.Lcm0.mod_divide; assumption. }
  split.
  - split.
    + intros (y & Hy). exact (Hnec y Hy).
    + intros (-> & HH & HW). apply Nat.Lcm0.mod_divide in HH, HW.
      rewrite <- Hp in HH, HW. rewrite <- Hc in Hs.
      destruct (InputEmbedding_forward_steps _ x Bn H W Hok
                  ltac:(rewrite Hp; lia) ltac:(rewrite Hc; lia) Hs HH HW)
        as (patches & proj & ct & cat & pe & y & _ & _ & _ & _ & _ & _ & _
            & Hy & _).
      exists y. exact Hy.
  - intros training s0 Hnd. unfold VisionTransformer_forward, bind.
    destruct (InputEmbedding_forward (input_embedding model) x) as [y|] eqn:Hy;
      [|reflexivity].
    exfalso. apply Hnd. destruct (Hnec y eq_refl) as (_ & HH & HW). auto.
Qed.

Lemma train_model_patch8 :
  exists model s',
    @train_model counter_backend config_patch8 0 = Some (model, s').
Proof.
  destruct (@VisionTransformer_init_ok counter_backend 2 64 10 half 0
              eq_refl ltac:(lia)) as (model & s' & H & _).
  exists model, s'. exact H.
Qed.

Lemma train_model_patch_size_witness :
  exists model s',
    @train_model counter_backend config_patch8 0 = Some (model, s') /\
    patch_size (input_embedding model) = 16 /\
    forall x Bn C H W, shape x = [Bn; C; H; W] ->
      ((exists y, InputEmbedding_forward (input_embedding model) x = Some y)
       <-> (C = 3 /\ Nat.divide 16 H /\ Nat.divide 16 W)) /\
      (forall training s0,
          ~ (Nat.divide 16 H /\ Nat.divide 16 W) ->
          @VisionTransformer_forward counter_backend training model x s0
          = None).
Proof.
  destruct train_model_patch8 as (model & s' & H).
  exists model, s'. split; [exact H|].
  apply (@train_model_patch_size counter_backend config_patch8 0 s' model H).
Defined.

(** C10, as stated, fails: a configuration with patch size 8 still
    yields a model whose embedding cuts patches of side 16. *)
Lemma train_model_patch_size_counterexample :
  ~ (forall (B : Backend) (config : Config) (p : nat) (s s' : rng)
            (model : VisionTransformer),
       cfg_patch_size config = Some p ->
       train_model config s = Some (model, s') ->
       patch_size (input_embedding model) = p).
Proof.
  intros Hclaim. destruct train_model_patch8 as (model & s' & H).
  pose proof (Hclaim counter_backend config_patch8 8 0 s' model eq_refl H)
    as H8.
  destruct (@train_model_embedding counter_backend config_patch8 0 s' model H)
    as (_ & H16 & _).
  rewrite H16 in H8. discriminate H8.
Qed.

(* ================================================================== *)
(** * Which inputs the layers accept *)
(* ================================================================== *)

Lemma shape_lead_last (sh : list nat) :
  sh <> [] -> sh = lead sh ++ [last_dim sh].
Proof. intros H. apply app_removelast_last. exact H. Qed.

(** A layer of no input feature accepts nothing: the empty slices pass
    the normalization and the [max] of the quantizer raises. *)
Lemma BitLinear_forward_zero_width (self : BitLinear) (x : Tensor) :
  BitLinear_ok self -> in_features self = 0 ->
  BitLinear_forward self x = None.
Proof.
  intros Hok H0. pose proof Hok as [_ _ _ Hn].
  unfold BitLinear_forward. rewrite Hn.
  destruct (LayerNorm_forward _ x) as [xn|] eqn:Hxn; [|reflexivity].
  apply LayerNorm_forward_inv in Hxn. simpl in Hxn.
  destruct Hxn as (Hl & _ & Hs).
  unfold activation_quant, max_lastdim, tabs, tmap. cbn [shape].
  rewrite Hs, Hl, H0. reflexivity.
Qed.

(** X1.  [BitLinear.forward] on a constructed layer of at least one
    input feature returns a result exactly for the inputs of one or
    more dimensions whose last dimension is [in_features] (any other
    input raises), and the result keeps the leading dimensions and ends
    in [out_features]; a layer of no input feature raises on every
    input. *)
Theorem BitLinear_forward_accepts (self : BitLinear) (x : Tensor) :
  BitLinear_ok self ->
  (in_features self = 0 -> BitLinear_forward self x = None) /\
  (0 < in_features self ->
   ((exists y, BitLinear_forward self x = Some y) <->
    (shape x <> [] /\ last_dim (shape x) = in_features self))) /\
  (forall y, BitLinear_forward self x = Some y ->
     shape y = lead (shape x) ++ [out_features self]).
Proof.
  intros Hok. split; [|split].
  - apply BitLinear_forward_zero_width. exact Hok.
  - intros Hin. split.
    + intros (y & Hy). apply (BitLinear_forward_inv self x y Hok) in Hy. tauto.
    + intros (Hne & Hl).
      destruct (BitLinear_forward_shape self x (lead (shape x)) Hok Hin)
        as (y & Hy & _).
      { rewrite <- Hl. apply shape_lead_last. exact Hne. }
      exists y. exact Hy.
  - intros y Hy.
    destruct (Nat.eq_dec (in_features self) 0) as [H0|H0].
    + rewrite (BitLinear_forward_zero_width self x Hok H0) in Hy. discriminate.
    + pose proof (BitLinear_forward_inv self x y Hok Hy) as (Hl & Hne).
      destruct (BitLinear_forward_shape self x (lead (shape x)) Hok
                  ltac:(lia)) as (y' & Hy' & Hs).
      { rewrite <- Hl. apply shape_lead_last. exact Hne. }
      congruence.
Qed.

Lemma BitLinear_forward_accepts_witness :
  (in_features linear_example = 0 ->
   BitLinear_forward linear_example linear_input = None) /\
  (0 < in_features linear_example ->
   ((exists y, BitLinear_forward linear_example linear_input = Some y) <->
    (shape linear_input <> [] /\
     last_dim (shape linear_input) = in_features linear_example))) /\
  (forall y, BitLinear_forward linear_example linear_input = Some y ->
     shape y = lead (shape linear_input) ++ [out_features linear_example]).
Proof.
  apply (BitLinear_forward_accepts linear_example linear_input).
  constructor; try reflexivity.
  intros b Hb. injection Hb as <-. split; reflexivity.
Defined.

(* ================================================================== *)
(** * Patch layout *)
(* ================================================================== *)

Lemma rearrange_patches_shape (x y : Tensor) (p Bn C H W : nat) :
  shape x = [Bn; C; H; W] ->
  rearrange_patches x p = Some y ->
  shape y = [Bn; H / p * (W / p); p * p * C] /\ wf y.
Proof.
  intros Hs Hy. unfold rearrange_patches in Hy. rewrite Hs in Hy.
  destruct (p =? 0); [discriminate|].
  destruct ((H mod p =? 0) && (W mod p =? 0)); [|discriminate].
  some_subst Hy. split; [reflexivity|].
  unfold wf. cbn [shape data numel fold_right]. rewrite tab_length. lia.
Qed.

(** X2.  The patching of [InputEmbedding.forward] only moves pixels:
    on a batch [[B; C; H; W]] with sides that are multiples of [p] the
    result has shape [[B; (H/p)(W/p); p p C]] and as many elements as
    the batch, and pixel [(i, j)] of channel [c] is entry
    [((i mod p) p + j mod p) C + c] of patch [(i/p)(W/p) + j/p]. *)
Theorem rearrange_patches_pixels (x y : Tensor) (p Bn C H W : nat) :
  shape x = [Bn; C; H; W] ->
  rearrange_patches x p = Some y ->
  shape y = [Bn; H / p * (W / p); p * p * C] /\ wf y /\
  numel (shape y) = numel (shape x) /\
  forall b c i j, b < Bn -> c < C -> i < H -> j < W ->
    get4 x b c i j
    = get3 y b (i / p * (W / p) + j / p) ((i mod p * p + j mod p) * C + c).
Proof.
  intros Hs Hy.
  destruct (rearrange_patches_inv x y p Bn C H W Hs Hy) as (HH & HW & Hp).
  destruct (rearrange_patches_shape x y p Bn C H W Hs Hy) as (Hsy & Hwf).
  assert (EH : H = p * (H / p))
    by (pose proof (Nat.div_mod_eq H p); lia).
  assert (EW : W = p * (W / p))
    by (pose proof (Nat.div_mod_eq W p); lia).
  split; [exact Hsy|]. split; [exact Hwf|]. split.
  - rewrite Hsy, Hs. cbn [numel fold_right].
    rewrite EH at 2. rewrite EW at 2. lia.
  - intros b c i j Hb Hc Hi Hj.
    rewrite (rearrange_patches_get x y p Bn C H W b (i / p) (j / p)
               (i mod p) (j mod p) c Hs Hy Hb).
    + f_equal.
      * pose proof (Nat.div_mod_eq i p). lia.
      * pose proof (Nat.div_mod_eq j p). lia.
    + apply Nat.Div0.div_lt_upper_bound. lia.
    + apply Nat.Div0.div_lt_upper_bound. lia.
    + apply Nat.mod_upper_bound. exact Hp.
    + apply Nat.mod_upper_bound. exact Hp.
    + exact Hc.
Qed.

Lemma rearrange_patches_pixels_witness :
  let x := mkTensor [1; 1; 2; 4] (map of_Z [1; 2; 3; 4; 5; 6; 7; 8]%Z) in
  let y := mkTensor [1; 2; 4] (map of_Z [1; 2; 5; 6; 3; 4; 7; 8]%Z) in
  shape y = [1; 2 / 2 * (4 / 2); 2 * 2 * 1] /\ wf y /\
  numel (shape y) = numel (shape x) /\
  forall b c i j, b < 1 -> c < 1 -> i < 2 -> j < 4 ->
    get4 x b c i j
    = get3 y b (i / 2 * (4 / 2) + j / 2) ((i mod 2 * 2 + j mod 2) * 1 + c).
Proof.
  exact (rearrange_patches_pixels
           (mkTensor [1; 1; 2; 4] (map of_Z [1; 2; 3; 4; 5; 6; 7; 8]%Z))
           (mkTensor [1; 2; 4] (map of_Z [1; 2; 5; 6; 3; 4; 7; 8]%Z))
           2 1 1 2 4 eq_refl eq_refl).
Defined.

(* ================================================================== *)
(** * Construction of the blocks and of the model *)
(* ================================================================== *)

Section ConstructionFacts.

Context {B : Backend}.

Lemma rate_ok_iff (p : float32) :
  rate_ok p = true <-> ltb p pzero = false /\ ltb (of_Z 1) p = false.
Proof.
  unfold rate_ok. rewrite negb_true_iff. apply orb_false_iff.
Qed.

Lemma EncoderBlock_init_some (latent heads : nat) (p : float32) (s : rng) :
  latent <> 0 -> heads <> 0 -> latent mod heads = 0 -> rate_ok p = true ->
  exists self s', EncoderBlock_init latent heads p s = Some (self, s').
Proof.
  intros Hl Hh Hm Hp.
  destruct (EncoderBlock_init_ok latent heads p s Hh Hm ltac:(lia) Hp)
    as (b & s' & Hb & _).
  eauto.
Qed.

Lemma MultiheadAttention_init_fields (E h : nat) (p : float32) (s s' : rng)
  (m : MultiheadAttention) :
  MultiheadAttention_init E h p s = Some (m, s') ->
  embed_dim m = E /\ mha_num_heads m = h /\ mha_dropout m = p.
Proof.
  unfold MultiheadAttention_init.
  destruct ((E =? 0) || (h =? 0) || negb (E mod h =? 0)); [discriminate|].
  unfold bind.
  destruct (uniform_sym _ _ s) as [[ipw s1]|]; [|discriminate].
  destruct (uniform_sym _ _ s1) as [[opw s2]|]; [|discriminate].
  unfold ret. intros H.
  assert (Hm : m = {| embed_dim := E; mha_num_heads := h; mha_dropout := p;
                      in_proj_weight := ipw;
                      in_proj_bias := zeros [3 * E];
                      out_proj_weight := opw;
                      out_proj_bias := zeros [E] |}) by congruence.
  rewrite Hm. auto.
Qed.

Lemma EncoderBlock_init_fields (latent heads : nat) (p : float32) (s s' : rng)
  (self : EncoderBlock) :
  EncoderBlock_init latent heads p s = Some (self, s') ->
  enc_latent_size self = latent /\
  enc_num_heads self = heads /\ enc_dropout self = p /\
  embed_dim (multihead self) = latent /\
  mha_num_heads (multihead self) = heads /\
  mha_dropout (multihead self) = p /\
  norm self = LayerNorm_init latent true /\
  exists fc1 fc2,
    enc_MLP self = [L_BitLinear fc1; L_GELU; L_Dropout p;
                    L_BitLinear fc2; L_Dropout p].
Proof.
  unfold EncoderBlock_init, bind, Dropout_init.
  destruct (MultiheadAttention_init latent heads p s) as [[m s1]|] eqn:Hm;
    [|discriminate].
  destruct (BitLinear_init _ _ _ s1) as [[fc1 s2]|]; [|discriminate].
  destruct (rate_ok p); [|discriminate]. unfold ret at 1.
  destruct (BitLinear_init _ _ _ s2) as [[fc2 s3]|]; [|discriminate].
  unfold ret. intros H.
  apply MultiheadAttention_init_fields in Hm. destruct Hm as (He & Hh & Hp).
  assert (Hs : self = {| enc_latent_size := latent; enc_num_heads := heads;
                         enc_dropout := p;
                         norm := LayerNorm_init latent true;
                         multihead := m;
                         enc_MLP := [L_BitLinear fc1; L_GELU; L_Dropout p;
                                     L_BitLinear fc2; L_Dropout p] |})
    by congruence.
  rewrite Hs. cbn. repeat split; try assumption.
  exists fc1, fc2. reflexivity.
Qed.

(** X3.  [EncoderBlock(latent_size, num_heads, dropout)] can be built
    exactly when [latent_size] and [num_heads] are positive and
    [num_heads] divides [latent_size] (the attention module checks
    both), and [dropout] is neither below 0 nor above 1 (the dropout
    layers of the feed-forward chain check it; a NaN passes the test);
    the block then holds these arguments, its attention module has
    [num_heads] heads and the dropout rate, and both dropout layers of
    the feed-forward chain use that rate. *)
Theorem EncoderBlock_init_heads (latent heads : nat) (p : float32) (s : rng) :
  ((exists self s', EncoderBlock_init latent heads p s = Some (self, s')) <->
   (latent <> 0 /\ heads <> 0 /\ latent mod heads = 0 /\
    ltb p pzero = false /\ ltb (of_Z 1) p = false)) /\
  (forall self s', EncoderBlock_init latent heads p s = Some (self, s') ->
     enc_latent_size self = latent /\
     enc_num_heads self = heads /\ enc_dropout self = p /\
     embed_dim (multihead self) = latent /\
     mha_num_heads (multihead self) = heads /\
     mha_dropout (multihead self) = p /\
     norm self = LayerNorm_init latent true /\
     exists fc1 fc2,
       enc_MLP self = [L_BitLinear fc1; L_GELU; L_Dropout p;
                       L_BitLinear fc2; L_Dropout p]).
Proof.
  split; [split|].
  - intros (self & s' & H).
    destruct (EncoderBlock_init_inv _ _ _ _ _ _ H) as (Hh & Hm & Hl & Hp).
    apply rate_ok_iff in Hp. tauto.
  - intros (Hl & Hh & Hm & Hp).
    apply EncoderBlock_init_some; try assumption.
    apply rate_ok_iff. exact Hp.
  - intros self s'. apply EncoderBlock_init_fields.
Qed.

Lemma replicateM_inv {A : Type} (P : A -> Prop) (m : M A) (n : nat) :
  (forall s a s', m s = Some (a, s') -> P a) ->
  forall s l s', replicateM n m s = Some (l, s') ->
                 Forall P l /\ length l = n.
Proof.
  intros Hm. induction n as [|n IH]; intros s l s'; simpl.
  - unfold ret. intros H. assert (l = []) by congruence. subst l.
    split; [constructor | reflexivity].
  - unfold bind. destruct (m s) as [[a s1]|] eqn:Ha; [|discriminate].
    destruct (replicateM n m s1) as [[l1 s2]|] eqn:Hl; [|discriminate].
    unfold ret. intros H. assert (l = a :: l1) by congruence. subst l.
    destruct (IH _ _ _ Hl) as (HF & Hlen).
    split; [constructor; [exact (Hm _ _ _ Ha) | exact HF] | simpl; congruence].
Qed.

Lemma replicateM_first {A : Type} (m : M A) (n : nat) (s : rng) :
  (exists l s', replicateM (S n) m s = Some (l, s')) ->
  exists a s', m s = Some (a, s').
Proof.
  simpl. unfold bind. intros (l & s' & H).
  destruct (m s) as [[a s1]|]; [|discriminate]. eauto.
Qed.

Lemma VisionTransformer_init_inv (n latent classes : nat) (p : float32)
  (s s' : rng) (v : VisionTransformer) :
  VisionTransformer_init n latent classes p s = Some (v, s') ->
  exists s1 s2,
    replicateM n (EncoderBlock_init latent 8 half) s1
    = Some (encoder_stack v, s2) /\
    vit_num_encoders v = n /\ vit_latent_size v = latent /\
    vit_num_classes v = classes /\ vit_dropout v = p.
Proof.
  unfold VisionTransformer_init, bind.
  destruct (InputEmbedding_init 16 3 latent s) as [[e s1]|]; [|discriminate].
  destruct (replicateM n (EncoderBlock_init latent 8 half) s1)
    as [[stack s2]|] eqn:Hst; [|discriminate].
  destruct (BitLinear_init latent latent true s2) as [[fc1 s3]|];
    [|discriminate].
  destruct (BitLinear_init latent classes true s3) as [[fc2 s4]|];
    [|discriminate].
  unfold ret. intros H.
  assert (Hv : v = {| vit_num_encoders := n; vit_latent_size := latent;
                      vit_num_classes := classes; vit_dropout := p;
                      input_embedding := e; encoder_stack := stack;
                      mlp_head := [L_LayerNorm (LayerNorm_init latent true);
                                  L_BitLinear fc1; L_GELU; L_BitLinear fc2] |})
    by congruence.
  rewrite Hv. cbn. exists s1, s2. auto.
Qed.

Lemma VisionTransformer_init_some (n latent classes : nat) (p : float32)
  (s : rng) :
  n = 0 \/ (latent <> 0 /\ latent mod 8 = 0) ->
  exists v s', VisionTransformer_init n latent classes p s = Some (v, s').
Proof.
  intros Hc. unfold VisionTransformer_init, bind.
  destruct (InputEmbedding_init_ok 16 3 latent s) as (e & s1 & -> & _).
  assert (Hst : exists stack s2,
             replicateM n (EncoderBlock_init latent 8 half) s1
             = Some (stack, s2)).
  { destruct Hc as [-> | [Hl Hm]].
    - simpl. unfold ret. eauto.
    - destruct (replicateM_ok (fun _ => True)
                  (EncoderBlock_init latent 8 half) n) with (s := s1)
        as (stack & s2 & Hr & _).
      + intros s0.
        destruct (EncoderBlock_init_some latent 8 half s0 Hl ltac:(lia) Hm
                    eq_refl)
          as (b & s' & Hb).
        exists b, s'. auto.
      + eauto. }
  destruct Hst as (stack & s2 & ->).
  destruct (BitLinear_init_ok latent latent true s2) as (fc1 & s3 & -> & _).
  destruct (BitLinear_init_ok latent classes true s3) as (fc2 & s4 & -> & _).
  eexists. eexists. reflexivity.
Qed.

(** X4.  The model of [train.py] can be built exactly when the
    configured [latent_size] (768 when absent) is a positive multiple
    of 8 or no encoder is asked for: the encoder blocks are always
    given the default of 8 heads and the default dropout rate 0.5,
    whatever [num_heads] and [dropout] the configuration holds, and
    their attention module refuses an empty embedding. *)
Theorem train_model_builds (config : Config) (s : rng) :
  (exists model s', train_model config s = Some (model, s')) <->
  (config_get (cfg_num_encoders config) 12 = 0 \/
   (config_get (cfg_latent_size config) 768 <> 0 /\
    config_get (cfg_latent_size config) 768 mod 8 = 0)).
Proof.
  unfold train_model. split.
  - intros (model & s' & H).
    destruct (config_get (cfg_num_encoders config) 12) as [|n] eqn:Hn;
      [left; reflexivity | right].
    apply VisionTransformer_init_inv in H.
    destruct H as (s1 & s2 & Hst & _).
    destruct (replicateM_first
                (EncoderBlock_init (config_get (cfg_latent_size config) 768)
                   8 half) n s1)
      as (b & s3 & Hb); [eauto|].
    apply EncoderBlock_init_inv in Hb. tauto.
  - apply VisionTransformer_init_some.
Qed.

(** X5.  [VisionTransformer(num_encoders, latent_size, num_classes,
    dropout)] keeps [dropout] in its own field only: it builds
    [num_encoders] encoder blocks, and every one of them has 8 heads
    and the dropout rate 0.5, in its attention module and in both
    dropout layers of its feed-forward chain, whatever [dropout] is. *)
Theorem VisionTransformer_init_blocks (n latent classes : nat) (p : float32)
  (s s' : rng) (v : VisionTransformer) :
  VisionTransformer_init n latent classes p s = Some (v, s') ->
  vit_dropout v = p /\
  length (encoder_stack v) = n /\
  Forall (fun b =>
            enc_latent_size b = latent /\
            enc_num_heads b = 8 /\ enc_dropout b = half /\
            mha_num_heads (multihead b) = 8 /\
            mha_dropout (multihead b) = half /\
            exists fc1 fc2,
              enc_MLP b = [L_BitLinear fc1; L_GELU; L_Dropout half;
                           L_BitLinear fc2; L_Dropout half])
         (encoder_stack v).
Proof.
  intros H. apply VisionTransformer_init_inv in H.
  destruct H as (s1 & s2 & Hst & _ & _ & _ & Hp).
  split; [exact Hp|].
  apply and_comm.
  apply (replicateM_inv _ (EncoderBlock_init latent 8 half) n) with (s := s1)
                                                                   (s' := s2);
    [|exact Hst].
  intros s0 b s3 Hb. apply EncoderBlock_init_fields in Hb.
  destruct Hb as (Hl & Hh & Hd & _ & Hmh & Hmd & _ & Hmlp). auto 10.
Qed.

End ConstructionFacts.

Lemma VisionTransformer_init_blocks_witness :
  exists v s',
    @VisionTransformer_init counter_backend 2 16 10 pzero 0 = Some (v, s') /\
    vit_dropout v = pzero /\
    length (encoder_stack v) = 2 /\
    Forall (fun b =>
              enc_latent_size b = 16 /\
              enc_num_heads b = 8 /\ enc_dropout b = half /\
              mha_num_heads (multihead b) = 8 /\
              mha_dropout (multihead b) = half /\
              exists fc1 fc2,
                enc_MLP b = [L_BitLinear fc1; L_GELU; L_Dropout half;
                             L_BitLinear fc2; L_Dropout half])
           (encoder_stack v).
Proof.
  destruct (@VisionTransformer_init_some counter_backend 2 16 10 pzero 0
              (or_intror (conj (fun H : 16 = 0 => O_S 15 (eq_sym H)) eq_refl)))
    as (v & s' & H).
  exists v, s'. split; [exact H|].
  exact (@VisionTransformer_init_blocks counter_backend 2 16 10 pzero 0 s' v H).
Defined.

(* ================================================================== *)
(** * Signs and non-finite values through the quantizers *)
(* ================================================================== *)

Lemma binary_round_aux_sign (sx : bool) (mx ex : Z) (lx : location) :
  binary_round_aux prec emax sx mx ex lx = S754_nan \/
  signbit (binary_round_aux prec emax sx mx ex lx) = sx.
Proof.
  unfold binary_round_aux.
  destruct (shr_fexp prec emax mx ex lx) as [mrs' e'].
  destruct (shr_fexp prec emax _ e' loc_Exact) as [mrs'' e''].
  destruct (shr_m mrs'') as [|m|m]; [right; reflexivity | | left; reflexivity].
  destruct (e'' <=? emax - prec)%Z; right; reflexivity.
Qed.

Lemma mul_sign (x y : float32) :
  mul x y = S754_nan \/ signbit (mul x y) = xorb (signbit x) (signbit y).
Proof.
  destruct x as [sx|sx| |sx mx ex], y as [sy|sy| |sy my ey];
    try (left; reflexivity); try (right; reflexivity).
  apply binary_round_aux_sign.
Qed.

Lemma div_sign (x y : float32) :
  div x y = S754_nan \/ signbit (div x y) = xorb (signbit x) (signbit y).
Proof.
  destruct x as [sx|sx| |sx mx ex], y as [sy|sy| |sy my ey];
    try (left; reflexivity); try (right; reflexivity).
  unfold div, SFdiv.
  destruct (SFdiv_core_binary prec emax (Zpos mx) ex (Zpos my) ey)
    as [[mz ez] lz].
  apply binary_round_aux_sign.
Qed.

Lemma round_sign (x : float32) : signbit (round x) = signbit x.
Proof.
  destruct x as [s|s| |s m e]; try reflexivity.
  unfold round. destruct (0 <=? e)%Z; [reflexivity|].
  destruct (round_half_even (Zpos m) (- e)); reflexivity.
Qed.

Lemma ltb_negative (x : float32) (m : positive) (e : Z) :
  ltb x (S754_finite true m e) = true -> signbit x = true.
Proof.
  destruct x as [s|s| |s mx ex]; try discriminate.
  - destruct s; [reflexivity | discriminate].
  - destruct s; [reflexivity | discriminate].
Qed.

Lemma ltb_positive (x : float32) (m : positive) (e : Z) :
  ltb (S754_finite false m e) x = true -> signbit x = false.
Proof.
  destruct x as [s|s| |s mx ex]; try discriminate.
  - destruct s; [discriminate | reflexivity].
  - destruct s; [discriminate | reflexivity].
Qed.

Lemma clamp_sign (x : float32) (pa pb : positive) :
  signbit (clamp x (of_Z (Zneg pa)) (of_Z (Zpos pb))) = signbit x.
Proof.
  unfold of_Z, of_pos.
  set (lo := S754_finite true _ _). set (hi := S754_finite false _ _).
  unfold clamp. destruct (is_nan x); [reflexivity|].
  destruct (ltb x lo) eqn:Hlo.
  - change (ltb hi lo) with false. cbv iota.
    symmetry. exact (ltb_negative x _ _ Hlo).
  - destruct (ltb hi x) eqn:Hhi; [|reflexivity].
    symmetry. exact (ltb_positive x _ _ Hhi).
Qed.

Lemma div_nan_r (x : float32) : div x S754_nan = S754_nan.
Proof. destruct x; reflexivity. Qed.

Lemma mul_nan_r (x : float32) : mul x S754_nan = S754_nan.
Proof. destruct x; reflexivity. Qed.

Lemma quant_value_nan_scale (lo hi : Z) (v : float32) :
  quant_value lo hi S754_nan v = S754_nan.
Proof. unfold quant_value. apply div_nan_r. Qed.

Lemma quant_value_sign (pa pb : positive) (scale v : float32) :
  keeps_sign v (quant_value (Zneg pa) (Zpos pb) scale v).
Proof.
  unfold keeps_sign, quant_value.
  destruct (mul_sign v scale) as [Hm|Hm].
  - left. rewrite Hm. cbn [round]. unfold clamp. cbn [is_nan].
    destruct scale; reflexivity.
  - destruct (div_sign (clamp (round (mul v scale)) (of_Z (Zneg pa))
                          (of_Z (Zpos pb))) scale) as [Hd|Hd];
      [left; exact Hd | right].
    rewrite Hd, clamp_sign, round_sign, Hm.
    destruct (signbit v), (signbit scale); reflexivity.
Qed.

Lemma Forall2_concat {A C : Type} (P : A -> C -> Prop)
  (L : list (list A)) (L' : list (list C)) :
  Forall2 (Forall2 P) L L' -> Forall2 P (concat L) (concat L').
Proof.
  induction 1 as [|r r' L L' Hr _ IH]; simpl; [constructor|].
  apply Forall2_app; assumption.
Qed.

Lemma Forall2_weaken {A C : Type} (P Q : A -> C -> Prop)
  (l : list A) (l' : list C) :
  (forall a c, P a c -> Q a c) -> Forall2 P l l' -> Forall2 Q l l'.
Proof. intros H. induction 1; constructor; auto. Qed.

Lemma activation_quant_last_dim (x y : Tensor) :
  activation_quant x = Some y -> last_dim (shape x) <> 0.
Proof.
  unfold activation_quant, max_lastdim, tabs, tmap. cbn [shape].
  destruct (last_dim (shape x) =? 0) eqn:E; [discriminate|].
  intros _. apply Nat.eqb_neq. exact E.
Qed.

(** The rows of a quantized tensor, from the rows of its argument. *)
Lemma activation_quant_row_values (x y : Tensor) :
  wf x -> activation_quant x = Some y ->
  shape y = shape x /\ wf y /\
  Forall2 (fun r r' => r' = map (quant_value (-128) 127 (row_scale eps r)) r)
          (rows x) (rows y).
Proof.
  intros Hwf Hy.
  destruct (activation_quant_rows x Hwf (activation_quant_last_dim x y Hy))
    as (y' & Hy' & Hs & Hwf' & HF).
  assert (y' = y) by congruence. subst y'.
  split; [exact Hs|]. split; [exact Hwf'|].
  revert HF. apply Forall2_weaken. intros r r'. apply spec_row_eq.
Qed.

Lemma weight_quant_data (w : Tensor) :
  data (weight_quant w) = map (quant_value (-1) 1 (weight_scale w)) (data w).
Proof.
  unfold weight_quant, tscalar, tclamp, RoundSTE.apply, RoundSTE.forward,
    tmap. simpl. rewrite !map_map. reflexivity.
Qed.

(** X6.  [weight_quant] never flips a sign: every quantized weight is
    NaN or has the sign bit of the weight it comes from (a negative
    weight is never quantized to a positive level or to [+0], nor a
    positive one to a negative level or to [-0]). *)
Theorem weight_quant_keeps_sign (w : Tensor) :
  Forall2 keeps_sign (data w) (data (weight_quant w)).
Proof.
  rewrite weight_quant_data. apply Forall2_map_self. intros v. apply (quant_value_sign 1 1).
Qed.

(** X7.  [activation_quant] never flips a sign either: on any
    well-formed tensor it accepts, every quantized activation is NaN or
    has the sign bit of the activation it comes from. *)
Theorem activation_quant_keeps_sign (x y : Tensor) :
  wf x -> activation_quant x = Some y ->
  Forall2 keeps_sign (data x) (data y).
Proof.
  intros Hwf Hy.
  destruct (activation_quant_row_values x y Hwf Hy) as (_ & Hwfy & HF).
  rewrite <- (concat_rows x Hwf), <- (concat_rows y Hwfy).
  apply Forall2_concat. revert HF. apply Forall2_weaken.
  intros r r' ->. apply Forall2_map_self.
  intros v. apply (quant_value_sign 128 127).
Qed.

Lemma activation_quant_keeps_sign_witness :
  Forall2 keeps_sign (data grid_example)
    (data (mkTensor [1; 3]
             [div (of_Z 127) (of_Z 127); div (of_Z (-64)) (of_Z 127);
              div (of_Z 32) (of_Z 127)])).
Proof.
  apply (activation_quant_keeps_sign grid_example); reflexivity.
Defined.

(** ** NaN and infinities *)

Lemma fmax_inf_acc (l : list float32) (acc : float32) :
  acc = S754_nan \/ acc = S754_infinity false ->
  fold_left fmax l acc = S754_nan \/
  fold_left fmax l acc = S754_infinity false.
Proof.
  revert acc. induction l as [|b l IH]; intros acc Hacc; [exact Hacc|].
  simpl. apply IH. destruct Hacc as [-> | ->]; [left; reflexivity|].
  destruct b as [s|s| |s m e]; try (right; reflexivity);
    try (left; reflexivity).
  destruct s; right; reflexivity.
Qed.

Lemma fmax_inf (l : list float32) (acc : float32) :
  In (S754_infinity false) l ->
  fold_left fmax l acc = S754_nan \/
  fold_left fmax l acc = S754_infinity false.
Proof.
  revert acc. induction l as [|b l IH]; intros acc Hin; [destruct Hin|].
  simpl. destruct Hin as [-> | Hin]; [|apply IH; exact Hin].
  apply fmax_inf_acc.
  destruct acc as [s|s| |s m e]; try (right; reflexivity);
    try (left; reflexivity).
  destruct s; right; reflexivity.
Qed.

Lemma add_inf_acc (l : list float32) (acc : float32) :
  acc = S754_nan \/ acc = S754_infinity false ->
  fold_left add l acc = S754_nan \/
  fold_left add l acc = S754_infinity false.
Proof.
  revert acc. induction l as [|b l IH]; intros acc Hacc; [exact Hacc|].
  simpl. apply IH. destruct Hacc as [-> | ->]; [left; reflexivity|].
  destruct b as [s|s| |s m e]; try (right; reflexivity);
    try (left; reflexivity).
  destruct s; [left | right]; reflexivity.
Qed.

Lemma sum_inf (l : list float32) (acc : float32) :
  In (S754_infinity false) l ->
  fold_left add l acc = S754_nan \/
  fold_left add l acc = S754_infinity false.
Proof.
  revert acc. induction l as [|b l IH]; intros acc Hin; [destruct Hin|].
  simpl. destruct Hin as [-> | Hin]; [|apply IH; exact Hin].
  apply add_inf_acc.
  destruct acc as [s|s| |s m e]; try (right; reflexivity);
    try (left; reflexivity).
  destruct s; [left | right]; reflexivity.
Qed.

(** A non-finite element leaves a NaN or [+inf] among the absolute
    values. *)
Lemma abs_nonfinite (l : list float32) (v : float32) :
  In v l -> is_finite v = false ->
  In S754_nan (map abs l) \/ In (S754_infinity false) (map abs l).
Proof.
  intros Hin Hv. destruct v as [s|s| |s m e]; try discriminate.
  - right. change (S754_infinity false) with (abs (S754_infinity s)).
    apply in_map. exact Hin.
  - left. change S754_nan with (abs S754_nan). apply in_map. exact Hin.
Qed.

(** Whatever the order of a reduction, a NaN or [+inf] among the
    summands makes the sum NaN or [+inf]. *)
Lemma sums_to_poisoned (l : list float32) (S : float32) :
  sums_to l S ->
  In S754_nan l \/ In (S754_infinity false) l ->
  S = S754_nan \/ S = S754_infinity false.
Proof.
  induction 1 as [|v|l1 l2 a b H1 IH1 H2 IH2|l l' a HP H IH]; intros Hin.
  - destruct Hin as [[]|[]].
  - destruct Hin as [[->|[]]|[->|[]]]; auto.
  - assert (Hc : (In S754_nan l1 \/ In (S754_infinity false) l1) \/
                 (In S754_nan l2 \/ In (S754_infinity false) l2)).
    { destruct Hin as [Hin|Hin]; apply in_app_or in Hin; tauto. }
    destruct Hc as [Hc|Hc].
    + destruct (IH1 Hc) as [-> | ->]; [left; reflexivity|].
      destruct b as [s|s| |s m e]; try (right; reflexivity);
        try (left; reflexivity).
      destruct s; [left | right]; reflexivity.
    + destruct (IH2 Hc) as [-> | ->].
      * left. destruct a; reflexivity.
      * destruct a as [s|s| |s m e]; try (right; reflexivity);
          try (left; reflexivity).
        destruct s; [left | right]; reflexivity.
  - apply IH. apply Permutation_sym in HP.
    destruct Hin as [Hin|Hin]; [left | right];
      exact (Permutation_in _ HP Hin).
Qed.

(** Whatever the order of a reduction, the sum of positive zeros is
    the positive zero. *)
Lemma sums_to_zeros (l : list float32) (S : float32) :
  sums_to l S -> Forall (fun v => v = pzero) l -> S = pzero.
Proof.
  induction 1 as [|v|l1 l2 a b H1 IH1 H2 IH2|l l' a HP H IH]; intros HF.
  - reflexivity.
  - inversion HF; assumption.
  - apply Forall_app in HF. destruct HF as [HF1 HF2].
    rewrite (IH1 HF1), (IH2 HF2). reflexivity.
  - apply IH. apply Permutation_sym in HP.
    exact (Permutation_Forall HP HF).
Qed.

Lemma row_scale_nonfinite (row : list float32) (v : float32) :
  In v row -> is_finite v = false ->
  row_scale eps row = S754_nan \/ row_scale eps row = pzero.
Proof.
  intros Hin Hv. unfold row_scale.
  assert (Hm : max_list (map abs row) = S754_nan \/
               max_list (map abs row) = S754_infinity false).
  { destruct (abs_nonfinite row v Hin Hv) as [H|H].
    - left. destruct (map abs row) as [|a r]; [destruct H|]. simpl.
      destruct H as [-> | H]; [apply fmax_nan_acc | apply fmax_nan; exact H].
    - destruct (map abs row) as [|a r]; [destruct H|]. simpl.
      destruct H as [-> | H]; [apply fmax_inf_acc; auto | apply fmax_inf; exact H]. }
  destruct Hm as [-> | ->]; [left | right]; reflexivity.
Qed.

Lemma of_nat_sign (n : nat) :
  of_nat n = S754_nan \/ signbit (of_nat n) = false.
Proof.
  unfold of_nat, binary_normalize.
  destruct (Z.of_nat n) as [|p|p] eqn:E; [right; reflexivity| |lia].
  unfold binary_round.
  destruct (shl_align p 0 _) as [mz ez]. apply binary_round_aux_sign.
Qed.

Lemma weight_scale_nonfinite (w : Tensor) (v : float32) :
  In v (data w) -> is_finite v = false ->
  weight_scale w = S754_nan \/ weight_scale w = pzero.
Proof.
  intros Hin Hv. unfold weight_scale, tmean, sum, tabs, tmap.
  cbn [data shape].
  assert (Hs : fold_left add (map abs (data w)) pzero = S754_nan \/
               fold_left add (map abs (data w)) pzero = S754_infinity false).
  { destruct (abs_nonfinite (data w) v Hin Hv) as [H|H].
    - left. apply sum_nan. exact H.
    - apply sum_inf. exact H. }
  destruct Hs as [-> | ->]; [left; reflexivity|].
  destruct (of_nat_sign (numel (shape w))) as [-> | Hn];
    [left; reflexivity|].
  destruct (of_nat (numel (shape w))) as [s|s| |s m e]; simpl in Hn;
    try subst s; try (left; reflexivity); right; reflexivity.
Qed.

Lemma quant_value_zero_scale (pa pb : positive) (s : bool) (v : float32) :
  quant_value (Zneg pa) (Zpos pb) (S754_zero s) v = S754_nan.
Proof.
  unfold quant_value, of_Z, of_pos.
  destruct v as [sv|sv| |sv m e]; try reflexivity.
Qed.

Lemma quant_value_dead_scale (pa pb : positive) (scale v : float32) :
  scale = S754_nan \/ scale = pzero ->
  quant_value (Zneg pa) (Zpos pb) scale v = S754_nan.
Proof.
  intros [-> | ->];
    [apply quant_value_nan_scale | apply quant_value_zero_scale].
Qed.

(** X8.  One NaN or infinite weight poisons the whole tensor:
    [weight_quant] then returns NaN for every weight (the mean of the
    absolute values is NaN or infinite, so the scale is NaN or zero). *)
Theorem weight_quant_nonfinite (w : Tensor) (v : float32) :
  In v (data w) -> is_finite v = false ->
  Forall (fun q => q = S754_nan) (data (weight_quant w)).
Proof.
  intros Hin Hv.
  rewrite weight_quant_data. apply Forall_forall. intros q Hq. apply in_map_iff in Hq.
  destruct Hq as (u & <- & _).
  apply (quant_value_dead_scale 1 1).
  exact (weight_scale_nonfinite w v Hin Hv).
Qed.

Lemma weight_quant_nonfinite_witness :
  Forall (fun q => q = S754_nan)
    (data (weight_quant
             (mkTensor [2; 2]
                [of_Z 1; S754_infinity true; of_Z (-3); pzero]))).
Proof.
  apply (weight_quant_nonfinite _ (S754_infinity true)).
  - simpl. auto.
  - reflexivity.
Defined.

(** X9.  In [activation_quant] a NaN or infinite activation poisons
    its own row and no other: a row that holds one is quantized to NaN
    throughout, while every row is quantized from its own values
    alone, with the scale [(1 / max(|row|, eps)) * 127] of that row. *)
Theorem activation_quant_nonfinite_row (x y : Tensor) :
  wf x -> activation_quant x = Some y ->
  Forall2 (fun r r' =>
             row_scale eps r
             = mul (div (of_Z 1) (clamp_min (max_list (map abs r)) eps))
                   (of_Z 127) /\
             r' = map (quant_value (-128) 127 (row_scale eps r)) r /\
             ((exists v, In v r /\ is_finite v = false) ->
              Forall (fun q => q = S754_nan) r'))
          (rows x) (rows y).
Proof.
  intros Hwf Hy.
  destruct (activation_quant_row_values x y Hwf Hy) as (_ & _ & HF).
  revert HF. apply Forall2_weaken. intros r r' ->.
  split; [reflexivity|]. split; [reflexivity|].
  intros (v & Hin & Hv).
  apply Forall_forall. intros q Hq. apply in_map_iff in Hq.
  destruct Hq as (u & <- & _).
  apply (quant_value_dead_scale 128 127).
  exact (row_scale_nonfinite r v Hin Hv).
Qed.

Lemma activation_quant_nonfinite_row_witness :
  let x := mkTensor [2; 2] [of_Z 1; S754_nan; of_Z 2; of_Z (-4)] in
  let y := mkTensor [2; 2]
             [S754_nan; S754_nan;
              div (of_Z 64) (rdiv (of_Z 127) (of_Z 4));
              div (of_Z (-127)) (rdiv (of_Z 127) (of_Z 4))] in
  Forall2 (fun r r' =>
             row_scale eps r
             = mul (div (of_Z 1) (clamp_min (max_list (map abs r)) eps))
                   (of_Z 127) /\
             r' = map (quant_value (-128) 127 (row_scale eps r)) r /\
             ((exists v, In v r /\ is_finite v = false) ->
              Forall (fun q => q = S754_nan) r'))
          (rows x) (rows y).
Proof.
  apply (activation_quant_nonfinite_row
           (mkTensor [2; 2] [of_Z 1; S754_nan; of_Z 2; of_Z (-4)])).
  - reflexivity.
  - vm_compute. reflexivity.
Defined.

Section AcceptFacts.

Context {B : Backend}.

Lemma bind_inv {A C : Type} (m : M A) (k : A -> M C) (s s' : rng) (c : C) :
  bind m k s = Some (c, s') ->
  exists a s1, m s = Some (a, s1) /\ k a s1 = Some (c, s').
Proof.
  unfold bind. destruct (m s) as [[a s1]|]; [|discriminate].
  intros H. exists a, s1. auto.
Qed.

Lemma lift_inv {A : Type} (o : option A) (s s' : rng) (a : A) :
  lift o s = Some (a, s') -> o = Some a /\ s' = s.
Proof.
  unfold lift. destruct o as [a0|]; [|discriminate].
  intros H. split; congruence.
Qed.


Lemma InputEmbedding_forward_4d (self : InputEmbedding) (x y : Tensor) :
  InputEmbedding_forward self x = Some y ->
  exists Bn C H W, shape x = [Bn; C; H; W].
Proof.
  unfold InputEmbedding_forward, rearrange_patches.
  destruct (shape x) as [|Bn [|C [|H [|W [|]]]]]; try discriminate.
  intros _. exists Bn, C, H, W. reflexivity.
Qed.

(** X11.  [VisionTransformer.forward] returns a result exactly for the
    batches of shape [[B; 3; H; W]] with [H] and [W] multiples of 16
    (whatever the mode; every other input raises), and the result is
    one row of [num_classes] logits per image. *)
Theorem VisionTransformer_forward_accepts (training : bool)
  (self : VisionTransformer) (x : Tensor) (s : rng) :
  VisionTransformer_ok self ->
  ((exists y s', VisionTransformer_forward training self x s = Some (y, s'))
   <-> (exists Bn H W, shape x = [Bn; 3; H; W] /\
                       H mod 16 = 0 /\ W mod 16 = 0)) /\
  (forall y s', VisionTransformer_forward training self x s = Some (y, s') ->
     shape y = [hd 0 (shape x); vit_num_classes self]).
Proof.
  intros Hok.
  assert (Hneed : forall y s',
             VisionTransformer_forward training self x s = Some (y, s') ->
             exists Bn H W, shape x = [Bn; 3; H; W] /\
                            H mod 16 = 0 /\ W mod 16 = 0).
  { intros y s' H. unfold VisionTransformer_forward in H.
    apply bind_inv in H. destruct H as (e & s1 & He & _).
    apply lift_inv in He. destruct He as (He & _).
    destruct (InputEmbedding_forward_4d _ x e He) as (Bn & C & H & W & Hs).
    destruct Hok as [Heok Hp Hc _ _ _ _].
    destruct (InputEmbedding_forward_needs (input_embedding self) x e
                Bn C H W Heok ltac:(rewrite Hp; lia) Hs He)
      as (HC & HH & HW).
    rewrite Hp in HH, HW. rewrite Hc in HC. subst C.
    exists Bn, H, W. auto. }
  split; [split|].
  - intros (y & s' & H). exact (Hneed y s' H).
  - intros (Bn & H & W & Hs & HH & HW).
    destruct (VisionTransformer_forward_logits training self x Bn H W s
                Hok Hs HH HW) as (y & s' & Hy & _). eauto.
  - intros y s' Hy.
    destruct (Hneed y s' Hy) as (Bn & H & W & Hs & HH & HW).
    destruct (VisionTransformer_forward_logits training self x Bn H W s
                Hok Hs HH HW) as (y' & s1 & Hy' & Hsy).
    assert (y' = y) by congruence. subst y'. rewrite Hs. exact Hsy.
Qed.

End AcceptFacts.


Lemma VisionTransformer_forward_accepts_witness :
  exists self s',
    @VisionTransformer_init counter_backend 1 8 10 half 0 = Some (self, s') /\
    ((exists y s1,
         @VisionTransformer_forward counter_backend false self
           (zeros [2; 3; 16; 32]) 0 = Some (y, s1))
     <-> (exists Bn H W, shape (zeros [2; 3; 16; 32]) = [Bn; 3; H; W] /\
                         H mod 16 = 0 /\ W mod 16 = 0)) /\
    (forall y s1,
        @VisionTransformer_forward counter_backend false self
          (zeros [2; 3; 16; 32]) 0 = Some (y, s1) ->
        shape y = [hd 0 (shape (zeros [2; 3; 16; 32]));
                   vit_num_classes self]).
Proof.
  destruct (@VisionTransformer_init_ok counter_backend 1 8 10 half 0
              eq_refl ltac:(lia)) as (self & s' & H & Hok & _).
  exists self, s'. split; [exact H|].
  exact (@VisionTransformer_forward_accepts counter_backend false self
           (zeros [2; 3; 16; 32]) 0 Hok).
Defined.

(* ================================================================== *)
(** * Slices of tensors *)
(* ================================================================== *)

Lemma nth_chunks (n cnt : nat) (d : list float32) (r : nat) :
  r < cnt -> nth r (chunks n cnt d) [] = firstn n (skipn (r * n) d).
Proof.
  revert d r. induction cnt as [|c IH]; intros d r Hr; [lia|].
  destruct r as [|r]; simpl; [reflexivity|].
  rewrite IH by lia. rewrite skipn_skipn. f_equal. f_equal. lia.
Qed.

Lemma row_length (t : Tensor) (r : nat) :
  wf t -> r < nrows (shape t) -> length (row t r) = last_dim (shape t).
Proof.
  intros Hwf Hr. pose proof (rows_uniform t Hwf) as HU.
  rewrite Forall_forall in HU. apply HU. apply nth_In.
  rewrite rows_length. exact Hr.
Qed.

Lemma get_row (t : Tensor) (r j : nat) :
  r < nrows (shape t) -> j < last_dim (shape t) ->
  nth j (row t r) pzero = get t (r * last_dim (shape t) + j).
Proof.
  intros Hr Hj. unfold row, rows, get. rewrite nth_chunks by exact Hr.
  rewrite nth_firstn. apply Nat.ltb_lt in Hj. rewrite Hj.
  apply nth_skipn.
Qed.

Lemma row_ext (t t' : Tensor) (r : nat) :
  wf t -> wf t' -> shape t = shape t' -> r < nrows (shape t) ->
  (forall j, j < last_dim (shape t) ->
             get t (r * last_dim (shape t) + j)
             = get t' (r * last_dim (shape t) + j)) ->
  row t r = row t' r.
Proof.
  intros Hwf Hwf' Hs Hr Hg.
  apply (nth_ext _ _ pzero pzero).
  - rewrite !row_length by (rewrite <- ?Hs; assumption).
    rewrite Hs. reflexivity.
  - intros j Hj. rewrite row_length in Hj by assumption.
    rewrite !get_row by (rewrite <- ?Hs; assumption).
    rewrite <- Hs. apply Hg. exact Hj.
Qed.

Lemma nth_map_rows (f : list float32 -> list float32)
  (R : list (list float32)) (r : nat) :
  r < length R -> nth r (map f R) [] = f (nth r R []).
Proof.
  intros Hr. rewrite (nth_indep _ [] (f [])) by (rewrite length_map; exact Hr).
  apply map_nth.
Qed.

Lemma nth_map_combine (g : list float32 * list float32 -> list float32)
  (R Q : list (list float32)) (r : nat) :
  length R = length Q -> r < length R ->
  nth r (map g (combine R Q)) [] = g (nth r R [], nth r Q []).
Proof.
  intros Hl Hr.
  rewrite (nth_indep _ [] (g ([], [])))
    by (rewrite length_map, length_combine; lia).
  rewrite map_nth, combine_nth by exact Hl. reflexivity.
Qed.

(** A slice-wise operation keeps the agreement. *)
Lemma agree_map (f : list float32 -> list float32) (I : nat -> Prop)
  (x x' y y' : Tensor) :
  agree_on I x x' ->
  shape y = shape y' -> wf y -> wf y' ->
  nrows (shape y) = nrows (shape x) ->
  rows y = map f (rows x) -> rows y' = map f (rows x') ->
  agree_on I y y'.
Proof.
  intros (Hs & Hwx & Hwx' & Hr) Hsy Hwy Hwy' Hn Hy Hy'.
  split; [exact Hsy|]. split; [exact Hwy|]. split; [exact Hwy'|].
  intros r HI Hlt. unfold row. rewrite Hy, Hy'.
  rewrite !nth_map_rows
    by (rewrite rows_length, <- ?Hs, <- Hn; exact Hlt).
  f_equal. apply Hr; [exact HI | rewrite <- Hn; exact Hlt].
Qed.

(** So does a slice-wise combination with slices that agree. *)
Lemma agree_zip (g : list float32 * list float32 -> list float32)
  (I : nat -> Prop) (x x' y y' : Tensor) (Q Q' : list (list float32)) :
  agree_on I x x' ->
  length Q = nrows (shape x) -> length Q' = nrows (shape x) ->
  (forall r, I r -> r < nrows (shape x) -> nth r Q [] = nth r Q' []) ->
  shape y = shape y' -> wf y -> wf y' ->
  nrows (shape y) = nrows (shape x) ->
  rows y = map g (combine (rows x) Q) ->
  rows y' = map g (combine (rows x') Q') ->
  agree_on I y y'.
Proof.
  intros (Hs & Hwx & Hwx' & Hr) HQ HQ' HQr Hsy Hwy Hwy' Hn Hy Hy'.
  split; [exact Hsy|]. split; [exact Hwy|]. split; [exact Hwy'|].
  intros r HI Hlt. rewrite Hn in Hlt. unfold row. rewrite Hy, Hy'.
  rewrite !nth_map_combine
    by (rewrite rows_length, <- ?Hs; first [congruence | exact Hlt]).
  f_equal. f_equal; [apply Hr | apply HQr]; assumption.
Qed.

Lemma agree_refl (I : nat -> Prop) (x : Tensor) : wf x -> agree_on I x x.
Proof. intros H. repeat split; auto. Qed.

(* ================================================================== *)
(** * The layers, slice by slice *)
(* ================================================================== *)

Lemma affine_row_length (w b : option Tensor) (r : list float32) (n : nat) :
  (forall wt, w = Some wt -> length (data wt) = n) ->
  (forall bt, b = Some bt -> length (data bt) = n) ->
  length r = n -> length (affine_row w b r) = n.
Proof.
  intros Hw Hb Hr. unfold affine_row.
  destruct w as [wt|], b as [bt|]; rewrite ?zip_with_length;
    rewrite ?(Hw _ eq_refl), ?(Hb _ eq_refl), ?Hr; lia.
Qed.

Lemma LayerNorm_forward_rows (ln : LayerNorm) (x y : Tensor) :
  LayerNorm_ok ln -> wf x -> LayerNorm_forward ln x = Some y ->
  shape y = shape x /\ wf y /\
  rows y = map (fun r => affine_row (ln_weight ln) (ln_bias ln)
                           (layer_norm_row (ln_eps ln) r)) (rows x).
Proof.
  intros [Hw Hb] Hwf Hy. unfold LayerNorm_forward in Hy.
  destruct (shape x) as [|d sh] eqn:Hsh; [discriminate|].
  rewrite <- Hsh in *.
  destruct (last_dim (shape x) =? normalized_shape ln) eqn:El;
    [|discriminate].
  apply Nat.eqb_eq in El. some_subst Hy. cbn [shape].
  split; [reflexivity|].
  destruct (rows_of_concat (shape x)
              (map (fun r => affine_row (ln_weight ln) (ln_bias ln)
                               (layer_norm_row (ln_eps ln) r)) (rows x)))
    as [Hr Hwy].
  - rewrite length_map. apply rows_length.
  - apply Forall_forall. intros r Hin. apply in_map_iff in Hin.
    destruct Hin as (r0 & <- & Hin).
    pose proof (rows_uniform x Hwf) as HU. rewrite Forall_forall in HU.
    rewrite El. apply affine_row_length; [exact Hw | exact Hb |].
    unfold layer_norm_row. rewrite length_map, <- El. apply HU. exact Hin.
  - split; [exact Hwy | exact Hr].
Qed.

Lemma F_linear_rows (x W y : Tensor) (b : option Tensor) :
  wf x -> (forall bt, b = Some bt -> wf bt) ->
  F_linear x W b = Some y ->
  nrows (shape y) = nrows (shape x) /\ wf y /\
  (exists out, shape y = lead (shape x) ++ [out]) /\
  rows y = map (linear_row (rows W) b) (rows x).
Proof.
  intros Hwf Hb Hy. unfold F_linear in Hy.
  destruct (shape W) as [|out [|inn [|? ?]]] eqn:HW; try discriminate.
  destruct (shape x) as [|d sh] eqn:Hsh; [discriminate|].
  rewrite <- Hsh in *.
  destruct (last_dim (shape x) =? inn) eqn:El; [|discriminate].
  destruct (bias_fits b out) eqn:Hfit; [|discriminate].
  simpl in Hy. some_subst Hy. cbn [shape].
  assert (Hlen : length (rows W) = out).
  { rewrite rows_length, HW. unfold nrows. simpl. lia. }
  assert (Hbl : forall bt, b = Some bt -> length (data bt) = length (rows W)).
  { intros bt ->. specialize (Hb bt eq_refl). unfold bias_fits in Hfit.
    destruct (list_eq_dec Nat.eq_dec (shape bt) [out]) as [Es|];
      [|discriminate].
    rewrite Hlen, Hb, Es. simpl. lia. }
  destruct (rows_of_concat (lead (shape x) ++ [out])
              (map (linear_row (rows W) b) (rows x))) as [Hr Hwy].
  - rewrite length_map, rows_length, nrows_app. reflexivity.
  - apply Forall_forall. intros r Hin. apply in_map_iff in Hin.
    destruct Hin as (r0 & <- & _).
    rewrite last_dim_app, (linear_row_length _ _ _ Hbl). exact Hlen.
  - split; [apply nrows_app|]. split; [exact Hwy|].
    split; [exists out; reflexivity | exact Hr].
Qed.

(** The statement of the forward pass of [BitLinear], for use in the
    proofs below. *)
Lemma BitLinear_forward_rows (self : BitLinear) (x : Tensor)
  (ld : list nat) :
  BitLinear_ok self -> 0 < in_features self ->
  wf x -> shape x = ld ++ [in_features self] ->
  exists y, BitLinear_forward self x = Some y /\
            shape y = ld ++ [out_features self] /\
            wf y /\
            rows y = spec_BitLinear_rows self x.
Proof.
  intros [Hws Hww Hb Hn] Hin Hx Hs. unfold BitLinear_forward.
  rewrite Hn.
  destruct (LayerNorm_forward_plain _ x ld Hx Hs)
    as (xn & -> & Hsn & Hwn & Hrn).
  assert (Hl : last_dim (shape xn) <> 0)
    by (rewrite Hsn, Hs, last_dim_app; lia).
  destruct (activation_quant_rows xn Hwn Hl) as (aq & -> & Hsa & Hwa & HF).
  unfold tsub, tadd, detach.
  rewrite (tzip_same sub aq xn Hsa).
  rewrite (tzip_same add xn
             (mkTensor (shape aq) (zip_with sub (data aq) (data xn)))
             (eq_sym Hsa)). cbn [shape data].
  rewrite (tzip_same sub (weight_quant (weight self)) (weight self) eq_refl).
  rewrite (tzip_same add (weight self)
             (mkTensor (shape (weight_quant (weight self)))
                (zip_with sub (data (weight_quant (weight self)))
                   (data (weight self))))
             eq_refl). cbn [shape data].
  set (xq := mkTensor (shape xn)
               (zip_with add (data xn) (zip_with sub (data aq) (data xn)))).
  set (wq := mkTensor (shape (weight self)) _).
  assert (Hrq : rows xq = spec_x_q (rows xn)).
  { unfold xq, rows. cbn [shape data]. rewrite !chunks_zip_with.
    rewrite <- Hsa at 3 4. apply (ste_rows (rows xn) (rows aq) HF). }
  assert (Hrw : rows wq = spec_w_q (weight self))
    by apply weight_ste_rows.
  assert (Hlw : length (rows wq) = out_features self).
  { rewrite rows_length. unfold wq. cbn [shape]. rewrite Hws.
    unfold nrows. simpl. lia. }
  assert (Hbl : forall bt, bias self = Some bt ->
                           length (data bt) = length (rows wq)).
  { intros bt Hbt. destruct (Hb bt Hbt) as [Hsb Hwb].
    rewrite Hlw, Hwb, Hsb. simpl. lia. }
  rewrite (F_linear_some xq wq (bias self) ld (out_features self)
             (in_features self) Hws (eq_trans Hsn Hs)
             (bias_fits_ok self (mkBitLinear_ok self Hws Hww Hb Hn))).
  eexists. split; [reflexivity|]. split; [reflexivity|].
  destruct (rows_of_concat (ld ++ [out_features self])
              (map (linear_row (rows wq) (bias self)) (rows xq)))
    as [Hr Hw].
  - rewrite length_map, rows_length, nrows_app. unfold xq. cbn [shape].
    rewrite Hsn, Hs. apply nrows_app.
  - apply Forall_forall. intros r Hr. apply in_map_iff in Hr.
    destruct Hr as (r0 & <- & _).
    rewrite last_dim_app, (linear_row_length _ _ _ Hbl). exact Hlw.
  - split; [exact Hw|]. rewrite Hr. unfold spec_BitLinear_rows.
    rewrite Hrq, Hrw, Hrn. apply map_ext. intros r.
    apply linear_row_spec. intros bt Hbt. rewrite <- Hrw. now apply Hbl.
Qed.

Lemma BitLinear_forward_agree (self : BitLinear) (I : nat -> Prop)
  (x x' y y' : Tensor) :
  BitLinear_ok self ->
  agree_on I x x' ->
  BitLinear_forward self x = Some y -> BitLinear_forward self x' = Some y' ->
  agree_on I y y'.
Proof.
  intros Hok Hag Hy Hy'. pose proof Hag as (Hs & Hwx & Hwx' & _).
  destruct (BitLinear_forward_inv self x y Hok Hy) as (Hl & Hne).
  assert (Hin : 0 < in_features self).
  { destruct (Nat.eq_dec (in_features self) 0) as [H0|]; [|lia].
    rewrite (BitLinear_forward_zero_width self x Hok H0) in Hy.
    discriminate. }
  assert (Hsx : shape x = lead (shape x) ++ [in_features self])
    by (rewrite <- Hl; apply shape_lead_last; exact Hne).
  destruct (BitLinear_forward_rows self x _ Hok Hin Hwx Hsx)
    as (y0 & Hy0 & Hsy & Hwy & Hry).
  assert (y0 = y) by congruence. subst y0.
  destruct (BitLinear_forward_rows self x' (lead (shape x)) Hok Hin Hwx'
              ltac:(rewrite <- Hs; exact Hsx))
    as (y0 & Hy0' & Hsy' & Hwy' & Hry').
  assert (y0 = y') by congruence. subst y0.
  unfold spec_BitLinear_rows, spec_x_q in Hry, Hry'.
  rewrite !map_map in Hry, Hry'.
  refine (agree_map _ I x x' y y' Hag _ Hwy Hwy' _ Hry Hry').
  - congruence.
  - rewrite Hsy, nrows_app. rewrite Hsx at 2. rewrite nrows_app. reflexivity.
Qed.

Lemma tadd_agree (I : nat -> Prop) (a a' b b' y y' : Tensor) :
  agree_on I a a' -> agree_on I b b' ->
  tadd a b = Some y -> tadd a' b' = Some y' ->
  agree_on I y y'.
Proof.
  intros Ha Hb Hy Hy'.
  pose proof Ha as (Hsa & Hwa & Hwa' & _).
  pose proof Hb as (Hsb & Hwb & Hwb' & Hrb).
  unfold tadd, tzip in Hy, Hy'.
  destruct (list_eq_dec Nat.eq_dec (shape a) (shape b)) as [Eab|];
    [|discriminate].
  destruct (list_eq_dec Nat.eq_dec (shape a') (shape b')) as [Eab'|];
    [|discriminate].
  some_subst Hy. some_subst Hy'.
  apply (agree_zip (fun p => zip_with add (fst p) (snd p)) I a a' _ _
           (rows b) (rows b') Ha); cbn [shape data].
  - rewrite rows_length. congruence.
  - rewrite rows_length. congruence.
  - intros r HI Hr. apply Hrb; [exact HI | congruence].
  - exact Hsa.
  - unfold wf. cbn [shape data]. rewrite zip_with_length, Hwa, Hwb, Eab. lia.
  - unfold wf. cbn [shape data].
    rewrite zip_with_length, Hwa', Hwb', Eab'. lia.
  - reflexivity.
  - unfold rows. cbn [shape data]. rewrite chunks_zip_with.
    rewrite <- Eab. reflexivity.
  - unfold rows. cbn [shape data]. rewrite chunks_zip_with.
    rewrite <- Eab'. reflexivity.
Qed.

Section LocalityFacts.

Context {B : Backend}.

Lemma dropout_noise_length (p : float32) (n : nat) (s : rng) :
  length (fst (dropout_noise p n s)) = n.
Proof.
  revert s. induction n as [|n IH]; intros s; simpl; [reflexivity|].
  destruct (next_uniform s) as [u s1]. specialize (IH s1).
  destruct (dropout_noise p n s1) as [r s2]. simpl in *. congruence.
Qed.

Lemma tmap_agree (f : float32 -> float32) (I : nat -> Prop) (x x' : Tensor) :
  agree_on I x x' -> agree_on I (tmap f x) (tmap f x').
Proof.
  intros Hag. pose proof Hag as (Hs & Hwx & Hwx' & _).
  apply (agree_map (map f) I x x' _ _ Hag).
  - exact Hs.
  - apply wf_tmap. exact Hwx.
  - apply wf_tmap. exact Hwx'.
  - reflexivity.
  - apply rows_tmap.
  - apply rows_tmap.
Qed.

Lemma Dropout_forward_agree (p : float32) (training : bool)
  (I : nat -> Prop) (x x' y y' : Tensor) (s s1 s1' : rng) :
  agree_on I x x' ->
  Dropout_forward p training x s = Some (y, s1) ->
  Dropout_forward p training x' s = Some (y', s1') ->
  s1 = s1' /\ agree_on I y y'.
Proof.
  intros Hag Hy Hy'. pose proof Hag as (Hs & Hwx & Hwx' & _).
  unfold Dropout_forward in Hy, Hy'. destruct training.
  - rewrite <- Hs in Hy'.
    destruct (eqb p pzero || (numel (shape x) =? 0)).
    { unfold ret in Hy, Hy'.
      assert (y = x) by congruence. assert (y' = x') by congruence.
      subst y y'. split; [congruence | exact Hag]. }
    destruct (eqb p (of_Z 1)).
    { unfold ret in Hy, Hy'.
      assert (y = tmap (fun v => mul v pzero) x) by congruence.
      assert (y' = tmap (fun v => mul v pzero) x') by congruence.
      subst y y'. split; [congruence | apply tmap_agree; exact Hag]. }
    pose proof (dropout_noise_length p (numel (shape x)) s) as Hlen.
    destruct (dropout_noise p (numel (shape x)) s) as [noise s2].
    simpl in Hlen.
    assert (Ey : y = mkTensor (shape x) (zip_with mul (data x) noise))
      by congruence.
    assert (Ey' : y' = mkTensor (shape x) (zip_with mul (data x') noise))
      by congruence.
    split; [congruence|]. subst y y'.
    apply (agree_zip (fun p => zip_with mul (fst p) (snd p)) I x x' _ _
             (chunks (last_dim (shape x)) (nrows (shape x)) noise)
             (chunks (last_dim (shape x)) (nrows (shape x)) noise) Hag);
      cbn [shape data].
    + apply chunks_length.
    + apply chunks_length.
    + reflexivity.
    + reflexivity.
    + unfold wf. cbn [shape data]. rewrite zip_with_length, Hwx, Hlen. lia.
    + unfold wf. cbn [shape data].
      rewrite zip_with_length, Hwx', Hlen, <- Hs. lia.
    + reflexivity.
    + unfold rows. cbn [shape data]. apply chunks_zip_with.
    + unfold rows. cbn [shape data]. rewrite <- Hs. apply chunks_zip_with.
  - unfold ret in Hy, Hy'.
    assert (y = x) by congruence. assert (y' = x') by congruence.
    subst y y'. split; [congruence | exact Hag].
Qed.

Lemma LayerNorm_forward_agree (ln : LayerNorm) (I : nat -> Prop)
  (x x' y y' : Tensor) :
  LayerNorm_ok ln -> agree_on I x x' ->
  LayerNorm_forward ln x = Some y -> LayerNorm_forward ln x' = Some y' ->
  agree_on I y y'.
Proof.
  intros Hln Hag Hy Hy'. pose proof Hag as (Hs & Hwx & Hwx' & _).
  destruct (LayerNorm_forward_rows ln x y Hln Hwx Hy) as (Hsy & Hwy & Hry).
  destruct (LayerNorm_forward_rows ln x' y' Hln Hwx' Hy')
    as (Hsy' & Hwy' & Hry').
  refine (agree_map _ I x x' y y' Hag _ Hwy Hwy' _ Hry Hry').
  - congruence.
  - rewrite Hsy. reflexivity.
Qed.

Lemma F_linear_agree (W : Tensor) (b : option Tensor) (I : nat -> Prop)
  (x x' y y' : Tensor) :
  (forall bt, b = Some bt -> wf bt) ->
  agree_on I x x' ->
  F_linear x W b = Some y -> F_linear x' W b = Some y' ->
  agree_on I y y'.
Proof.
  intros Hb Hag Hy Hy'. pose proof Hag as (Hs & Hwx & Hwx' & _).
  destruct (F_linear_rows x W y b Hwx Hb Hy) as (Hn & Hwy & _ & Hry).
  destruct (F_linear_rows x' W y' b Hwx' Hb Hy') as (Hn' & Hwy' & _ & Hry').
  refine (agree_map _ I x x' y y' Hag _ Hwy Hwy' Hn Hry Hry').
  unfold F_linear in Hy, Hy'. rewrite <- Hs in Hy'.
  destruct (shape W) as [|out [|inn [|? ?]]]; try discriminate.
  destruct (shape x) as [|d sh]; [discriminate|].
  destruct (_ && _); [|discriminate].
  some_subst Hy. some_subst Hy'. reflexivity.
Qed.

Lemma Sequential_forward_agree (training : bool) (I : nat -> Prop)
  (ls : list Layer) :
  forall (din dout : nat),
    Sequential_ok ls din dout -> Forall Layer_ok ls ->
    forall (x x' y y' : Tensor) (s s1 s1' : rng),
      agree_on I x x' ->
      Sequential_forward training ls x s = Some (y, s1) ->
      Sequential_forward training ls x' s = Some (y', s1') ->
      s1 = s1' /\ agree_on I y y'.
Proof.
  induction ls as [|l ls IH]; intros din dout Hok Hl x x' y y' s s1 s1'
                                     Hag Hy Hy'.
  - simpl in Hy, Hy'. unfold ret in Hy, Hy'.
    assert (y = x) by congruence. assert (y' = x') by congruence.
    subst y y'. split; [congruence | exact Hag].
  - simpl in Hy, Hy'.
    apply bind_inv in Hy. destruct Hy as (z & s2 & Hz & Hy).
    apply bind_inv in Hy'. destruct Hy' as (z' & s2' & Hz' & Hy').
    inversion Hl as [|? ? Hl1 Hl2]; subst.
    assert (Hstep : s2 = s2' /\ agree_on I z z' /\
                    exists d, Sequential_ok ls d dout).
    { destruct l as [ln|bl| |p]; simpl in Hz, Hz', Hok.
      - apply lift_inv in Hz. apply lift_inv in Hz'.
        destruct Hz as (Hz & ->). destruct Hz' as (Hz' & ->).
        split; [reflexivity|]. destruct Hok as (_ & Hok).
        split; [|eauto].
        exact (LayerNorm_forward_agree ln I x x' z z' Hl1 Hag Hz Hz').
      - apply lift_inv in Hz. apply lift_inv in Hz'.
        destruct Hz as (Hz & ->). destruct Hz' as (Hz' & ->).
        split; [reflexivity|]. destruct Hok as (Hbl & _ & _ & Hok).
        split; [|eauto].
        exact (BitLinear_forward_agree bl I x x' z z' Hbl Hag Hz Hz').
      - unfold ret in Hz, Hz'.
        assert (z = tmap gelu x) by congruence.
        assert (z' = tmap gelu x') by congruence. subst z z'.
        split; [congruence|]. split; [apply tmap_agree; exact Hag | eauto].
      - destruct (Dropout_forward_agree p training I x x' z z' s s2 s2'
                    Hag Hz Hz') as (Es & Hagz).
        split; [exact Es|]. split; [exact Hagz | eauto]. }
    destruct Hstep as (<- & Hagz & d & Hokd).
    exact (IH d dout Hokd Hl2 z z' y y' s2 s1 s1' Hagz Hy Hy').
Qed.

End LocalityFacts.

Section AttentionFacts.

Context {B : Backend}.

(* ================================================================== *)
(** * Attention runs along the first dimension *)
(* ================================================================== *)

Lemma MultiheadAttention_forward_eq (self : MultiheadAttention)
  (training : bool) (x : Tensor) (L N : nat) :
  shape x = [L; N; embed_dim self] ->
  MultiheadAttention_forward self training x
  = (do qkv <~ lift (F_linear x (in_proj_weight self)
                       (Some (in_proj_bias self))) ;
     do weights' <~
        Dropout_forward (mha_dropout self) training
          (attention_weights
             (attention_scores qkv L N (embed_dim self)
                (mha_num_heads self))) ;
     lift (F_linear
             (attention_context weights' qkv L N (embed_dim self)
                (mha_num_heads self))
             (out_proj_weight self) (Some (out_proj_bias self)))).
Proof.
  intros Hs. unfold MultiheadAttention_forward, attention_batched.
  rewrite Hs, Nat.eqb_refl. reflexivity.
Qed.

Lemma get_tab (sh : list nat) (n : nat) (f : nat -> float32) (i : nat) :
  i < n -> get (mkTensor sh (tab n f)) i = f i.
Proof. intros Hi. unfold get. cbn [data]. apply nth_tab. exact Hi. Qed.

Lemma flat2_bound (a l A L : nat) : a < A -> l < L -> a * L + l < A * L.
Proof.
  intros Ha Hl. pose proof (Nat.mul_le_mono_r (S a) A L Ha). lia.
Qed.

Lemma head_index (n h hh : nat) :
  hh < h -> (n * h + hh) / h = n /\ (n * h + hh) mod h = hh.
Proof.
  intros Hhh. split.
  - rewrite Nat.div_add_l by lia. rewrite Nat.div_small by exact Hhh. lia.
  - rewrite Nat.add_comm, Nat.Div0.mod_add. apply Nat.mod_small. exact Hhh.
Qed.

Lemma attention_scores_get (qkv qkv' : Tensor) (L N E h n : nat) :
  n < N ->
  (forall l j, l < L -> j < 3 * E ->
     get qkv ((l * N + n) * (3 * E) + j)
     = get qkv' ((l * N + n) * (3 * E) + j)) ->
  forall hh l l2, hh < h -> l < L -> l2 < L ->
    get (attention_scores qkv L N E h) (((n * h + hh) * L + l) * L + l2)
    = get (attention_scores qkv' L N E h) (((n * h + hh) * L + l) * L + l2).
Proof.
  intros Hn Hg hh l l2 Hhh Hl Hl2. unfold attention_scores.
  assert (Hb : ((n * h + hh) * L + l) * L + l2 < N * h * L * L).
  { apply flat3_bound; [apply flat2_bound; assumption | exact Hl | exact Hl2]. }
  rewrite !get_tab by exact Hb.
  destruct (flat3_decode (n * h + hh) l l2 L L Hl Hl2) as (D1 & D2 & D3).
  destruct (head_index n h hh Hhh) as (Dn & Dh).
  cbv zeta. rewrite D1, D2, D3, Dn, Dh.
  f_equal. apply map_ext_in. intros c Hc. apply in_seq in Hc.
  assert (Hj : hh * (E / h) + c < E).
  { pose proof (Nat.Div0.mul_div_le E h). nia. }
  rewrite <- !Nat.add_assoc.
  rewrite (Hg l (hh * (E / h) + c)) by lia.
  rewrite (Hg l2 (E + (hh * (E / h) + c))) by lia.
  reflexivity.
Qed.

Lemma attention_scores_wf (qkv : Tensor) (L N E h : nat) :
  wf (attention_scores qkv L N E h).
Proof.
  unfold wf, attention_scores. cbn [shape data numel fold_right].
  rewrite tab_length. lia.
Qed.

Lemma attention_scores_agree (qkv qkv' : Tensor) (L N E h n : nat) :
  h <> 0 -> n < N ->
  (forall l j, l < L -> j < 3 * E ->
     get qkv ((l * N + n) * (3 * E) + j)
     = get qkv' ((l * N + n) * (3 * E) + j)) ->
  agree_on (fun r => r / L / h = n)
    (attention_scores qkv L N E h) (attention_scores qkv' L N E h).
Proof.
  intros Hh Hn Hg.
  split; [reflexivity|]. split; [apply attention_scores_wf|].
  split; [apply attention_scores_wf|].
  intros r HI Hr.
  apply row_ext; try apply attention_scores_wf; try reflexivity;
    [exact Hr|].
  change (last_dim (shape (attention_scores qkv L N E h))) with L.
  intros j Hj.
  assert (Er : r = (n * h + r / L mod h) * L + r mod L).
  { pose proof (Nat.div_mod_eq r L).
    pose proof (Nat.div_mod_eq (r / L) h). rewrite HI in *. nia. }
  rewrite Er.
  apply (attention_scores_get qkv qkv' L N E h n Hn Hg).
  - apply Nat.mod_upper_bound. exact Hh.
  - apply Nat.mod_upper_bound. lia.
  - exact Hj.
Qed.

Lemma softmax_row_length (r : list float32) :
  length (softmax_row r) = length r.
Proof. unfold softmax_row. rewrite !length_map. reflexivity. Qed.

Lemma attention_weights_rows (sc : Tensor) :
  wf sc ->
  rows (attention_weights sc) = map softmax_row (rows sc) /\
  wf (attention_weights sc).
Proof.
  intros Hwf. unfold attention_weights. apply rows_of_concat.
  - rewrite length_map. apply rows_length.
  - apply Forall_forall. intros r Hin. apply in_map_iff in Hin.
    destruct Hin as (r0 & <- & Hin). rewrite softmax_row_length.
    pose proof (rows_uniform sc Hwf) as HU. rewrite Forall_forall in HU.
    apply HU. exact Hin.
Qed.

Lemma attention_weights_agree (I : nat -> Prop) (sc sc' : Tensor) :
  agree_on I sc sc' ->
  agree_on I (attention_weights sc) (attention_weights sc').
Proof.
  intros Hag. pose proof Hag as (Hs & Hw & Hw' & _).
  destruct (attention_weights_rows sc Hw) as (Hr & Hwf).
  destruct (attention_weights_rows sc' Hw') as (Hr' & Hwf').
  refine (agree_map softmax_row I sc sc' _ _ Hag _ Hwf Hwf' _ Hr Hr').
  - exact Hs.
  - reflexivity.
Qed.

Lemma attention_context_get (w w' qkv qkv' : Tensor) (L N E h n : nat) :
  E mod h = 0 -> n < N ->
  shape w = [N * h; L; L] -> shape w' = [N * h; L; L] ->
  (forall l j, l < L -> j < 3 * E ->
     get qkv ((l * N + n) * (3 * E) + j)
     = get qkv' ((l * N + n) * (3 * E) + j)) ->
  (forall hh l l2, hh < h -> l < L -> l2 < L ->
     get w (((n * h + hh) * L + l) * L + l2)
     = get w' (((n * h + hh) * L + l) * L + l2)) ->
  forall l j, l < L -> j < E ->
    get (attention_context w qkv L N E h) ((l * N + n) * E + j)
    = get (attention_context w' qkv' L N E h) ((l * N + n) * E + j).
Proof.
  intros Hm Hn Hsw Hsw' Hg Hw l j Hl Hj. unfold attention_context.
  assert (Hb : (l * N + n) * E + j < L * N * E)
    by (apply flat3_bound; assumption).
  rewrite !get_tab by exact Hb.
  destruct (flat3_decode l n j N E Hn Hj) as (D1 & D2 & D3).
  cbv zeta. rewrite (Nat.mul_comm N E), D1, D2, D3.
  assert (Hhh : j / (E / h) < h).
  { apply Nat.Div0.div_lt_upper_bound.
    pose proof (Nat.div_mod_eq E h). rewrite Hm in *. nia. }
  f_equal. apply map_ext_in. intros l2 Hl2. apply in_seq in Hl2.
  unfold get3. rewrite Hsw, Hsw'.
  rewrite (Hw (j / (E / h)) l l2) by (first [exact Hhh | exact Hl | lia]).
  rewrite <- !Nat.add_assoc.
  rewrite (Hg l2 (2 * E + j)) by lia.
  reflexivity.
Qed.

Lemma attention_context_wf (w qkv : Tensor) (L N E h : nat) :
  wf (attention_context w qkv L N E h).
Proof.
  unfold wf, attention_context. cbn [shape data numel fold_right].
  rewrite tab_length. lia.
Qed.

Lemma column_index (T t r : nat) :
  column T t r -> t < T -> r = r / T * T + t.
Proof.
  unfold column. intros Hc Ht. pose proof (Nat.div_mod_eq r T). lia.
Qed.

Lemma column_get (x x' : Tensor) (L N E n : nat) :
  shape x = [L; N; E] -> n < N ->
  agree_on (column N n) x x' ->
  forall l j, l < L -> j < E ->
    get x ((l * N + n) * E + j) = get x' ((l * N + n) * E + j).
Proof.
  intros Hs Hn (Hss & Hw & Hw' & Hr) l j Hl Hj.
  assert (Hlt : l * N + n < nrows (shape x)).
  { rewrite Hs. unfold nrows. cbn. rewrite Nat.mul_1_r.
    apply flat2_bound; assumption. }
  assert (Hc : column N n (l * N + n)).
  { unfold column. rewrite Nat.add_comm, Nat.Div0.mod_add.
    apply Nat.mod_small. exact Hn. }
  pose proof (get_row x (l * N + n) j Hlt) as G.
  pose proof (get_row x' (l * N + n) j) as G'.
  rewrite <- Hss in G'. rewrite Hs in G, G'.
  change (last_dim [L; N; E]) with E in G, G'.
  rewrite <- G, <- G' by (rewrite <- ?Hs; assumption).
  rewrite (Hr _ Hc Hlt). reflexivity.
Qed.

Lemma get_column (x x' : Tensor) (L N E n : nat) :
  shape x = [L; N; E] -> shape x' = [L; N; E] -> wf x -> wf x' ->
  n < N ->
  (forall l j, l < L -> j < E ->
     get x ((l * N + n) * E + j) = get x' ((l * N + n) * E + j)) ->
  agree_on (column N n) x x'.
Proof.
  intros Hs Hs' Hw Hw' Hn Hg.
  split; [congruence|]. split; [exact Hw|]. split; [exact Hw'|].
  intros r Hc Hr.
  apply row_ext; try assumption; [congruence|].
  rewrite Hs in *. change (last_dim [L; N; E]) with E.
  unfold nrows in Hr. cbn in Hr.
  intros j Hj. rewrite (column_index N n r Hc Hn).
  apply Hg; [|exact Hj].
  apply Nat.Div0.div_lt_upper_bound. lia.
Qed.

Lemma bias_fits_shape (b : Tensor) (out : nat) :
  shape b = [out] -> bias_fits (Some b) out = true.
Proof.
  intros Hb. unfold bias_fits.
  destruct (list_eq_dec Nat.eq_dec (shape b) [out]);
    [reflexivity | contradiction].
Qed.

(** An attention module fed with a [[L; N; E]] tensor mixes the
    entries along the first dimension only: what it returns at
    position [n] of the second dimension comes from the inputs at that
    position. *)
Lemma MultiheadAttention_forward_agree (self : MultiheadAttention)
  (training : bool) (x x' y y' : Tensor) (L N n : nat) (s s1 s1' : rng) :
  MultiheadAttention_ok self ->
  mha_num_heads self <> 0 ->
  embed_dim self mod mha_num_heads self = 0 ->
  wf (in_proj_bias self) -> wf (out_proj_bias self) ->
  shape x = [L; N; embed_dim self] -> n < N ->
  agree_on (column N n) x x' ->
  MultiheadAttention_forward self training x s = Some (y, s1) ->
  MultiheadAttention_forward self training x' s = Some (y', s1') ->
  s1 = s1' /\ agree_on (column N n) y y'.
Proof.
  intros [Hipw Hipb Hopw Hopb] Hh Hm Hwib Hwob Hs Hn Hag Hy Hy'.
  pose proof Hag as (Hss & Hwx & Hwx' & _).
  assert (Hs' : shape x' = [L; N; embed_dim self]) by congruence.
  rewrite (MultiheadAttention_forward_eq self training x L N Hs) in Hy.
  rewrite (MultiheadAttention_forward_eq self training x' L N Hs') in Hy'.
  set (E := embed_dim self) in *. set (h := mha_num_heads self) in *.
  apply bind_inv in Hy. destruct Hy as (qkv & s2 & Hq & Hy).
  apply bind_inv in Hy'. destruct Hy' as (qkv' & s2' & Hq' & Hy').
  apply lift_inv in Hq. destruct Hq as (Hq & ->).
  apply lift_inv in Hq'. destruct Hq' as (Hq' & ->).
  assert (Hbias : forall b bt : Tensor, wf b -> Some b = Some bt -> wf bt)
    by (intros b bt Hb Eb; congruence).
  pose proof (F_linear_agree _ _ (column N n) x x' qkv qkv'
                (fun bt => Hbias _ bt Hwib) Hag Hq Hq') as Hagq.
  assert (Hsq : shape qkv = [L; N; 3 * E]).
  { rewrite (F_linear_some x (in_proj_weight self) (Some (in_proj_bias self))
               [L; N] (3 * E) E Hipw Hs (bias_fits_shape _ _ Hipb)) in Hq.
    some_subst Hq. reflexivity. }
  pose proof (column_get qkv qkv' L N (3 * E) n Hsq Hn Hagq) as Hg.
  apply bind_inv in Hy. destruct Hy as (w & s3 & Hw & Hy).
  apply bind_inv in Hy'. destruct Hy' as (w' & s3' & Hw' & Hy').
  apply lift_inv in Hy. destruct Hy as (Hy & ->).
  apply lift_inv in Hy'. destruct Hy' as (Hy' & ->).
  pose proof (attention_weights_agree _ _ _
                (attention_scores_agree qkv qkv' L N E h n Hh Hn Hg))
    as Hagw0.
  destruct (Dropout_forward_agree _ training _ _ _ w w' s s3 s3'
              Hagw0 Hw Hw') as (Es & Hagw).
  split; [exact Es|].
  assert (Hsw : shape w = [N * h; L; L]).
  { destruct (Dropout_forward_shape (mha_dropout self) training
                (attention_weights (attention_scores qkv L N E h)) s)
      as (w0 & s0 & Hw0 & Hsw0).
    assert (w0 = w) by congruence. subst w0. exact Hsw0. }
  assert (Hsw' : shape w' = [N * h; L; L]).
  { destruct Hagw as (Hsww & _). congruence. }
  assert (Hgw : forall hh l l2, hh < h -> l < L -> l2 < L ->
             get w (((n * h + hh) * L + l) * L + l2)
             = get w' (((n * h + hh) * L + l) * L + l2)).
  { intros hh l l2 Hhh Hl Hl2.
    destruct Hagw as (_ & _ & _ & Hr).
    assert (Hlt : (n * h + hh) * L + l < nrows (shape w)).
    { rewrite Hsw. unfold nrows. cbn. rewrite Nat.mul_1_r.
      apply flat2_bound; [apply flat2_bound; assumption | exact Hl]. }
    pose proof (get_row w ((n * h + hh) * L + l) l2 Hlt) as G.
    pose proof (get_row w' ((n * h + hh) * L + l) l2) as G'.
    rewrite Hsw' in G'. rewrite Hsw in G.
    change (last_dim [N * h; L; L]) with L in G, G'.
    rewrite <- G by exact Hl2.
    rewrite <- G' by (first [exact Hl2 | rewrite <- Hsw; exact Hlt]).
    rewrite Hr; [reflexivity | | exact Hlt].
    cbv beta.
    rewrite Nat.div_add_l by lia. rewrite (Nat.div_small l L Hl).
    rewrite Nat.add_0_r. apply (head_index n h hh Hhh). }
  pose proof (attention_context_get w w' qkv qkv' L N E h n Hm Hn Hsw Hsw'
                Hg Hgw) as Hgc.
  pose proof (get_column (attention_context w qkv L N E h)
                (attention_context w' qkv' L N E h) L N E n
                eq_refl eq_refl (attention_context_wf _ _ _ _ _ _)
                (attention_context_wf _ _ _ _ _ _) Hn Hgc) as Hagc.
  exact (F_linear_agree _ _ (column N n) _ _ y y' (fun bt => Hbias _ bt Hwob) Hagc Hy Hy').
Qed.

End AttentionFacts.

Section BlockFacts.

Context {B : Backend}.

(* ================================================================== *)
(** * Encoder blocks work position by position *)
(* ================================================================== *)

Lemma EncoderBlock_forward_agree (training : bool) (self : EncoderBlock)
  (x x' y y' : Tensor) (Bn T t : nat) (s s1 s1' : rng) :
  EncoderBlock_wf self ->
  shape x = [Bn; T; enc_latent_size self] -> t < T ->
  agree_on (column T t) x x' ->
  EncoderBlock_forward training self x s = Some (y, s1) ->
  EncoderBlock_forward training self x' s = Some (y', s1') ->
  s1 = s1' /\ agree_on (column T t) y y'.
Proof.
  intros [Hok Hln Hh Hm Hwib Hwob Hmlp] Hs Ht Hag Hy Hy'.
  pose proof Hok as [Hn Hmok He Hseq].
  unfold EncoderBlock_forward in Hy, Hy'.
  apply bind_inv in Hy. destruct Hy as (xn & s2 & Hxn & Hy).
  apply bind_inv in Hy'. destruct Hy' as (xn' & s2' & Hxn' & Hy').
  apply lift_inv in Hxn. destruct Hxn as (Hxn & ->).
  apply lift_inv in Hxn'. destruct Hxn' as (Hxn' & ->).
  pose proof (LayerNorm_forward_agree _ _ x x' xn xn' Hln Hag Hxn Hxn')
    as Hagn.
  assert (Hsn : shape xn = [Bn; T; embed_dim (multihead self)]).
  { apply LayerNorm_forward_inv in Hxn. destruct Hxn as (_ & _ & ->).
    rewrite Hs, He. reflexivity. }
  apply bind_inv in Hy. destruct Hy as (att & s3 & Hatt & Hy).
  apply bind_inv in Hy'. destruct Hy' as (att' & s3' & Hatt' & Hy').
  destruct (MultiheadAttention_forward_agree (multihead self) training
              xn xn' att att' Bn T t s s3 s3' Hmok Hh Hm Hwib Hwob Hsn Ht
              Hagn Hatt Hatt') as (<- & Haga).
  apply bind_inv in Hy. destruct Hy as (res & s4 & Hres & Hy).
  apply bind_inv in Hy'. destruct Hy' as (res' & s4' & Hres' & Hy').
  apply lift_inv in Hres. destruct Hres as (Hres & ->).
  apply lift_inv in Hres'. destruct Hres' as (Hres' & ->).
  pose proof (tadd_agree _ x x' att att' res res' Hag Haga Hres Hres')
    as Hagr.
  apply bind_inv in Hy. destruct Hy as (rn & s5 & Hrn & Hy).
  apply bind_inv in Hy'. destruct Hy' as (rn' & s5' & Hrn' & Hy').
  apply lift_inv in Hrn. destruct Hrn as (Hrn & ->).
  apply lift_inv in Hrn'. destruct Hrn' as (Hrn' & ->).
  pose proof (LayerNorm_forward_agree _ _ res res' rn rn' Hln Hagr Hrn Hrn')
    as Hagrn.
  apply bind_inv in Hy. destruct Hy as (mlp & s6 & Hmlp1 & Hy).
  apply bind_inv in Hy'. destruct Hy' as (mlp' & s6' & Hmlp1' & Hy').
  destruct (Sequential_forward_agree training _ (enc_MLP self) _ _ Hseq Hmlp
              rn rn' mlp mlp' s3 s6 s6' Hagrn Hmlp1 Hmlp1') as (<- & Hagm).
  apply lift_inv in Hy. destruct Hy as (Hy & ->).
  apply lift_inv in Hy'. destruct Hy' as (Hy' & ->).
  split; [reflexivity|].
  exact (tadd_agree _ res res' mlp mlp' y y' Hagr Hagm Hy Hy').
Qed.

Lemma encoder_loop_agree (training : bool) (stack : list EncoderBlock)
  (latent Bn T t : nat) :
  Forall (fun b => EncoderBlock_ok b /\ enc_latent_size b = latent) stack ->
  Forall EncoderBlock_wf stack ->
  t < T ->
  forall (x x' y y' : Tensor) (s s1 s1' : rng),
    shape x = [Bn; T; latent] ->
    agree_on (column T t) x x' ->
    encoder_loop training stack x s = Some (y, s1) ->
    encoder_loop training stack x' s = Some (y', s1') ->
    s1 = s1' /\ agree_on (column T t) y y' /\ shape y = [Bn; T; latent].
Proof.
  intros Hst Hwf Ht. induction stack as [|b stack IH];
    intros x x' y y' s s1 s1' Hs Hag Hy Hy'.
  - simpl in Hy, Hy'. unfold ret in Hy, Hy'.
    assert (y = x) by congruence. assert (y' = x') by congruence.
    subst y y'. split; [congruence|]. split; assumption.
  - simpl in Hy, Hy'.
    inversion Hst as [|? ? [Hbok Hbl] Hst']; subst.
    inversion Hwf as [|? ? Hbwf Hwf']; subst.
    apply bind_inv in Hy. destruct Hy as (z & s2 & Hz & Hy).
    apply bind_inv in Hy'. destruct Hy' as (z' & s2' & Hz' & Hy').
    destruct (EncoderBlock_forward_agree training b x x' z z' Bn T t s s2 s2'
                Hbwf Hs Ht Hag Hz Hz') as (<- & Hagz).
    assert (Hsz : shape z = [Bn; T; enc_latent_size b]).
    { destruct (EncoderBlock_forward_shape training b x Bn T s Hbok Hs)
        as (z0 & s0 & Hz0 & Hsz0).
      assert (z0 = z) by congruence. subst z0. exact Hsz0. }
    exact (IH Hst' Hwf' z z' y y' s2 s1 s1' Hsz Hagz Hy Hy').
Qed.

Lemma get3_get (t : Tensor) (Bn T L b i k : nat) :
  shape t = [Bn; T; L] -> get3 t b i k = get t ((b * T + i) * L + k).
Proof. intros Hs. unfold get3. rewrite Hs. reflexivity. Qed.

End BlockFacts.

Section ColumnFacts.

Context {B : Backend}.

(** X12.  An encoder block never lets the positions of a sequence see
    each other: its attention module is used with the default
    [batch_first=False] on a [[batch; sequence; latent]] tensor, so it
    attends along the batch.  Two inputs of one shape that hold the
    same values at sequence position [t] (in every batch entry) give
    outputs that hold the same values at position [t], whatever the
    other positions hold, in training and in evaluation mode; the
    generator is left in the same state. *)
Theorem EncoderBlock_forward_columns (training : bool) (self : EncoderBlock)
  (x x' y y' : Tensor) (Bn T t : nat) (s s1 s1' : rng) :
  EncoderBlock_wf self ->
  shape x = [Bn; T; enc_latent_size self] ->
  shape x' = [Bn; T; enc_latent_size self] ->
  wf x -> wf x' -> t < T ->
  (forall b k, b < Bn -> k < enc_latent_size self ->
               get3 x b t k = get3 x' b t k) ->
  EncoderBlock_forward training self x s = Some (y, s1) ->
  EncoderBlock_forward training self x' s = Some (y', s1') ->
  s1 = s1' /\
  forall b k, b < Bn -> k < enc_latent_size self ->
              get3 y b t k = get3 y' b t k.
Proof.
  intros Hwf Hs Hs' Hwx Hwx' Ht Hg Hy Hy'.
  assert (Hag : agree_on (column T t) x x').
  { apply (get_column x x' Bn T (enc_latent_size self) t Hs Hs' Hwx Hwx' Ht).
    intros b k Hb Hk. specialize (Hg b k Hb Hk).
    rewrite (get3_get x _ _ _ b t k Hs), (get3_get x' _ _ _ b t k Hs') in Hg.
    exact Hg. }
  destruct (EncoderBlock_forward_agree training self x x' y y' Bn T t s s1 s1'
              Hwf Hs Ht Hag Hy Hy') as (Es & Hagy).
  split; [exact Es|].
  assert (Hsy : shape y = [Bn; T; enc_latent_size self]).
  { destruct (EncoderBlock_forward_shape training self x Bn T s
                (wf_block self Hwf) Hs) as (y0 & s0 & Hy0 & Hsy0).
    assert (y0 = y) by congruence. subst y0. exact Hsy0. }
  assert (Hsy' : shape y' = [Bn; T; enc_latent_size self])
    by (destruct Hagy as (E & _); congruence).
  intros b k Hb Hk.
  rewrite (get3_get y _ _ _ b t k Hsy), (get3_get y' _ _ _ b t k Hsy').
  exact (column_get y y' Bn T _ t Hsy Ht Hagy b k Hb Hk).
Qed.

(** ** The class token never meets the patches *)

Lemma InputEmbedding_forward_class_row (self : InputEmbedding)
  (x y : Tensor) (Bn H W : nat) :
  InputEmbedding_ok self ->
  0 < patch_size self -> 0 < n_channels self ->
  shape x = [Bn; n_channels self; H; W] ->
  H mod patch_size self = 0 -> W mod patch_size self = 0 ->
  InputEmbedding_forward self x = Some y ->
  let T := 1 + H / patch_size self * (W / patch_size self) in
  let L := emb_latent_size self in
  shape y = [Bn; T; L] /\ wf y /\
  forall b k, b < Bn -> k < L ->
    get y ((b * T + 0) * L + k)
    = add (get (class_token self) k) (get (pos_embedding self) k).
Proof.
  intros Hok Hp Hc Hs HH HW Hy T L.
  destruct (InputEmbedding_forward_steps self x Bn H W Hok Hp Hc Hs HH HW)
    as (patches & proj & ct & cat & pe & y' & Hre & Hproj & Hsproj & Hect
        & Hcat & Hpe & _ & Hy' & Hsy & Hdy).
  rewrite Hy in Hy'. injection Hy' as <-.
  set (n := H / patch_size self * (W / patch_size self)) in *.
  fold L in Hsproj, Hsy. fold T in Hsy.
  unfold pos_embed in Hpe.
  rewrite (expand3_some _ Bn 1 L (ok_class_token _ Hok)) in Hect.
  some_subst Hect.
  match type of Hcat with
  | cat_dim1 ?u _ = _ =>
      rewrite (cat_dim1_some u proj Bn 1 n L eq_refl Hsproj) in Hcat
  end.
  some_subst Hcat.
  rewrite (expand3_some _ Bn (n + 1) L (ok_pos_embedding _ Hok)) in Hpe.
  some_subst Hpe.
  cbn [data] in Hdy.
  assert (En : n + 1 = T) by (unfold T; lia).
  rewrite En in Hdy. fold T in Hdy.
  split; [exact Hsy|]. split.
  - unfold wf. rewrite Hsy, Hdy, zip_with_length, !tab_length.
    cbn [numel fold_right]. lia.
  - intros b k Hb Hk.
    assert (HT : 0 < T) by (unfold T; lia).
    pose proof (flat3_bound b 0 k Bn T L Hb HT Hk) as Hidx.
    destruct (flat3_decode b 0 k T L HT Hk) as (Hd1 & Hd2 & Hd3).
    unfold get at 1. rewrite Hdy.
    rewrite nth_zip_with by (rewrite tab_length; exact Hidx).
    rewrite !nth_tab by exact Hidx.
    cbv zeta. rewrite Hd1, Hd2, Hd3. f_equal.
    change (0 <? 1) with true. cbv iota.
    apply (expand3_get3 (class_token self)); lia.
Qed.

Lemma select_first_agree (o o' c c' : Tensor) (Bn T L : nat) :
  shape o = [Bn; T; L] -> 0 < T ->
  agree_on (column T 0) o o' ->
  select_first o = Some c -> select_first o' = Some c' -> c = c'.
Proof.
  intros Hs HT Hag Hc Hc'. pose proof Hag as (Hss & _).
  pose proof (column_get o o' Bn T L 0 Hs HT Hag) as Hg.
  unfold select_first in Hc, Hc'. rewrite <- Hss in Hc'.
  rewrite Hs in Hc, Hc'.
  destruct (T =? 0); [discriminate|].
  some_subst Hc. some_subst Hc'. f_equal.
  unfold tab. apply map_ext_in. intros i Hi. apply in_seq in Hi.
  assert (HL : L <> 0) by (intros ->; lia).
  rewrite (get3_get o Bn T L _ 0 _ Hs).
  rewrite (get3_get o' Bn T L _ 0 _ ltac:(congruence)).
  apply Hg.
  - apply Nat.Div0.div_lt_upper_bound. lia.
  - apply Nat.mod_upper_bound. exact HL.
Qed.

(** X13.  The logits of [VisionTransformer.forward] do not depend on
    the pixels: two batches of one accepted shape give the same result
    from the same generator state, in training and in evaluation mode.
    The logits are read from the class-token position, which the
    embedding fills with [class_token + pos_embedding] for every image
    and which no encoder block mixes with the patch positions. *)
Theorem VisionTransformer_forward_ignores_pixels (training : bool)
  (self : VisionTransformer) (x x' : Tensor) (Bn H W : nat) (s : rng) :
  VisionTransformer_wf self ->
  shape x = [Bn; 3; H; W] -> shape x' = [Bn; 3; H; W] ->
  H mod 16 = 0 -> W mod 16 = 0 ->
  VisionTransformer_forward training self x s
  = VisionTransformer_forward training self x' s /\
  exists y s', VisionTransformer_forward training self x s = Some (y, s').
Proof.
  intros [Hok Hwf] Hs Hs' HH HW.
  destruct (VisionTransformer_forward_logits training self x Bn H W s
              Hok Hs HH HW) as (y & s1 & Hy & _).
  destruct (VisionTransformer_forward_logits training self x' Bn H W s
              Hok Hs' HH HW) as (y' & s1' & Hy' & _).
  split; [|eauto]. rewrite Hy, Hy'.
  pose proof Hok as [He Hp Hc Hl Hst _ _].
  unfold VisionTransformer_forward in Hy, Hy'.
  apply bind_inv in Hy. destruct Hy as (e & s2 & Hee & Hy).
  apply bind_inv in Hy'. destruct Hy' as (e' & s2' & Hee' & Hy').
  apply lift_inv in Hee. destruct Hee as (Hee & ->).
  apply lift_inv in Hee'. destruct Hee' as (Hee' & ->).
  rewrite <- Hc in Hs, Hs'. rewrite <- Hp in HH, HW.
  destruct (InputEmbedding_forward_class_row _ x e Bn H W He
              ltac:(rewrite Hp; lia) ltac:(rewrite Hc; lia) Hs HH HW Hee)
    as (Hse & Hwe & Hge).
  destruct (InputEmbedding_forward_class_row _ x' e' Bn H W He
              ltac:(rewrite Hp; lia) ltac:(rewrite Hc; lia) Hs' HH HW Hee')
    as (Hse' & Hwe' & Hge').
  set (T := 1 + H / patch_size (input_embedding self)
                * (W / patch_size (input_embedding self))) in *.
  assert (HT : 0 < T) by (unfold T; lia).
  rewrite Hl in Hse, Hse', Hge, Hge'.
  assert (Hag : agree_on (column T 0) e e').
  { apply (get_column e e' Bn T (vit_latent_size self) 0 Hse Hse' Hwe Hwe' HT).
    intros b k Hb Hk. rewrite Hge, Hge' by assumption. reflexivity. }
  apply bind_inv in Hy. destruct Hy as (o & s3 & Ho & Hy).
  apply bind_inv in Hy'. destruct Hy' as (o' & s3' & Ho' & Hy').
  destruct (encoder_loop_agree training (encoder_stack self) _ Bn T 0
              Hst Hwf HT e e' o o' s s3 s3' Hse Hag Ho Ho')
    as (<- & Hago & Hso).
  apply bind_inv in Hy. destruct Hy as (c & s4 & Hcc & Hy).
  apply bind_inv in Hy'. destruct Hy' as (c' & s4' & Hcc' & Hy').
  apply lift_inv in Hcc. destruct Hcc as (Hcc & ->).
  apply lift_inv in Hcc'. destruct Hcc' as (Hcc' & ->).
  rewrite (select_first_agree o o' c c' Bn T _ Hso HT Hago Hcc Hcc') in Hy.
  congruence.
Qed.

(** ** Constructed blocks and models are well formed *)

Lemma zeros_wf (sh : list nat) : wf (zeros sh).
Proof. unfold wf, zeros. cbn [shape data]. apply repeat_length. Qed.

Lemma LayerNorm_init_ok (n : nat) (affine : bool) :
  LayerNorm_ok (LayerNorm_init n affine).
Proof.
  unfold LayerNorm_ok, LayerNorm_init. cbn.
  destruct affine; split; intros t Ht; try discriminate;
    injection Ht as <-; cbn; rewrite repeat_length; lia.
Qed.

Lemma EncoderBlock_init_wf (latent heads : nat) (p : float32) (s s' : rng)
  (self : EncoderBlock) :
  0 < latent ->
  EncoderBlock_init latent heads p s = Some (self, s') ->
  EncoderBlock_wf self.
Proof.
  intros Hl H.
  destruct (EncoderBlock_init_inv latent heads p s s' self H)
    as (Hh & Hm & _ & Hp).
  destruct (EncoderBlock_init_ok latent heads p s Hh Hm Hl Hp)
    as (b & s0 & Hb & Hok & _).
  assert (b = self) by congruence. subst b.
  destruct (EncoderBlock_init_fields latent heads p s s' self H)
    as (_ & _ & _ & He & Hmh & _ & Hn & fc1 & fc2 & Hmlp).
  unfold EncoderBlock_init, bind in H.
  destruct (MultiheadAttention_init latent heads p s) as [[m s1]|] eqn:Em;
    [|discriminate].
  destruct (BitLinear_init _ _ _ s1) as [[f1 s2]|]; [|discriminate].
  unfold Dropout_init in H. rewrite Hp in H. unfold ret at 1 in H.
  destruct (BitLinear_init _ _ _ s2) as [[f2 s3]|]; [|discriminate].
  unfold ret in H.
  assert (Hmm : multihead self = m).
  { assert (Hs : self = {| enc_latent_size := latent;
                           enc_num_heads := heads;
                           enc_dropout := p;
                           norm := LayerNorm_init latent true;
                           multihead := m;
                           enc_MLP := [L_BitLinear f1; L_GELU; L_Dropout p;
                                       L_BitLinear f2; L_Dropout p] |})
      by congruence.
    rewrite Hs. reflexivity. }
  assert (Hbias : wf (in_proj_bias m) /\ wf (out_proj_bias m)).
  { unfold MultiheadAttention_init in Em.
    destruct ((latent =? 0) || (heads =? 0) || negb (latent mod heads =? 0));
      [discriminate|].
    unfold bind in Em.
    destruct (uniform_sym _ _ s) as [[ipw t1]|]; [|discriminate].
    destruct (uniform_sym _ _ t1) as [[opw t2]|]; [|discriminate].
    unfold ret in Em.
    assert (Hm' : m = {| embed_dim := latent; mha_num_heads := heads;
                         mha_dropout := p;
                         in_proj_weight := ipw;
                         in_proj_bias := zeros [3 * latent];
                         out_proj_weight := opw;
                         out_proj_bias := zeros [latent] |}) by congruence.
    rewrite Hm'. split; apply zeros_wf. }
  constructor.
  - exact Hok.
  - rewrite Hn. apply LayerNorm_init_ok.
  - rewrite Hmh. exact Hh.
  - rewrite He, Hmh. exact Hm.
  - rewrite Hmm. apply Hbias.
  - rewrite Hmm. apply Hbias.
  - rewrite Hmlp. repeat constructor.
Qed.

Lemma VisionTransformer_init_wf (n latent classes : nat) (p : float32)
  (s : rng) :
  latent mod 8 = 0 -> 0 < latent ->
  exists v s', VisionTransformer_init n latent classes p s = Some (v, s') /\
               VisionTransformer_wf v.
Proof.
  intros Hm Hl.
  destruct (VisionTransformer_init_ok n latent classes p s Hm Hl)
    as (v & s' & H & Hok & _).
  exists v, s'. split; [exact H|]. split; [exact Hok|].
  destruct (VisionTransformer_init_inv n latent classes p s s' v H)
    as (s1 & s2 & Hst & _).
  apply (replicateM_inv EncoderBlock_wf (EncoderBlock_init latent 8 half) n)
    with (s := s1) (s' := s2); [|exact Hst].
  intros s0 b s3 Hb. exact (EncoderBlock_init_wf latent 8 half s0 s3 b Hl Hb).
Qed.

End ColumnFacts.

Lemma EncoderBlock_forward_columns_witness :
  exists self s' y y' s1 s1',
    @EncoderBlock_init counter_backend 8 2 half 0 = Some (self, s') /\
    @EncoderBlock_forward counter_backend true self (zeros [2; 2; 8]) 0
    = Some (y, s1) /\
    @EncoderBlock_forward counter_backend true self tokens_example 0
    = Some (y', s1') /\
    s1 = s1' /\
    forall b k, b < 2 -> k < enc_latent_size self ->
                get3 y b 0 k = get3 y' b 0 k.
Proof.
  destruct (@EncoderBlock_init_ok counter_backend 8 2 half 0
              ltac:(lia) eq_refl ltac:(lia) eq_refl)
    as (self & s' & H & Hok & Hl & _).
  pose proof (@EncoderBlock_init_wf counter_backend 8 2 half 0 s' self
                ltac:(lia) H) as Hwf.
  assert (Hs : shape (zeros [2; 2; 8]) = [2; 2; enc_latent_size self])
    by (rewrite Hl; reflexivity).
  assert (Hs' : shape tokens_example = [2; 2; enc_latent_size self])
    by (rewrite Hl; reflexivity).
  destruct (@EncoderBlock_forward_shape counter_backend true self
              (zeros [2; 2; 8]) 2 2 0 Hok Hs) as (y & s1 & Hy & _).
  destruct (@EncoderBlock_forward_shape counter_backend true self
              tokens_example 2 2 0 Hok Hs') as (y' & s1' & Hy' & _).
  exists self, s', y, y', s1, s1'.
  split; [exact H|]. split; [exact Hy|]. split; [exact Hy'|].
  apply (@EncoderBlock_forward_columns counter_backend true self
           (zeros [2; 2; 8]) tokens_example y y' 2 2 0 0 s1 s1' Hwf Hs Hs').
  - reflexivity.
  - reflexivity.
  - lia.
  - rewrite Hl. intros b k Hb Hk.
    destruct b as [|[|b]]; [| |lia];
      do 8 (destruct k as [|k]; [reflexivity|]); lia.
  - exact Hy.
  - exact Hy'.
Defined.

Lemma VisionTransformer_forward_ignores_pixels_witness :
  exists self s',
    @VisionTransformer_init counter_backend 1 8 10 half 0 = Some (self, s') /\
    (@VisionTransformer_forward counter_backend false self
       (zeros [2; 3; 16; 16]) 0
     = @VisionTransformer_forward counter_backend false self
         (ones [2; 3; 16; 16]) 0 /\
     exists y s1,
       @VisionTransformer_forward counter_backend false self
         (zeros [2; 3; 16; 16]) 0 = Some (y, s1)).
Proof.
  destruct (@VisionTransformer_init_wf counter_backend 1 8 10 half 0
              eq_refl ltac:(lia)) as (self & s' & H & Hwf).
  exists self, s'. split; [exact H|].
  exact (@VisionTransformer_forward_ignores_pixels counter_backend false self
           (zeros [2; 3; 16; 16]) (ones [2; 3; 16; 16]) 2 16 16 0 Hwf
           eq_refl eq_refl eq_refl eq_refl).
Defined.

(* ================================================================== *)
(** * All-zero weights *)
(* ================================================================== *)

Lemma shr_1_div2 (mrs : shr_record) :
  (0 <= shr_m mrs)%Z -> shr_m (shr_1 mrs) = (shr_m mrs / 2)%Z.
Proof.
  intros Hm. rewrite <- Z.div2_div.
  destruct mrs as [m r s]. simpl in *.
  destruct m as [|p|p]; [reflexivity| |lia].
  destruct p; reflexivity.
Qed.

Lemma iter_shr_1_div (n : positive) :
  forall mrs, (0 <= shr_m mrs)%Z ->
    shr_m (iter_pos shr_1 n mrs) = (shr_m mrs / 2 ^ Zpos n)%Z.
Proof.
  induction n as [n IH|n IH|]; intros mrs Hm; simpl iter_pos.
  - assert (H1 : (0 <= shr_m (shr_1 mrs))%Z) by (apply shr_1_nonneg; exact Hm).
    assert (H2 : (0 <= shr_m (iter_pos shr_1 n (shr_1 mrs)))%Z)
      by (apply (iter_pos_inv shr_1 (fun r => (0 <= shr_m r)%Z));
          [apply shr_1_nonneg | exact H1]).
    rewrite (IH _ H2), (IH _ H1), (shr_1_div2 _ Hm).
    rewrite !Z.div_div by (try apply Z.pow_pos_nonneg; lia).
    f_equal.
    replace (Zpos n~1) with (1 + Zpos n + Zpos n)%Z by lia.
    rewrite !Z.pow_add_r by lia. change (2 ^ 1)%Z with 2%Z. lia.
  - assert (H2 : (0 <= shr_m (iter_pos shr_1 n mrs))%Z)
      by (apply (iter_pos_inv shr_1 (fun r => (0 <= shr_m r)%Z));
          [apply shr_1_nonneg | exact Hm]).
    rewrite (IH _ H2), (IH _ Hm).
    rewrite !Z.div_div by (try apply Z.pow_pos_nonneg; lia).
    f_equal.
    replace (Zpos n~0) with (Zpos n + Zpos n)%Z by lia.
    rewrite Z.pow_add_r by lia. reflexivity.
  - rewrite (shr_1_div2 _ Hm). reflexivity.
Qed.

Lemma digits2_pos_lower (p : positive) :
  (2 ^ (Zpos (digits2_pos p) - 1) <= Zpos p)%Z.
Proof.
  induction p as [p IH|p IH|]; simpl digits2_pos;
    [| |simpl; lia];
    rewrite Pos2Z.inj_succ;
    replace (Z.succ (Zpos (digits2_pos p)) - 1)%Z
      with (Z.succ (Zpos (digits2_pos p) - 1))%Z by lia;
    rewrite Z.pow_succ_r by lia; lia.
Qed.

(** A positive mantissa at an exponent of the format stays positive
    through the shift to the format. *)
Lemma shr_fexp_pos (p : positive) (e : Z) (l : location) :
  (3 - emax - prec <= e)%Z ->
  (0 < shr_m (fst (shr_fexp prec emax (Zpos p) e l)))%Z /\
  (3 - emax - prec <= snd (shr_fexp prec emax (Zpos p) e l))%Z.
Proof.
  intros He. unfold shr_fexp, shr, SpecFloat.fexp, emin. simpl Zdigits2.
  set (d := Zpos (digits2_pos p)).
  assert (Hrec : shr_m (shr_record_of_loc (Zpos p) l) = Zpos p)
    by (destruct l as [|[| |]]; reflexivity).
  destruct (Z.max (d + e - prec) (3 - emax - prec) - e)%Z as [|k|k] eqn:En;
    cbv beta iota; cbn [fst snd]; rewrite ?Hrec; try (split; lia).
  rewrite iter_shr_1_div by (rewrite Hrec; lia). rewrite Hrec.
  split; [|lia].
  apply Z.div_str_pos. split; [apply Z.pow_pos_nonneg; lia|].
  pose proof (digits2_pos_lower p) as Hd. fold d in Hd.
  apply Z.le_trans with (2 ^ (d - 1))%Z; [|exact Hd].
  apply Z.pow_le_mono_r; [lia|]. unfold prec in *. lia.
Qed.

Lemma round_nearest_even_ge (m : Z) (l : location) :
  (m <= round_nearest_even m l)%Z.
Proof.
  destruct l as [|[| |]]; simpl; try lia. destruct (Z.even m); lia.
Qed.

Lemma binary_round_aux_pos (sx : bool) (p : positive) (ex : Z)
  (lx : location) :
  (3 - emax - prec <= ex)%Z ->
  is_zero (binary_round_aux prec emax sx (Zpos p) ex lx) = false /\
  is_nan (binary_round_aux prec emax sx (Zpos p) ex lx) = false /\
  signbit (binary_round_aux prec emax sx (Zpos p) ex lx) = sx.
Proof.
  intros He. unfold binary_round_aux.
  destruct (shr_fexp_pos p ex lx He) as (H1 & He1).
  destruct (shr_fexp prec emax (Zpos p) ex lx) as [mrs' e'].
  simpl in H1, He1.
  pose proof (round_nearest_even_ge (shr_m mrs') (loc_of_shr_record mrs'))
    as Hr.
  destruct (round_nearest_even (shr_m mrs') (loc_of_shr_record mrs'))
    as [|q|q]; try lia.
  destruct (shr_fexp_pos q e' loc_Exact He1) as (H2 & _).
  destruct (shr_fexp prec emax (Zpos q) e' loc_Exact) as [mrs'' e''].
  simpl in H2.
  destruct (shr_m mrs'') as [|m|m]; try lia.
  destruct (e'' <=? emax - prec)%Z; repeat split.
Qed.

(** The float of a positive count is positive. *)
Lemma of_nat_pos (n : nat) :
  n <> 0 ->
  is_zero (of_nat n) = false /\ is_nan (of_nat n) = false /\
  signbit (of_nat n) = false.
Proof.
  intros Hn. unfold of_nat, binary_normalize.
  destruct (Z.of_nat n) as [|p|p] eqn:E; try lia.
  unfold binary_round, shl_align.
  set (e' := SpecFloat.fexp prec emax (Zpos (digits2_pos p) + 0)).
  assert (He' : (3 - emax - prec <= e')%Z)
    by (unfold e', SpecFloat.fexp, emin; lia).
  destruct (e' - 0)%Z as [|k|k] eqn:Ek;
    apply binary_round_aux_pos; unfold emax, prec in *; lia.
Qed.

Lemma sum_abs_zeros (l : list float32) :
  Forall (fun v => is_zero v = true) l ->
  fold_left add (map abs l) pzero = pzero.
Proof.
  induction 1 as [|v l Hv _ IH]; [reflexivity|]. simpl.
  destruct v; try discriminate. exact IH.
Qed.

Lemma quant_value_zero (s : bool) :
  quant_value (-1) 1 zero_weight_scale (S754_zero s) = S754_zero s.
Proof. destruct s; vm_compute; reflexivity. Qed.

Lemma map_quant_zeros (l : list float32) :
  Forall (fun v => is_zero v = true) l ->
  map (quant_value (-1) 1 zero_weight_scale) l = l.
Proof.
  induction 1 as [|v l Hv _ IH]; [reflexivity|]. simpl. f_equal; [|exact IH].
  destruct v as [s| | |]; try discriminate. exact (quant_value_zero s).
Qed.

(** X14.  All-zero weights survive the quantization: on a non-empty
    tensor of zeros (of either sign) the mean of the absolute values is
    zero, the [1e-5] guard makes the scale the finite [1 / 1e-5], and
    [weight_quant] returns the tensor itself; no division by zero
    occurs. *)
Theorem weight_quant_zeros (w : Tensor) :
  numel (shape w) <> 0 ->
  Forall (fun v => is_zero v = true) (data w) ->
  weight_scale w = zero_weight_scale /\
  is_finite (weight_scale w) = true /\
  weight_quant w = w.
Proof.
  intros Hn Hz.
  assert (Hs : weight_scale w = zero_weight_scale).
  { unfold weight_scale, tmean, sum, tabs, tmap. cbn [data shape].
    rewrite (sum_abs_zeros _ Hz).
    destruct (of_nat_pos _ Hn) as (H0 & Hnan & Hsg).
    destruct (of_nat (numel (shape w))) as [s0|s0| |s0 m0 e0];
      try discriminate; simpl in Hsg; subst s0; reflexivity. }
  split; [exact Hs|]. split; [rewrite Hs; reflexivity|].
  assert (Hsh : shape (weight_quant w) = shape w) by reflexivity.
  assert (Hd : data (weight_quant w) = data w).
  { rewrite weight_quant_data, Hs. apply map_quant_zeros. exact Hz. }
  destruct (weight_quant w) as [sh' d'], w as [sh d]. simpl in Hsh, Hd.
  congruence.
Qed.

Lemma weight_quant_zeros_witness :
  let w := mkTensor [2; 2] [pzero; S754_zero true; pzero; pzero] in
  weight_scale w = zero_weight_scale /\
  is_finite (weight_scale w) = true /\
  weight_quant w = w.
Proof.
  apply (weight_quant_zeros
           (mkTensor [2; 2] [pzero; S754_zero true; pzero; pzero])).
  - simpl. lia.
  - repeat constructor.
Defined.

(* ================================================================== *)
(** * All-zero inputs *)
(* ================================================================== *)

Lemma sum_zeros (l : list float32) :
  Forall (fun v => is_zero v = true) l -> sum l = pzero.
Proof.
  unfold sum. induction 1 as [|v l Hv _ IH]; [reflexivity|]. simpl.
  destruct v as [s| | |]; try discriminate. destruct s; exact IH.
Qed.

Lemma div_zero_count (n : nat) : n <> 0 -> div pzero (of_nat n) = pzero.
Proof.
  intros Hn. destruct (of_nat_pos n Hn) as (H0 & Hnan & Hs).
  destruct (of_nat n) as [s|s| |s m e]; try discriminate;
    simpl in Hs; subst s; reflexivity.
Qed.

(** The parameter-free normalization keeps an all-zero slice. *)
Lemma layer_norm_zero_row (r : list float32) :
  r <> [] -> Forall (fun v => is_zero v = true) r ->
  layer_norm_row lit_1e_5 r = r.
Proof.
  intros Hne Hz. unfold layer_norm_row.
  assert (Hn : length r <> 0) by (destruct r; [congruence | discriminate]).
  rewrite (sum_zeros r Hz), (div_zero_count _ Hn).
  assert (Hsq : Forall (fun v => is_zero v = true)
                  (map (fun v => mul (sub v pzero) (sub v pzero)) r)).
  { apply Forall_forall. intros v Hv. apply in_map_iff in Hv.
    destruct Hv as (u & <- & Hu). rewrite Forall_forall in Hz.
    specialize (Hz u Hu). destruct u as [s| | |]; try discriminate.
    destruct s; reflexivity. }
  rewrite (sum_zeros _ Hsq), (div_zero_count _ Hn).
  clear Hsq Hn Hne. induction Hz as [|v l Hv _ IH]; [reflexivity|].
  simpl. f_equal; [|exact IH].
  destruct v as [s| | |]; try discriminate. destruct s; vm_compute; reflexivity.
Qed.

(** The quantized form of an all-zero slice: positive zeros. *)
Lemma ste_zero_row (r : list float32) :
  r <> [] -> Forall (fun v => is_zero v = true) r ->
  ste_delta r (map (quant_value (-128) 127 (row_scale eps r)) r)
  = repeat pzero (length r).
Proof.
  intros Hne Hz.
  destruct (zero_row_quant r Hne Hz) as (_ & Hq).
  apply spec_row_eq in Hq. rewrite <- Hq.
  clear Hq Hne. unfold ste_delta, zip_with.
  induction Hz as [|v l Hv _ IH]; [reflexivity|]. simpl. f_equal; [|exact IH].
  destruct v as [s| | |]; try discriminate. destruct s; reflexivity.
Qed.

Lemma dot_zeros (n : nat) (w : list float32) :
  Forall (fun v => is_finite v = true) w ->
  dot (repeat pzero n) w = pzero.
Proof.
  intros Hw. unfold dot. apply sum_zeros.
  apply Forall_forall. intros v Hv. unfold zip_with in Hv.
  apply in_map_iff in Hv. destruct Hv as ((a & b) & <- & Hab). simpl.
  pose proof (in_combine_l _ _ _ _ Hab) as Ha.
  pose proof (in_combine_r _ _ _ _ Hab) as Hb.
  apply repeat_spec in Ha. subst a.
  rewrite Forall_forall in Hw. specialize (Hw b Hb).
  destruct b; try discriminate; reflexivity.
Qed.

Lemma map_constant (f : nat -> float32) (c : float32) (l : list nat) :
  (forall j, In j l -> f j = c) -> map f l = repeat c (length l).
Proof.
  induction l as [|a l IH]; intros H; [reflexivity|]. simpl.
  rewrite (H a (or_introl eq_refl)), IH; [reflexivity|].
  intros j Hj. apply H. right. exact Hj.
Qed.

Lemma spec_linear_zero_row (wq : list (list float32)) (b : option Tensor)
  (n : nat) :
  Forall (Forall (fun v => is_finite v = true)) wq ->
  (forall bt, b = Some bt -> length (data bt) = length wq) ->
  spec_linear_row wq b (repeat pzero n)
  = match b with
    | None => repeat pzero (length wq)
    | Some bt => map (add pzero) (data bt)
    end.
Proof.
  intros Hw Hb. unfold spec_linear_row.
  assert (Hd : forall j, j < length wq ->
                         dot (repeat pzero n) (nth j wq []) = pzero).
  { intros j Hj. apply dot_zeros. rewrite Forall_forall in Hw.
    apply Hw. apply nth_In. exact Hj. }
  destruct b as [bt|].
  - rewrite (map_nth_seq (add pzero) (data bt) pzero).
    rewrite (Hb bt eq_refl). apply map_ext_in. intros j Hj.
    apply in_seq in Hj. cbv zeta. rewrite Hd by lia. reflexivity.
  - replace (repeat pzero (length wq))
      with (repeat pzero (length (seq 0 (length wq))))
      by (rewrite length_seq; reflexivity).
    apply map_constant.
    intros j Hj. apply in_seq in Hj. cbv zeta. apply Hd. lia.
Qed.

(** X15.  [BitLinear.forward] maps an all-zero slice of its input (a
    black patch, say) to the bias alone: the normalization without
    affine parameters and the quantizer keep the zeros, so when the
    effective weights [w_q] are finite the slice of the result is
    [0 + bias], and all zeros for a layer without bias. *)
Theorem BitLinear_forward_zero_row (self : BitLinear) (x y : Tensor)
  (ld : list nat) :
  BitLinear_ok self -> 0 < in_features self ->
  wf x -> shape x = ld ++ [in_features self] ->
  Forall (Forall (fun v => is_finite v = true)) (spec_w_q (weight self)) ->
  BitLinear_forward self x = Some y ->
  forall i r, nth_error (rows x) i = Some r ->
    Forall (fun v => is_zero v = true) r ->
    nth_error (rows y) i
    = Some (match bias self with
            | None => repeat pzero (out_features self)
            | Some bt => map (add pzero) (data bt)
            end).
Proof.
  intros Hok Hin Hwf Hs Hfin Hy i r Hr Hz.
  destruct (BitLinear_forward_rows self x ld Hok Hin Hwf Hs)
    as (y0 & Hy0 & _ & _ & Hrows).
  assert (y0 = y) by congruence. subst y0.
  rewrite Hrows. unfold spec_BitLinear_rows, spec_x_q.
  rewrite !nth_error_map, Hr. cbn [option_map]. f_equal.
  assert (Hlen : length r = in_features self).
  { pose proof (rows_uniform x Hwf) as HU. rewrite Forall_forall in HU.
    rewrite (HU r (nth_error_In _ _ Hr)), Hs. apply last_dim_app. }
  assert (Hne : r <> []) by (intros ->; simpl in Hlen; lia).
  rewrite (layer_norm_zero_row r Hne Hz), (ste_zero_row r Hne Hz).
  pose proof Hok as [Hws _ Hb _].
  assert (Hlw : length (spec_w_q (weight self)) = out_features self).
  { unfold spec_w_q. rewrite length_map, rows_length, Hws.
    unfold nrows. simpl. lia. }
  rewrite spec_linear_zero_row; [rewrite Hlw; reflexivity | exact Hfin |].
  intros bt Hbt. destruct (Hb bt Hbt) as (Hsb & Hwb).
  rewrite Hlw, Hwb, Hsb. simpl. lia.
Qed.

Lemma BitLinear_forward_zero_row_witness :
  let x := mkTensor [2; 2] [pzero; S754_zero true; of_Z (-4); of_Z 5] in
  exists y, BitLinear_forward linear_example x = Some y /\
    forall i r, nth_error (rows x) i = Some r ->
      Forall (fun v => is_zero v = true) r ->
      nth_error (rows y) i
      = Some (match bias linear_example with
              | None => repeat pzero (out_features linear_example)
              | Some bt => map (add pzero) (data bt)
              end).
Proof.
  intros x.
  assert (Hok : BitLinear_ok linear_example).
  { constructor; try reflexivity.
    intros b Hb. injection Hb as <-. split; reflexivity. }
  destruct (BitLinear_forward_rows linear_example x [2] Hok
              ltac:(simpl; lia) eq_refl eq_refl) as (y & Hy & _).
  exists y. split; [exact Hy|].
  apply (BitLinear_forward_zero_row linear_example x y [2] Hok);
    [simpl; lia | reflexivity | reflexivity | | exact Hy].
  vm_compute. repeat constructor.
Defined.

(* ================================================================== *)
(** * Balanced subsets *)
(* ================================================================== *)

Section DatasetFacts.

Context {NP : Sampler}.

Lemma insert_unique_In (c x : nat) (l : list nat) :
  In x (insert_unique c l) <-> x = c \/ In x l.
Proof.
  induction l as [|d r IH]; simpl; [intuition|].
  destruct (c <? d) eqn:E1; [simpl; intuition|].
  destruct (c =? d) eqn:E2.
  - apply Nat.eqb_eq in E2. subst d. simpl. intuition.
  - simpl. rewrite IH. intuition.
Qed.

Lemma insert_unique_sorted (c : nat) (l : list nat) :
  StronglySorted lt l -> StronglySorted lt (insert_unique c l).
Proof.
  induction l as [|d r IH]; intros Hs; simpl.
  - constructor; constructor.
  - inversion Hs as [|? ? Hr Hd]; subst.
    destruct (c <? d) eqn:E1.
    + apply Nat.ltb_lt in E1. constructor; [exact Hs|].
      constructor; [exact E1|].
      eapply Forall_impl; [|exact Hd]. intros a Ha. simpl in Ha. lia.
    + destruct (c =? d) eqn:E2; [exact Hs|].
      apply Nat.ltb_ge in E1. apply Nat.eqb_neq in E2.
      constructor; [apply IH; exact Hr|].
      apply Forall_forall. intros x Hx. apply insert_unique_In in Hx.
      destruct Hx as [-> | Hx]; [lia|].
      rewrite Forall_forall in Hd. apply Hd. exact Hx.
Qed.

Lemma sorted_NoDup (l : list nat) : StronglySorted lt l -> NoDup l.
Proof.
  induction 1 as [|a l Hs IH Ha]; constructor; [|exact IH].
  intros Hin. rewrite Forall_forall in Ha. specialize (Ha a Hin). lia.
Qed.

Lemma np_unique_sorted (labels : list nat) :
  StronglySorted lt (np_unique labels).
Proof.
  induction labels as [|a l IH]; simpl; [constructor|].
  apply insert_unique_sorted. exact IH.
Qed.

Lemma np_unique_In (labels : list nat) (c : nat) :
  In c (np_unique labels) <-> In c labels.
Proof.
  induction labels as [|a l IH]; simpl; [tauto|].
  rewrite insert_unique_In, IH. intuition.
Qed.

Lemma np_where_eq_In (labels : list nat) (cls i : nat) :
  In i (np_where_eq labels cls) <->
  i < length labels /\ nth i labels 0 = cls.
Proof.
  unfold np_where_eq. rewrite filter_In, in_seq, Nat.eqb_eq. intuition lia.
Qed.

Lemma np_where_eq_NoDup (labels : list nat) (cls : nat) :
  NoDup (np_where_eq labels cls).
Proof. apply NoDup_filter, seq_NoDup. Qed.

Lemma where_length_from (labels : list nat) (cls k : nat) :
  length (filter (fun i => nth (i - k) labels 0 =? cls)
            (seq k (length labels)))
  = count_occ Nat.eq_dec labels cls.
Proof.
  revert k. induction labels as [|a l IH]; intros k; [reflexivity|].
  cbn [length seq filter count_occ]. rewrite Nat.sub_diag.
  change (nth 0 (a :: l) 0) with a.
  assert (Hrest : filter (fun i => nth (i - k) (a :: l) 0 =? cls)
                    (seq (S k) (length l))
                  = filter (fun i => nth (i - S k) l 0 =? cls)
                      (seq (S k) (length l))).
  { apply filter_ext_in. intros i Hi. apply in_seq in Hi.
    replace (i - k) with (S (i - S k)) by lia. reflexivity. }
  rewrite Hrest.
  destruct (Nat.eq_dec a cls) as [->|Hne].
  - rewrite Nat.eqb_refl. cbn [length]. rewrite IH. reflexivity.
  - apply Nat.eqb_neq in Hne. rewrite Hne. apply IH.
Qed.

Lemma np_where_eq_length (labels : list nat) (cls : nat) :
  length (np_where_eq labels cls) = count_occ Nat.eq_dec labels cls.
Proof.
  unfold np_where_eq. rewrite <- (where_length_from labels cls 0).
  f_equal. apply filter_ext. intros i. rewrite Nat.sub_0_r. reflexivity.
Qed.

Lemma NoDup_map_nth (a l : list nat) :
  NoDup a -> NoDup l -> (forall i, In i l -> i < length a) ->
  NoDup (map (fun i => nth i a 0) l).
Proof.
  intros Ha Hl Hlt. induction Hl as [|i l Hi Hl IH]; simpl; [constructor|].
  constructor.
  - intros Hin. apply in_map_iff in Hin. destruct Hin as (j & Hj & Hjl).
    rewrite NoDup_nth in Ha.
    assert (j = i).
    { apply (Ha j i); [apply Hlt; right; exact Hjl
                      | apply Hlt; left; reflexivity | exact Hj]. }
    subst j. contradiction.
  - apply IH. intros j Hj. apply Hlt. right. exact Hj.
Qed.

Lemma NoDup_firstn_nat (k : nat) (l : list nat) :
  NoDup l -> NoDup (firstn k l).
Proof.
  intros H. rewrite <- (firstn_skipn k l) in H.
  exact (NoDup_app_remove_r _ _ H).
Qed.

Lemma In_firstn (k : nat) (l : list nat) (x : nat) :
  In x (firstn k l) -> In x l.
Proof.
  intros H. rewrite <- (firstn_skipn k l). apply in_or_app. left. exact H.
Qed.

(** What a successful draw returns. *)
Lemma choice_some (a : list nat) (size : Z) (s s' : np_state)
  (sel : list nat) :
  NoDup a ->
  choice a size s = Some (sel, s') ->
  (0 <= size <= Z.of_nat (length a))%Z /\
  length sel = Z.to_nat size /\ NoDup sel /\
  forall x, In x sel -> In x a.
Proof.
  intros Ha. unfold choice.
  destruct (size <? 0)%Z eqn:E1; [discriminate|].
  destruct (Z.of_nat (length a) <? size)%Z eqn:E2; [discriminate|].
  apply Z.ltb_ge in E1, E2.
  pose proof (permutation_ok (length a) s) as Hp.
  destruct (permutation (length a) s) as [perm s1]. simpl in Hp.
  intros H.
  assert (Es : sel = map (fun i => nth i a 0) (firstn (Z.to_nat size) perm))
    by congruence.
  subst sel. clear H.
  assert (Hlen : length perm = length a)
    by (rewrite (Permutation_length Hp); apply length_seq).
  assert (Hnd : NoDup perm)
    by (apply (Permutation_NoDup (Permutation_sym Hp)), seq_NoDup).
  assert (Hin : forall i, In i perm -> i < length a).
  { intros i Hi. apply (Permutation_in _ Hp) in Hi. apply in_seq in Hi. lia. }
  split; [lia|]. split; [|split].
  - rewrite length_map, length_firstn, Hlen. lia.
  - apply NoDup_map_nth; [exact Ha | apply NoDup_firstn_nat; exact Hnd |].
    intros i Hi. apply Hin. exact (In_firstn _ _ _ Hi).
  - intros x Hx. apply in_map_iff in Hx. destruct Hx as (i & <- & Hi).
    apply nth_In. apply Hin. exact (In_firstn _ _ _ Hi).
Qed.

Lemma choice_succeeds (a : list nat) (size : Z) (s : np_state) :
  (exists sel s', choice a size s = Some (sel, s')) <->
  (0 <= size <= Z.of_nat (length a))%Z.
Proof.
  unfold choice.
  destruct (size <? 0)%Z eqn:E1;
    [apply Z.ltb_lt in E1; split; [intros (? & ? & ?); discriminate | lia]|].
  destruct (Z.of_nat (length a) <? size)%Z eqn:E2;
    [apply Z.ltb_lt in E2; split; [intros (? & ? & ?); discriminate | lia]|].
  apply Z.ltb_ge in E1, E2.
  destruct (permutation (length a) s) as [perm s1].
  split; [lia | eauto].
Qed.

Lemma count_label_app (targets : list nat) (c : nat) (u v : list nat) :
  count_label targets c (u ++ v)
  = count_label targets c u + count_label targets c v.
Proof. unfold count_label. rewrite filter_app, length_app. reflexivity. Qed.

Lemma count_label_same (targets : list nat) (c : nat) (u : list nat) :
  (forall i, In i u -> nth i targets 0 = c) ->
  count_label targets c u = length u.
Proof.
  intros H. unfold count_label. induction u as [|i u IH]; [reflexivity|].
  simpl. rewrite (H i (or_introl eq_refl)), Nat.eqb_refl. simpl.
  rewrite IH; [reflexivity|]. intros j Hj. apply H. right. exact Hj.
Qed.

Lemma count_label_other (targets : list nat) (c : nat) (u : list nat) :
  (forall i, In i u -> nth i targets 0 <> c) ->
  count_label targets c u = 0.
Proof.
  intros H. unfold count_label. induction u as [|i u IH]; [reflexivity|].
  simpl. pose proof (H i (or_introl eq_refl)) as Hi.
  apply Nat.eqb_neq in Hi. rewrite Hi.
  apply IH. intros j Hj. apply H. right. exact Hj.
Qed.

(** The loop over the classes: what it returns. *)
Lemma choose_classes_some (labels : list nat) (spc : Z)
  (classes : list nat) :
  NoDup classes ->
  forall (s s' : np_state) (idx : list nat),
    choose_classes labels spc classes s = Some (idx, s') ->
    length idx = length classes * Z.to_nat spc /\
    NoDup idx /\
    (forall i, In i idx ->
               i < length labels /\ In (nth i labels 0) classes) /\
    (forall c, In c classes -> count_label labels c idx = Z.to_nat spc).
Proof.
  induction 1 as [|cls rest Hcls Hnd IH]; intros s s' idx H; simpl in H.
  - assert (idx = []) by congruence. subst idx.
    split; [reflexivity|]. split; [constructor|].
    split; intros ? [].
  - destruct (choice (np_where_eq labels cls) spc s) as [[sel s1]|] eqn:Hc;
      [|discriminate].
    destruct (choose_classes labels spc rest s1) as [[more s2]|] eqn:Hm;
      [|discriminate].
    assert (idx = sel ++ more) by congruence. subst idx. clear H.
    destruct (choice_some _ _ _ _ _ (np_where_eq_NoDup labels cls) Hc)
      as (_ & Hlen & Hnds & Hsel).
    destruct (IH _ _ _ Hm) as (Hlm & Hndm & Hinm & Hcm).
    assert (Hlab : forall i, In i sel ->
                             i < length labels /\ nth i labels 0 = cls).
    { intros i Hi. apply np_where_eq_In. apply Hsel. exact Hi. }
    split; [rewrite length_app, Hlen, Hlm; simpl; lia|].
    split; [|split].
    + apply NoDup_app; [exact Hnds | exact Hndm |].
      intros i Hi Hi'. destruct (Hlab i Hi) as (_ & El).
      destruct (Hinm i Hi') as (_ & Hr). rewrite El in Hr. contradiction.
    + intros i Hi. apply in_app_or in Hi. destruct Hi as [Hi|Hi].
      * destruct (Hlab i Hi) as (Hlt & El).
        split; [exact Hlt | left; symmetry; exact El].
      * destruct (Hinm i Hi) as (Hlt & Hr). split; [exact Hlt | right; exact Hr].
    + intros c [<- | Hc'].
      * rewrite count_label_app.
        rewrite (count_label_same labels cls sel)
          by (intros i Hi; apply (Hlab i Hi)).
        rewrite (count_label_other labels cls more); [lia|].
        intros i Hi El. destruct (Hinm i Hi) as (_ & Hr).
        rewrite El in Hr. contradiction.
      * rewrite count_label_app.
        rewrite (count_label_other labels c sel).
        -- simpl. apply Hcm. exact Hc'.
        -- intros i Hi El. destruct (Hlab i Hi) as (_ & El').
           rewrite El' in El. subst c. contradiction.
Qed.

Lemma choose_classes_succeeds (labels : list nat) (spc : Z)
  (classes : list nat) (s : np_state) :
  classes <> [] ->
  ((exists idx s', choose_classes labels spc classes s = Some (idx, s')) <->
   ((0 <= spc)%Z /\
    forall c, In c classes ->
              (spc <= Z.of_nat (count_occ Nat.eq_dec labels c))%Z)).
Proof.
  revert s. induction classes as [|cls rest IH]; intros s Hne;
    [contradiction|]. clear Hne. simpl.
  pose proof (choice_succeeds (np_where_eq labels cls) spc s) as Hc.
  rewrite np_where_eq_length in Hc.
  destruct (choice (np_where_eq labels cls) spc s) as [[sel s1]|].
  - assert (Hb : (0 <= spc <= Z.of_nat (count_occ Nat.eq_dec labels cls))%Z)
      by (apply Hc; eauto).
    destruct rest as [|c2 rest].
    + simpl. split.
      * intros _. split; [lia|]. intros c [<- | []]. lia.
      * intros _. eauto.
    + specialize (IH s1 ltac:(discriminate)).
      destruct (choose_classes labels spc (c2 :: rest) s1) as [[more s2]|].
      * assert (Hr : (0 <= spc)%Z /\
                     forall c, In c (c2 :: rest) ->
                       (spc <= Z.of_nat (count_occ Nat.eq_dec labels c))%Z)
          by (apply IH; eauto).
        split; [|eauto]. intros _. split; [lia|].
        intros c [<- | Hin]; [lia | apply Hr; exact Hin].
      * split; [intros (? & ? & ?); discriminate|].
        intros (H0 & Hall). exfalso.
        assert (Hex : exists idx s',
                   @None (list nat * np_state) = Some (idx, s')).
        { apply IH. split; [exact H0|]. intros c Hin. apply Hall.
          right. exact Hin. }
        destruct Hex as (? & ? & ?). discriminate.
  - split; [intros (? & ? & ?); discriminate|].
    intros (H0 & Hall). exfalso.
    assert (Hex : exists sel s', @None (list nat * np_state) = Some (sel, s')).
    { apply Hc. split; [exact H0 | apply Hall; left; reflexivity]. }
    destruct Hex as (? & ? & ?). discriminate.
Qed.

Lemma samples_per_class_no_class (len : nat) (r : F64.float64) :
  samples_per_class len r 0 = None.
Proof.
  unfold samples_per_class. destruct (F64.of_int (Z.of_nat len)); reflexivity.
Qed.

Lemma np_unique_nil (labels : list nat) :
  np_unique labels = [] -> labels = [].
Proof.
  destruct labels as [|a l]; [reflexivity|]. intros H. exfalso.
  assert (Hin : In a (np_unique (a :: l)))
    by (apply np_unique_In; left; reflexivity).
  rewrite H in Hin. destruct Hin.
Qed.

Lemma samples_per_class_classes (targets : list nat) (r : F64.float64)
  (spc : Z) :
  samples_per_class (length targets) r (length (np_unique targets))
  = Some spc ->
  np_unique targets <> [].
Proof.
  intros Hspc E. rewrite E in Hspc. simpl in Hspc.
  rewrite samples_per_class_no_class in Hspc. discriminate.
Qed.

Lemma create_subset_indices_inv (targets : list nat)
  (subset_ratio : F64.float64) (s s' : np_state) (idx : list nat) :
  create_subset_indices targets subset_ratio s = Some (idx, s') ->
  exists spc : Z,
    samples_per_class (length targets) subset_ratio
      (length (np_unique targets)) = Some spc /\
    choose_classes targets spc (np_unique targets) s = Some (idx, s').
Proof.
  unfold create_subset_indices.
  destruct (samples_per_class _ _ _) as [spc|]; [|discriminate].
  intros H. exists spc. split; [reflexivity | exact H].
Qed.

(** ** The sign of the sample count *)

Lemma binary_round_aux_sign64 (sx : bool) (mx ex : Z) (lx : location) :
  binary_round_aux F64.prec F64.emax sx mx ex lx = S754_nan \/
  signbit (binary_round_aux F64.prec F64.emax sx mx ex lx) = sx.
Proof.
  unfold binary_round_aux.
  destruct (shr_fexp F64.prec F64.emax mx ex lx) as [mrs' e'].
  destruct (shr_fexp F64.prec F64.emax _ e' loc_Exact) as [mrs'' e''].
  destruct (shr_m mrs'') as [|m|m]; [right; reflexivity | | left; reflexivity].
  destruct (e'' <=? F64.emax - F64.prec)%Z; right; reflexivity.
Qed.

Lemma mul_sign64 (x y : F64.float64) :
  F64.mul x y = S754_nan \/
  signbit (F64.mul x y) = xorb (signbit x) (signbit y).
Proof.
  destruct x as [sx|sx| |sx mx ex], y as [sy|sy| |sy my ey];
    try (left; reflexivity); try (right; reflexivity).
  apply binary_round_aux_sign64.
Qed.

Lemma div_sign64 (x y : F64.float64) :
  F64.div x y = S754_nan \/
  signbit (F64.div x y) = xorb (signbit x) (signbit y).
Proof.
  destruct x as [sx|sx| |sx mx ex], y as [sy|sy| |sy my ey];
    try (left; reflexivity); try (right; reflexivity).
  unfold F64.div, SFdiv.
  destruct (SFdiv_core_binary F64.prec F64.emax (Zpos mx) ex (Zpos my) ey)
    as [[mz ez] lz].
  apply binary_round_aux_sign64.
Qed.

Lemma of_int_sign64 (n : nat) (f : F64.float64) :
  F64.of_int (Z.of_nat n) = Some f -> f = S754_nan \/ signbit f = false.
Proof.
  unfold F64.of_int, binary_normalize.
  destruct (Z.of_nat n) as [|p|p] eqn:E; [| |lia].
  - intros H. right. assert (f = S754_zero false) by congruence.
    subst f. reflexivity.
  - unfold binary_round. destruct (shl_align p 0 _) as [mz ez].
    pose proof (binary_round_aux_sign64 false (Zpos mz) ez loc_Exact) as Hs.
    destruct (binary_round_aux F64.prec F64.emax false (Zpos mz) ez
                loc_Exact) as [s0|s0| |s0 m0 e0];
      intros H; try discriminate H; injection H as <-; exact Hs.
Qed.

Lemma to_int_sign (x : F64.float64) (z : Z) :
  F64.to_int x = Some z -> signbit x = false -> (0 <= z)%Z.
Proof.
  destruct x as [s|s| |s m e]; try discriminate.
  - intros H _. injection H as <-. lia.
  - intros H Hs. simpl in Hs. subst s. unfold F64.to_int in H.
    cbv zeta iota in H. some_subst H.
    destruct (0 <=? e)%Z eqn:E.
    + apply Z.leb_le in E. apply Z.mul_nonneg_nonneg; [lia|].
      apply Z.pow_nonneg. lia.
    + apply Z.leb_gt in E. apply Z.div_pos; [lia|].
      apply Z.pow_pos_nonneg; lia.
Qed.

Lemma samples_per_class_sign (len classes : nat) (r : F64.float64) (spc : Z) :
  samples_per_class len r classes = Some spc ->
  signbit r = false -> (0 <= spc)%Z.
Proof.
  unfold samples_per_class.
  destruct (F64.of_int (Z.of_nat len)) as [fl|] eqn:El; [|discriminate].
  destruct (F64.of_int (Z.of_nat classes)) as [fc|] eqn:Ec; [|discriminate].
  destruct (F64.is_zero fc); [discriminate|].
  intros H Hr. apply (to_int_sign _ _ H).
  destruct (of_int_sign64 _ _ El) as [-> | Hl]; [discriminate H|].
  destruct (of_int_sign64 _ _ Ec) as [-> | Hc].
  { destruct (F64.mul fl r); discriminate H. }
  destruct (mul_sign64 fl r) as [Hm | Hm].
  { rewrite Hm in H. destruct fc; discriminate H. }
  destruct (div_sign64 (F64.mul fl r) fc) as [Hd | Hd].
  { rewrite Hd in H. discriminate H. }
  rewrite Hd, Hm, Hl, Hr, Hc. reflexivity.
Qed.

(** X16.  When [_create_subset_indices] returns, the subset is
    balanced: it holds [samples_per_class =
    int(len(dataset) * subset_ratio / len(classes))] indices of every
    class of the dataset, so [len(classes) * samples_per_class] in all,
    every index is a valid position and none occurs twice. *)
Theorem create_subset_indices_balanced (targets : list nat)
  (subset_ratio : F64.float64) (s s' : np_state) (idx : list nat) :
  create_subset_indices targets subset_ratio s = Some (idx, s') ->
  exists spc : Z,
    samples_per_class (length targets) subset_ratio
      (length (np_unique targets)) = Some spc /\
    (0 <= spc)%Z /\
    length idx = length (np_unique targets) * Z.to_nat spc /\
    NoDup idx /\
    (forall i, In i idx -> i < length targets) /\
    (forall c, In c targets ->
               count_label targets c idx = Z.to_nat spc).
Proof.
  intros H. apply create_subset_indices_inv in H.
  destruct H as (spc & Hspc & H). exists spc. split; [exact Hspc|].
  destruct (choose_classes_some targets spc (np_unique targets)
              (sorted_NoDup _ (np_unique_sorted targets)) s s' idx H)
    as (Hlen & Hnd & Hin & Hcnt).
  pose proof (samples_per_class_classes targets subset_ratio spc Hspc) as Hne.
  assert (H0 : (0 <= spc)%Z).
  { apply (choose_classes_succeeds targets spc (np_unique targets) s Hne).
    eauto. }
  split; [exact H0|]. split; [exact Hlen|]. split; [exact Hnd|]. split.
  - intros i Hi. apply (Hin i Hi).
  - intros c Hc. apply Hcnt. apply np_unique_In. exact Hc.
Qed.

(** X17.  [_create_subset_indices] returns exactly when the sample count
    per class can be computed (the dataset is not empty and the ratio is
    a finite number), is not negative, and no class of the dataset has
    fewer samples than that; otherwise it raises.  In particular it
    raises on an empty dataset and on a dataset with a class that is too
    small for the ratio; and the count is negative for no ratio with a
    clear sign bit. *)
Theorem create_subset_indices_succeeds (targets : list nat)
  (subset_ratio : F64.float64) (s : np_state) :
  ((exists idx s',
       create_subset_indices targets subset_ratio s = Some (idx, s')) <->
   (exists spc : Z,
       samples_per_class (length targets) subset_ratio
         (length (np_unique targets)) = Some spc /\
       (0 <= spc)%Z /\
       forall c, In c targets ->
                 (spc <= Z.of_nat (count_occ Nat.eq_dec targets c))%Z)) /\
  create_subset_indices [] subset_ratio s = None /\
  (signbit subset_ratio = false ->
   forall spc : Z,
     samples_per_class (length targets) subset_ratio
       (length (np_unique targets)) = Some spc ->
     (0 <= spc)%Z).
Proof.
  split; [|split].
  - unfold create_subset_indices.
    destruct (samples_per_class _ _ _) as [spc|] eqn:Hspc.
    + assert (Hne : np_unique targets <> []).
      { intros E. rewrite E in Hspc. simpl in Hspc.
        rewrite samples_per_class_no_class in Hspc. discriminate. }
      rewrite (choose_classes_succeeds targets spc (np_unique targets) s Hne).
      split.
      * intros (H0 & Hall). exists spc. split; [reflexivity|].
        split; [exact H0|]. intros c Hc. apply Hall, np_unique_In. exact Hc.
      * intros (spc' & E & H0 & Hall). injection E as <-.
        split; [exact H0|]. intros c Hc. apply Hall, np_unique_In. exact Hc.
    + split; [intros (? & ? & ?); discriminate|].
      intros (? & ? & _). discriminate.
  - reflexivity.
  - intros Hr spc Hspc. exact (samples_per_class_sign _ _ _ _ Hspc Hr).
Qed.

(** X18.  [load_cifar10] hands the complete training and test sets to
    its loaders, and draws nothing, when [dataset_size] is [None], a
    zero, NaN or not below [1.0]: a [dataset_size] of [0.0] selects
    everything, not nothing.  For any other value both sets are
    replaced by subsets drawn one after the other, each balanced,
    without repetition and within its set; an error of either is an
    error of the load. *)
Theorem load_cifar10_indices_cases (dataset_size : option F64.float64)
  (train_targets test_targets : list nat) (s : np_state) :
  let subset r := F64.is_zero r = false /\ F64.ltb r F64.one = true in
  ((dataset_size = None \/
    exists r, dataset_size = Some r /\ ~ subset r) ->
   load_cifar10_indices dataset_size train_targets test_targets s
   = Some ((seq 0 (length train_targets),
            seq 0 (length test_targets)), s)) /\
  (forall r, dataset_size = Some r -> subset r ->
     (create_subset_indices train_targets r s = None ->
      load_cifar10_indices dataset_size train_targets test_targets s = None) /\
     (forall tr s1,
        create_subset_indices train_targets r s = Some (tr, s1) ->
        create_subset_indices test_targets r s1 = None ->
        load_cifar10_indices dataset_size train_targets test_targets s
        = None) /\
     (forall tr te s2,
        load_cifar10_indices dataset_size train_targets test_targets s
        = Some ((tr, te), s2) ->
        NoDup tr /\ NoDup te /\
        (forall i, In i tr -> i < length train_targets) /\
        (forall i, In i te -> i < length test_targets) /\
        exists ktr kte : Z,
          samples_per_class (length train_targets) r
            (length (np_unique train_targets)) = Some ktr /\
          samples_per_class (length test_targets) r
            (length (np_unique test_targets)) = Some kte /\
          (forall c, In c train_targets ->
                     count_label train_targets c tr = Z.to_nat ktr) /\
          (forall c, In c test_targets ->
                     count_label test_targets c te = Z.to_nat kte))).
Proof.
  intros subset. split.
  - intros [-> | (r & -> & Hn)]; [reflexivity|].
    unfold load_cifar10_indices, F64.truthy.
    destruct (F64.is_zero r) eqn:Ez; [reflexivity|].
    destruct (F64.ltb r F64.one) eqn:El; [|reflexivity].
    exfalso. apply Hn. split; assumption.
  - intros r -> (Ez & El).
    unfold load_cifar10_indices, F64.truthy. rewrite Ez, El. cbn [negb andb].
    split; [intros ->; reflexivity|]. split.
    + intros tr s1 -> ->. reflexivity.
    + intros tr te s2.
      destruct (create_subset_indices train_targets r s) as [[tr0 s1]|] eqn:Htr;
        [|discriminate].
      destruct (create_subset_indices test_targets r s1) as [[te0 s3]|] eqn:Hte;
        [|discriminate].
      intros H. assert (tr0 = tr) by congruence. assert (te0 = te) by congruence.
      subst tr0 te0.
      destruct (create_subset_indices_inv _ _ _ _ _ Htr) as (ktr & Hk1 & Hch1).
      destruct (create_subset_indices_inv _ _ _ _ _ Hte) as (kte & Hk2 & Hch2).
      destruct (choose_classes_some _ _ _
                  (sorted_NoDup _ (np_unique_sorted train_targets)) _ _ _ Hch1)
        as (_ & Hnd1 & Hin1 & Hc1).
      destruct (choose_classes_some _ _ _
                  (sorted_NoDup _ (np_unique_sorted test_targets)) _ _ _ Hch2)
        as (_ & Hnd2 & Hin2 & Hc2).
      split; [exact Hnd1|]. split; [exact Hnd2|].
      split; [intros i Hi; apply (Hin1 i Hi)|].
      split; [intros i Hi; apply (Hin2 i Hi)|].
      exists ktr, kte. split; [exact Hk1|]. split; [exact Hk2|]. split.
      * intros c Hc. apply Hc1, np_unique_In. exact Hc.
      * intros c Hc. apply Hc2, np_unique_In. exact Hc.
Qed.

End DatasetFacts.

Lemma create_subset_indices_balanced_witness :
  exists spc : Z,
    samples_per_class (length balanced_targets) lit_0_5
      (length (np_unique balanced_targets)) = Some spc /\
    (0 <= spc)%Z /\
    length [0; 2; 1; 3] = length (np_unique balanced_targets) * Z.to_nat spc /\
    NoDup [0; 2; 1; 3] /\
    (forall i, In i [0; 2; 1; 3] -> i < length balanced_targets) /\
    (forall c, In c balanced_targets ->
               count_label balanced_targets c [0; 2; 1; 3] = Z.to_nat spc).
Proof.
  exact (@create_subset_indices_balanced identity_sampler balanced_targets
           lit_0_5 tt tt [0; 2; 1; 3] eq_refl).
Defined.

(** A dataset with one sample of a class cannot give two per class. *)
Example create_subset_indices_skewed :
  samples_per_class (length skewed_targets) lit_0_9
    (length (np_unique skewed_targets)) = Some 2%Z /\
  @create_subset_indices identity_sampler skewed_targets lit_0_9 tt = None.
Proof. split; reflexivity. Qed.

(** A tenth of 50000 samples in 10 classes: 500 per class. *)
Example samples_per_class_cifar10 :
  samples_per_class (Z.to_nat 50000) F64.lit_0_1 10 = Some 500%Z /\
  samples_per_class (Z.to_nat 10000) F64.lit_0_1 10 = Some 100%Z.
Proof. split; vm_compute; reflexivity. Qed.

(* ================================================================== *)
(** * Worked examples *)
(* ================================================================== *)

(** [torch.round] rounds halves to the even neighbour and keeps the
    sign of a zero result. *)
Example round_halves :
  round (S754_finite false 12582912 (-23)) = of_Z 2 /\
  round (S754_finite false 10485760 (-22)) = of_Z 2 /\
  round (S754_finite true 8388608 (-24)) = S754_zero true /\
  round (S754_finite true 12582912 (-24)) = of_Z (-1).
Proof. repeat split; reflexivity. Qed.

(** [torch.sign] of NaN, of a negative number, of a negative zero and
    of an infinity. *)
Example sign_values_example :
  sign S754_nan = pzero /\ sign (of_Z (-5)) = of_Z (-1) /\
  sign (S754_zero true) = pzero /\ sign (S754_infinity false) = of_Z 1.
Proof. repeat split; reflexivity. Qed.

(** The row [[1; -0.5; 0.25]] has scale 127 and quantizes to
    [[127; -64; 32] / 127]. *)
Example activation_quant_example :
  activation_quant grid_example
  = Some (mkTensor [1; 3]
            [div (of_Z 127) (of_Z 127); div (of_Z (-64)) (of_Z 127);
             div (of_Z 32) (of_Z 127)]).
Proof. vm_compute. reflexivity. Qed.

(** The scale of the row [[3]] is [(1 / 3) * 127], rounded twice, and
    [3] quantizes to [2.9999998]; the row [[3; -7]] quantizes to
    [[2.9763167; -6.9999995]]. *)
Example activation_quant_reciprocal_example :
  activation_quant (mkTensor [1] [of_Z 3])
  = Some (mkTensor [1] [S754_finite false 12582911 (-22)]) /\
  activation_quant (mkTensor [2] [of_Z 3; of_Z (-7)])
  = Some (mkTensor [2] [S754_finite false 12483833 (-22);
                        S754_finite true 14680063 (-21)]).
Proof. split; vm_compute; reflexivity. Qed.

(** The normalization of the row [[-4; 5]] without affine parameters:
    [-0.99999982] and [0.99999982]. *)
Example LayerNorm_forward_example :
  LayerNorm_forward (LayerNorm_init 2 false) (mkTensor [2] [of_Z (-4); of_Z 5])
  = Some (mkTensor [2] [S754_finite true 16777213 (-24);
                        S754_finite false 16777213 (-24)]).
Proof. vm_compute. reflexivity. Qed.

(** The sum of [2^24] and 63 ones depends on the order: in index order
    every one is lost to rounding and the sum is [2^24]; with 32
    accumulators of two neighbours each, added up in turn, it is
    [2^24 + 62].  Both are floating-point sums of the list. *)
Example sum_order_example :
  let l := S754_finite false 8388608 1 :: repeat (of_Z 1) 63 in
  sum l = S754_finite false 8388608 1 /\
  sums_to l (S754_finite false 8388608 1) /\
  sums_to l (S754_finite false 8388639 1).
Proof.
  intros l. split; [vm_compute; reflexivity|]. split.
  - pose proof (sum_sums_to l) as H. vm_compute in H. exact H.
  - pose proof (sums_to_groups (chunks 2 32 l)) as H. vm_compute in H.
    exact H.
Qed.

(** The weights [[1; -0.5; 0.25; -3]] have mean magnitude 1.1875 and
    quantize to [[1; -0; 0; -1] * 1.1875]. *)
Example weight_quant_example :
  let m := S754_finite false 9961472 (-23) in
  weight_quant
    (mkTensor [2; 2]
       [of_Z 1; S754_finite true 8388608 (-24);
        S754_finite false 8388608 (-25); of_Z (-3)])
  = mkTensor [2; 2] [m; S754_zero true; pzero; SFopp m].
Proof. vm_compute. reflexivity. Qed.

(** A [2 x 4] image in patches of side 2: the rows [[1 2 3 4]] and
    [[5 6 7 8]] become the patches [[1 2 5 6]] and [[3 4 7 8]]. *)
Example rearrange_patches_example :
  rearrange_patches
    (mkTensor [1; 1; 2; 4] (map of_Z [1; 2; 3; 4; 5; 6; 7; 8]%Z)) 2
  = Some (mkTensor [1; 2; 4] (map of_Z [1; 2; 5; 6; 3; 4; 7; 8]%Z)).
Proof. vm_compute. reflexivity. Qed.

(** An image whose height is not a multiple of the patch size is
    refused. *)
Example rearrange_patches_refused :
  rearrange_patches (zeros [1; 1; 3; 4]) 2 = None.
Proof. reflexivity. Qed.

(** The embedding of a black [16 x 16] image: the class token first,
    then the one projected patch. *)
Example InputEmbedding_forward_example :
  InputEmbedding_forward embedding_example (zeros [1; 3; 16; 16])
  = Some (mkTensor [1; 2; 1] [of_Z 1; pzero]).
Proof. vm_compute. reflexivity. Qed.
